(** * politeia: the tstore backend, its anchor engine and the pi billing
    status command, embedded shallowly and checked against the written
    specification.

    Sources embedded here:
    - politeiad/backendv2/tstorebe/tstorebe.go  (record engine)
    - politeiad/backendv2/tstorebe/tstore/anchor.go (anchor engine)
    - the pi plugin command file (cmdSetBillingStatus and its table) *)

From Stdlib Require Import ZArith Lia Ascii String DecimalString Sorted.
From stdpp Require Import base gmap strings list fin_maps.

Local Open Scope string_scope.
Local Open Scope list_scope.
Local Open Scope Z_scope.

(** ** Machine integers *)

(** Go's uint32: a value of Z kept in [0, 2^32) by reduction. *)
Definition u32 (z : Z) : Z := z mod 2 ^ 32.

(** strconv.FormatUint(uint64(n), 10). *)
Definition FormatUint (n : Z) : string :=
  NilZero.string_of_uint (N.to_uint (Z.to_N n)).

(** Go's (value, error) pair. *)
Inductive GoResult (E A : Type) :=
| Ok (a : A)
| Err (e : E).
Arguments Ok {E A} a.
Arguments Err {E A} e.

(** Byte slices and Go strings are both sequences of bytes. *)
Definition bytes := string.

(** ** Package backendv2: the types the record engine works on *)
Module Backend.

(** Modelled from the spec: the declarations of backendv2 (StateT, StatusT
    and their constants) are not among the sources.  Both are uint32 in Go;
    the named values are numbered in the order the specification lists them,
    0 being the invalid value. *)
Definition StateT := Z.
Definition StateInvalid : StateT := 0.
Definition StateUnvetted : StateT := 1.
Definition StateVetted : StateT := 2.

Definition StatusT := Z.
Definition StatusInvalid : StatusT := 0.
Definition StatusUnreviewed : StatusT := 1.
Definition StatusPublic : StatusT := 2.
Definition StatusCensored : StatusT := 3.
Definition StatusArchived : StatusT := 4.

(** ContentError sub-codes used by the validation functions. *)
Inductive ContentErrorCodeT :=
| ContentErrorMetadataStreamInvalid
| ContentErrorMetadataStreamDuplicate
| ContentErrorFilesEmpty
| ContentErrorFileNameInvalid
| ContentErrorFileNameDuplicate
| ContentErrorFileDigestInvalid
| ContentErrorFilePayloadInvalid
| ContentErrorFileMIMETypeInvalid
| ContentErrorFileMIMETypeUnsupported.

(** The error values that travel through the record engine.  [ErrWrap] is
    fmt.Errorf("<prefix>: %v", err); [ErrExternal] is an error produced by a
    collaborator (store, hook, library) that the engine only passes on. *)
Inductive error :=
| ErrRecordNotFound
| ErrRecordLocked
| ErrNoRecordChanges
| ErrShutdown
| StatusTransitionError (from to : StatusT)
| ContentError (code : ContentErrorCodeT) (context : string)
| ErrWrap (prefix : string) (e : error)
| ErrFmt (msg : string)
| ErrExternal (msg : string).

Record MetadataStream := mkMetadataStream {
  PluginID : string;
  StreamID : Z;          (* uint32 *)
  Payload : string
}.

Record File := mkFile {
  Name : string;
  MIME : string;
  Digest : string;
  FPayload : string
}.

Record RecordMetadata := mkRecordMetadata {
  Token : string;
  Version : Z;           (* uint32 *)
  Iteration : Z;         (* uint32 *)
  State : StateT;
  Status : StatusT;
  Timestamp : Z;
  Merkle : string
}.

Record Record_ := mkRecord {
  RecordMetadata_ : RecordMetadata;
  Metadata : list MetadataStream;
  Files : list File
}.

#[global] Instance ContentErrorCodeT_eq_dec : EqDecision ContentErrorCodeT.
Proof. solve_decision. Defined.
#[global] Instance error_eq_dec : EqDecision error.
Proof.
  unfold EqDecision, Decision.
  decide equality;
    first [apply String.string_dec | apply Z.eq_dec
          | exact (ContentErrorCodeT_eq_dec _ _)].
Defined.
#[global] Instance MetadataStream_eq_dec : EqDecision MetadataStream.
Proof. solve_decision. Defined.
#[global] Instance File_eq_dec : EqDecision File.
Proof. solve_decision. Defined.
#[global] Instance RecordMetadata_eq_dec : EqDecision RecordMetadata.
Proof. solve_decision. Defined.

End Backend.

(** ** Package tstorebe: the status table *)
Module Tstorebe.
Import Backend.

(** statusChanges[currentStatus][newStatus] exists iff the change is
    allowed. *)
Definition statusChanges : gmap Z (gset Z) :=
  {[ StatusUnreviewed := {[ StatusPublic; StatusCensored ]};
     StatusPublic := {[ StatusCensored; StatusArchived ]};
     StatusCensored := ∅;
     StatusArchived := ∅ ]}.

Definition statusChangeIsAllowed (from to : StatusT) : bool :=
  match statusChanges !! from with
  | None => false
  | Some allowed => bool_decide (to ∈ allowed)
  end.

(** The four transitions of the specification's table (section 4.2). *)
Definition permittedTransition (from to : StatusT) : Prop :=
  (from = StatusUnreviewed ∧ to = StatusPublic) ∨
  (from = StatusUnreviewed ∧ to = StatusCensored) ∨
  (from = StatusPublic ∧ to = StatusCensored) ∨
  (from = StatusPublic ∧ to = StatusArchived).

(** *** Collaborators of the record engine *)

Abbreviation result := (GoResult error).

(** Library functions the engine calls; neither their code nor the
    packages util and mime of this repository are among the sources, so the
    engine is stated over any implementation of them. *)
Class Library := {
  filepath_Base : string → string;
  gozaru_Sanitize : string → string;
  util_ConvertDigest : string → option bytes;
  base64_DecodeString : string → option bytes;
  util_Digest : bytes → bytes;
  mime_DetectMimeType : bytes → string;
  mime_MimeValid : string → bool;
  util_MerkleRoot : list string → result bytes;
  hex_EncodeToString : bytes → string
}.

(** plugins.HookT values used here and the structs marshalled into the hook
    payload.  json.Marshal cannot fail on these structs, so the payload is
    kept structured. *)
Inductive HookT :=
| HookTypeNewRecordPre | HookTypeNewRecordPost
| HookTypeEditRecordPre | HookTypeEditRecordPost
| HookTypeEditMetadataPre | HookTypeEditMetadataPost
| HookTypeSetRecordStatusPre | HookTypeSetRecordStatusPost.

Inductive HookPayload :=
| HookNewRecordPre (metadata : list MetadataStream) (files : list File)
| HookNewRecordPost (metadata : list MetadataStream) (files : list File)
    (rm : RecordMetadata)
| HookEditRecord (r : Record_) (rm : RecordMetadata)
    (metadata : list MetadataStream) (files : list File)
| HookEditMetadata (r : Record_) (metadata : list MetadataStream)
| HookSetRecordStatus (r : Record_) (rm : RecordMetadata)
    (metadata : list MetadataStream).

(** The methods of tstore.Tstore the engine calls.  The tstore package's
    record code is not among the sources: the engine is stated over any
    store [T] with these operations.  Reads leave the store as it is;
    writes and hooks return the store they leave behind. *)
Class TstoreAPI (T : Type) := {
  tstore_RecordNew : T → result bytes * T;
  tstore_RecordExists : bytes → T → bool;
  tstore_RecordLatest : bytes → T → result Record_;
  tstore_RecordSave :
    bytes → RecordMetadata → list MetadataStream → list File → T →
    option error * T;
  tstore_RecordFreeze :
    bytes → RecordMetadata → list MetadataStream → list File → T →
    option error * T;
  tstore_RecordDel : bytes → T → option error * T;
  tstore_PluginHookPre : HookT → HookPayload → T → option error * T;
  tstore_PluginHookPost : HookT → HookPayload → T → T
}.

(** Every call the engine makes that writes or notifies, in call order. *)
Inductive Event :=
| EvPluginHookPre (h : HookT) (p : HookPayload)
| EvPluginHookPost (h : HookT) (p : HookPayload)
| EvRecordNew
| EvRecordSave (token : bytes) (rm : RecordMetadata)
    (metadata : list MetadataStream) (files : list File)
| EvRecordFreeze (token : bytes) (rm : RecordMetadata)
    (metadata : list MetadataStream) (files : list File)
| EvRecordDel (token : bytes)
| EvInventoryAdd (state : StateT) (token : bytes) (status : StatusT)
| EvInventoryMoveToVetted (token : bytes) (status : StatusT)
| EvInventoryUpdate (state : StateT) (token : bytes) (status : StatusT).

(** The record metadata handed to the store by a save or freeze call. *)
Definition saved_rm (ev : Event) : option RecordMetadata :=
  match ev with
  | EvRecordSave _ rm _ _ | EvRecordFreeze _ rm _ _ => Some rm
  | _ => None
  end.

Definition saved (tr : list Event) : list RecordMetadata :=
  omap saved_rm tr.

(** *** Range loops that return on the first error *)

Fixpoint forEach {A : Type} (body : A → option error) (l : list A)
  : option error :=
  match l with
  | [] => None
  | x :: l' =>
      match body x with
      | Some e => Some e
      | None => forEach body l'
      end
  end.

Fixpoint forEachAcc {A S : Type} (body : S → A → error + S) (s : S)
  (l : list A) : error + S :=
  match l with
  | [] => inr s
  | x :: l' =>
      match body s x with
      | inl e => inl e
      | inr s' => forEachAcc body s' l'
      end
  end.

(** *** metadataStreamsVerify *)

Fixpoint metadataStreamsVerify_loop (md : gmap string (gset Z)) (i : Z)
  (metadata : list MetadataStream) : option error :=
  match metadata with
  | [] => None
  | v :: rest =>
      if decide (PluginID v = "") then
        Some (ContentError ContentErrorMetadataStreamInvalid
                ("plugin id missing at index " +:+ FormatUint i))
      else if decide (StreamID v = 0) then
        Some (ContentError ContentErrorMetadataStreamInvalid
                ("stream id missing at index " +:+ FormatUint i))
      else if decide (Payload v = "") then
        Some (ContentError ContentErrorMetadataStreamInvalid
                ("payload missing on " +:+ PluginID v +:+ " " +:+
                 FormatUint (StreamID v)))
      else
        let m := default ∅ (md !! PluginID v) in
        if decide (StreamID v ∈ m) then
          Some (ContentError ContentErrorMetadataStreamDuplicate
                  (PluginID v +:+ " " +:+ FormatUint (StreamID v)))
        else
          metadataStreamsVerify_loop
            (<[PluginID v := {[StreamID v]} ∪ m]> md) (i + 1) rest
  end.

Definition metadataStreamsVerify (metadata : list MetadataStream)
  : option error :=
  metadataStreamsVerify_loop ∅ 0 metadata.

(** *** metadataStreamsUpdate *)

(** The map key: v.PluginID + strconv.FormatUint(uint64(v.StreamID), 10). *)
Definition mdKey (v : MetadataStream) : string :=
  PluginID v +:+ FormatUint (StreamID v).

Definition mdPut (md : gmap string MetadataStream) (v : MetadataStream)
  : gmap string MetadataStream :=
  <[mdKey v := v]> md.

Definition mdAppendOne (md : gmap string MetadataStream)
  (v : MetadataStream) : gmap string MetadataStream :=
  match md !! mdKey v with
  | None => <[mdKey v := v]> md
  | Some m =>
      <[mdKey v :=
          mkMetadataStream (PluginID m) (StreamID m)
            (Payload m +:+ Payload v)]> md
  end.

(** The map the three loops build, before it is turned back into a
    slice. *)
Definition metadataStreamsMap
  (curr mdAppend mdOverwrite : list MetadataStream)
  : gmap string MetadataStream :=
  let md := foldl mdPut ∅ curr in
  let md := foldl mdPut md mdOverwrite in
  foldl mdAppendOne md mdAppend.

(** Go ranges over the map in an unspecified order; the slice below is
    one such order. *)
Definition metadataStreamsUpdate
  (curr mdAppend mdOverwrite : list MetadataStream)
  : list MetadataStream :=
  (map_to_list (metadataStreamsMap curr mdAppend mdOverwrite)).*2.

(** *** filesUpdate *)

Definition filesUpdate (filesCurr filesAdd : list File)
  (filesDel : list string) : list File :=
  let curr := foldl (λ m v, <[Name v := v]> m) (∅ : gmap string File)
                filesCurr in
  let curr := foldl (λ m fn, match m !! fn with
                             | Some _ => delete fn m
                             | None => m
                             end) curr filesDel in
  let curr := foldl (λ m v, <[Name v := v]> m) curr filesAdd in
  (map_to_list curr).*2.

(** *** filesVerify *)
Section FilesVerify.
Context `{Library}.

(** "Prevent paths": one iteration of either loop. *)
Definition pathCheck (name : string) : option error :=
  if decide (filepath_Base name ≠ name) then
    Some (ContentError ContentErrorFileNameInvalid
            (name +:+ " contains a file path"))
  else None.

(** "Prevent duplicate filenames": one iteration of either loop over the
    shared name set fn. *)
Definition dupCheck (fn : gset string) (name : string)
  : error + gset string :=
  if decide (name ∈ fn) then
    inl (ContentError ContentErrorFileNameDuplicate name)
  else inr ({[name]} ∪ fn).

(** "Prevent bad filenames": the body of the last loop, over files
    only. *)
Definition fileCheck (f : File) : option error :=
  if decide (gozaru_Sanitize (Name f) ≠ Name f) then
    Some (ContentError ContentErrorFileNameInvalid
            (Name f +:+ " is not sanitized"))
  else
    match util_ConvertDigest (Digest f) with
    | None => Some (ContentError ContentErrorFileDigestInvalid (Name f))
    | Some d =>
        if decide (FPayload f = "") then
          Some (ContentError ContentErrorFilePayloadInvalid
                  (Name f +:+ " payload empty"))
        else
          match base64_DecodeString (FPayload f) with
          | None =>
              Some (ContentError ContentErrorFilePayloadInvalid
                      (Name f +:+ " invalid base64"))
          | Some payload =>
              let dp := util_Digest payload in
              if decide (d ≠ dp) then
                Some (ContentError ContentErrorFileDigestInvalid
                        (Name f +:+ " digest got " +:+
                         hex_EncodeToString d +:+ ", want " +:+
                         hex_EncodeToString dp))
              else
                let detectedMIMEType := mime_DetectMimeType payload in
                if decide (detectedMIMEType ≠ MIME f) then
                  Some (ContentError ContentErrorFileMIMETypeInvalid
                          (Name f +:+ " mime got " +:+ MIME f +:+
                           ", want " +:+ detectedMIMEType))
                else if negb (mime_MimeValid (MIME f)) then
                  Some (ContentError ContentErrorFileMIMETypeUnsupported
                          (Name f))
                else None
          end
    end.

Definition filesVerify (files : list File) (filesDel : list string)
  : option error :=
  if decide (length files = 0%nat ∧ length filesDel = 0%nat) then
    Some (ContentError ContentErrorFilesEmpty "")
  else
    match forEach (λ f, pathCheck (Name f)) files with
    | Some e => Some e
    | None =>
    match forEach pathCheck filesDel with
    | Some e => Some e
    | None =>
    match forEachAcc (λ fn f, dupCheck fn (Name f)) ∅ files with
    | inl e => Some e
    | inr fn =>
    match forEachAcc dupCheck fn filesDel with
    | inl e => Some e
    | inr _ => forEach fileCheck files
    end end end end.

(** The declared digest is the digest of the decoded payload. *)
Definition fileDigestOk (f : File) : Prop :=
  ∃ d payload,
    util_ConvertDigest (Digest f) = Some d ∧
    base64_DecodeString (FPayload f) = Some payload ∧
    d = util_Digest payload.

(** The declared MIME type is the one detected from the decoded
    payload. *)
Definition fileMimeOk (f : File) : Prop :=
  ∃ payload,
    base64_DecodeString (FPayload f) = Some payload ∧
    mime_DetectMimeType payload = MIME f.

End FilesVerify.


(** *** The backend and its operations *)

(** tstoreBackend, with the wall clock read by time.Now and the log of
    calls made so far.  The per-record mutex is not modelled: operations
    are run one at a time. *)
Record tstoreBackend (T : Type) := mkBackend {
  shutdown : bool;
  tstore : T;
  clock : Z;
  trace : list Event
}.
Arguments mkBackend {T} _ _ _ _.
Arguments shutdown {T} _.
Arguments tstore {T} _.
Arguments clock {T} _.
Arguments trace {T} _.

(** A method of the backend: runs on a backend, returns a value or an
    error and the backend it leaves. *)
Definition M (T A : Type) : Type :=
  tstoreBackend T → result A * tstoreBackend T.

#[global] Instance M_ret {T} : MRet (M T) := λ A a b, (Ok a, b).
#[global] Instance M_bind {T} : MBind (M T) := λ A B f m b,
  match m b with
  | (Ok a, b') => f a b'
  | (Err e, b') => (Err e, b')
  end.

Definition fail {T A} (e : error) : M T A := λ b, (Err e, b).

(** if err != nil { return nil, err } *)
Definition check {T} (err : option error) : M T unit :=
  match err with
  | Some e => fail e
  | None => mret tt
  end.

Definition emit {T} (ev : Event) : M T unit :=
  λ b, (Ok tt, mkBackend (shutdown b) (tstore b) (clock b) (trace b ++ [ev])).

Section Engine.
Context `{Library} {T : Type} `{TstoreAPI T}.

(** A writing call into the store: logged, then run on the store. *)
Definition call (ev : Event) (f : T → option error * T)
  : M T (option error) :=
  λ b, let '(err, t') := f (tstore b) in
       (Ok err, mkBackend (shutdown b) t' (clock b) (trace b ++ [ev])).

Definition isShutdown : M T bool := λ b, (Ok (shutdown b), b).

Definition RecordExists (token : bytes) : M T bool :=
  λ b, (Ok (tstore_RecordExists token (tstore b)), b).

(** r, err := t.tstore.RecordLatest(token), the error kept as a value. *)
Definition RecordLatest (token : bytes) : M T (result Record_) :=
  λ b, (Ok (tstore_RecordLatest token (tstore b)), b).

Definition time_Now_Unix : M T Z := λ b, (Ok (clock b), b).

Definition PluginHookPre (h : HookT) (p : HookPayload)
  : M T (option error) :=
  call (EvPluginHookPre h p) (tstore_PluginHookPre h p).

Definition PluginHookPost (h : HookT) (p : HookPayload) : M T unit :=
  _ ← call (EvPluginHookPost h p)
        (λ t, (None, tstore_PluginHookPost h p t));
  mret tt.

Definition RecordSave (token : bytes) (rm : RecordMetadata)
  (metadata : list MetadataStream) (files : list File)
  : M T (option error) :=
  call (EvRecordSave token rm metadata files)
    (tstore_RecordSave token rm metadata files).

Definition RecordFreeze (token : bytes) (rm : RecordMetadata)
  (metadata : list MetadataStream) (files : list File)
  : M T (option error) :=
  call (EvRecordFreeze token rm metadata files)
    (tstore_RecordFreeze token rm metadata files).

Definition RecordDel (token : bytes) : M T (option error) :=
  call (EvRecordDel token) (tstore_RecordDel token).

(** recordMetadataNew *)
Definition recordMetadataNew (token : bytes) (files : list File)
  (state : StateT) (status : StatusT) (version iteration : Z)
  : M T RecordMetadata :=
  let digests := map Digest files in
  match util_MerkleRoot digests with
  | Err e => fail e
  | Ok m =>
      now ← time_Now_Unix;
      mret {| Token := hex_EncodeToString token;
              Version := version;
              Iteration := iteration;
              State := state;
              Status := status;
              Timestamp := now;
              Merkle := hex_EncodeToString m |}
  end.

(** RecordNew *)
Definition RecordNew (metadata : list MetadataStream)
  (files : list File) : M T Record_ :=
  _ ← check (metadataStreamsVerify metadata);
  _ ← check (filesVerify files []);
  let pre := HookNewRecordPre metadata files in
  err ← PluginHookPre HookTypeNewRecordPre pre;
  _ ← check err;
  rt ← (λ b, let '(rt, t') := tstore_RecordNew (tstore b) in
             (Ok rt, mkBackend (shutdown b) t' (clock b)
                       (trace b ++ [EvRecordNew])));
  match rt with
  | Err e => fail e
  | Ok token =>
      rm ← recordMetadataNew token files StateUnvetted StatusUnreviewed
             1 1;
      err ← RecordSave token rm metadata files;
      match err with
      | Some e => fail (ErrWrap "RecordSave" e)
      | None =>
          let post := HookNewRecordPost metadata files rm in
          _ ← PluginHookPost HookTypeNewRecordPost post;
          _ ← emit (EvInventoryAdd StateUnvetted token StatusUnreviewed);
          r ← RecordLatest token;
          match r with
          | Err e => fail (ErrWrap "RecordLatest" e)
          | Ok r => mret r
          end
      end
  end.

(** RecordEdit *)
Definition RecordEdit (token : bytes)
  (mdAppend mdOverwrite : list MetadataStream) (filesAdd : list File)
  (filesDel : list string) : M T Record_ :=
  let allMD := (mdAppend ++ mdOverwrite)%list in
  _ ← check (metadataStreamsVerify allMD);
  _ ← check (filesVerify filesAdd filesDel);
  ex ← RecordExists token;
  if negb ex then fail ErrRecordNotFound else
  sd ← isShutdown;
  if (sd : bool) then fail ErrShutdown else
  r ← RecordLatest token;
  match r with
  | Err e => fail (ErrWrap "RecordLatest" e)
  | Ok r =>
      let rm := RecordMetadata_ r in
      let metadata := metadataStreamsUpdate (Metadata r) mdAppend
                        mdOverwrite in
      let files := filesUpdate (Files r) filesAdd filesDel in
      recordMD ← recordMetadataNew token files (State rm) (Status rm)
                   (u32 (Version rm + 1)) (u32 (Iteration rm + 1));
      if decide (Merkle (RecordMetadata_ r) = Merkle recordMD) then
        fail ErrNoRecordChanges
      else
        let her := HookEditRecord r recordMD metadata files in
        err ← PluginHookPre HookTypeEditRecordPre her;
        _ ← check err;
        err ← RecordSave token recordMD metadata files;
        match err with
        | Some e =>
            if decide (e = ErrRecordLocked) then fail e
            else fail (ErrWrap "RecordSave" e)
        | None =>
            _ ← PluginHookPost HookTypeEditRecordPost her;
            r ← RecordLatest token;
            match r with
            | Err e => fail (ErrWrap "RecordLatest" e)
            | Ok r => mret r
            end
        end
  end.

(** RecordEditMetadata *)
Definition RecordEditMetadata (token : bytes)
  (mdAppend mdOverwrite : list MetadataStream) : M T Record_ :=
  let allMD := (mdAppend ++ mdOverwrite)%list in
  _ ← check (metadataStreamsVerify allMD);
  if decide (length mdAppend = 0%nat ∧ length mdOverwrite = 0%nat) then
    fail ErrNoRecordChanges
  else
  ex ← RecordExists token;
  if negb ex then fail ErrRecordNotFound else
  sd ← isShutdown;
  if (sd : bool) then fail ErrShutdown else
  r ← RecordLatest token;
  match r with
  | Err e => fail (ErrWrap "RecordLatest" e)
  | Ok r =>
      let rm := RecordMetadata_ r in
      let metadata := metadataStreamsUpdate (Metadata r) mdAppend
                        mdOverwrite in
      recordMD ← recordMetadataNew token (Files r) (State rm) (Status rm)
                   (Version rm) (u32 (Iteration rm + 1));
      let hem := HookEditMetadata r metadata in
      err ← PluginHookPre HookTypeEditMetadataPre hem;
      _ ← check err;
      err ← RecordSave token recordMD metadata (Files r);
      match err with
      | Some e =>
          if decide (e = ErrRecordLocked ∨ e = ErrNoRecordChanges)
          then fail e
          else fail (ErrWrap "RecordSave" e)
      | None =>
          _ ← PluginHookPost HookTypeEditMetadataPost hem;
          r ← RecordLatest token;
          match r with
          | Err e => fail (ErrWrap "RecordLatest" e)
          | Ok r => mret r
          end
      end
  end.

(** setStatusPublic, setStatusArchived, setStatusCensored *)
Definition setStatusPublic (token : bytes) (rm : RecordMetadata)
  (metadata : list MetadataStream) (files : list File)
  : M T (option error) :=
  RecordSave token rm metadata files.

Definition setStatusArchived (token : bytes) (rm : RecordMetadata)
  (metadata : list MetadataStream) (files : list File)
  : M T (option error) :=
  err ← RecordFreeze token rm metadata files;
  match err with
  | Some e => mret (Some (ErrWrap "RecordFreeze" e))
  | None => mret None
  end.

Definition setStatusCensored (token : bytes) (rm : RecordMetadata)
  (metadata : list MetadataStream) (files : list File)
  : M T (option error) :=
  err ← RecordFreeze token rm metadata files;
  match err with
  | Some e => mret (Some (ErrWrap "RecordFreeze" e))
  | None =>
      err ← RecordDel token;
      match err with
      | Some e => mret (Some (ErrWrap "RecordDel" e))
      | None => mret None
      end
  end.

(** The "Update record status" switch of RecordSetStatus. *)
Definition statusSwitch (token : bytes) (status : StatusT)
  (rm : RecordMetadata) (metadata : list MetadataStream)
  (files : list File) : M T (option error) :=
  if decide (status = StatusPublic) then
    setStatusPublic token rm metadata files
  else if decide (status = StatusArchived) then
    setStatusArchived token rm metadata files
  else if decide (status = StatusCensored) then
    setStatusCensored token rm metadata files
  else
    (* Should not happen *)
    mret (Some (ErrFmt ("unknown status " +:+ FormatUint status))).

(** RecordSetStatus *)
Definition RecordSetStatus (token : bytes) (status : StatusT)
  (mdAppend mdOverwrite : list MetadataStream) : M T Record_ :=
  ex ← RecordExists token;
  if negb ex then fail ErrRecordNotFound else
  sd ← isShutdown;
  if (sd : bool) then fail ErrShutdown else
  r ← RecordLatest token;
  match r with
  | Err e => fail (ErrWrap "RecordLatest" e)
  | Ok r =>
      let currStatus := Status (RecordMetadata_ r) in
      if negb (statusChangeIsAllowed currStatus status) then
        fail (StatusTransitionError currStatus status)
      else
        let state := State (RecordMetadata_ r) in
        let version := Version (RecordMetadata_ r) in
        let iter := u32 (Iteration (RecordMetadata_ r) + 1) in
        let '(state, version, iter) :=
          if decide (status = StatusPublic)
          then (StateVetted, 1, 1)
          else (state, version, iter) in
        recordMD ← recordMetadataNew token (Files r) state status
                     version iter;
        let metadata := metadataStreamsUpdate (Metadata r) mdAppend
                          mdOverwrite in
        let hsrs := HookSetRecordStatus r recordMD metadata in
        err ← PluginHookPre HookTypeSetRecordStatusPre hsrs;
        _ ← check err;
        err ← statusSwitch token status recordMD metadata (Files r);
        _ ← check err;
        _ ← PluginHookPost HookTypeSetRecordStatusPost hsrs;
        _ ← (if decide (status = StatusPublic) then
               emit (EvInventoryMoveToVetted token status)
             else
               emit (EvInventoryUpdate (State (RecordMetadata_ r)) token
                       status));
        r ← RecordLatest token;
        match r with
        | Err e => fail (ErrWrap "RecordLatest" e)
        | Ok r => mret r
        end
  end.

End Engine.

End Tstorebe.

(** ** Package tstore: the anchor engine (anchor.go) *)
Module Anchor.
Import Backend.
Abbreviation result := (GoResult error).

(** Go's uint64. *)
Definition u64 (z : Z) : Z := z mod 2 ^ 64.

Definition anchorID : string := "tstorebe".

(** Minutes in the polling period and the number of attempts, as the var
    block of anchorWait computes them. *)
Definition period_Minutes : Z := 5.
Definition retries : Z := 180 / period_Minutes.

(** types.LogRootV1 (the fields the engine reads). *)
Record LogRootV1 := mkLogRoot {
  TreeSize : Z;          (* uint64 *)
  RootHash : bytes
}.

(** dcrtime's result codes, as far as the engine tells them apart. *)
Inductive ResultT :=
| ResultOK
| ResultExistsError
| ResultOther (code : Z).

(** merkle.Branch (the field the engine reads) *)
Record Branch := mkBranch {
  Hashes : list bytes
}.

Record ChainInformation_ := mkChainInformation {
  Transaction : string;
  MerkleRoot : string;
  MerklePath : Branch;
  ChainTimestamp : Z
}.

Record VerifyDigest_ := mkVerifyDigest {
  VDigest : string;
  Result : ResultT;
  ChainInformation : ChainInformation_
}.

Record anchor := mkAnchor {
  TreeID : Z;            (* int64 *)
  LogRoot : option LogRootV1;
  VerifyDigest : option VerifyDigest_
}.

Record Tree := mkTree { TreeId : Z }.

Record LogLeaf := mkLogLeaf {
  MerkleLeafHash : bytes;
  LeafIndex : Z;
  ExtraData : bytes
}.

(** The decoded extra data of a leaf: its descriptor and store key. *)
Record extraData := mkExtraData {
  Desc : string;
  storeKey : string
}.

Definition dataDescriptorAnchor : string := "anchor".

#[global] Instance ResultT_eq_dec : EqDecision ResultT.
Proof. solve_decision. Defined.
#[global] Instance LogRootV1_eq_dec : EqDecision LogRootV1.
Proof. solve_decision. Defined.
#[global] Instance Branch_eq_dec : EqDecision Branch.
Proof. solve_decision. Defined.
#[global] Instance ChainInformation_eq_dec : EqDecision ChainInformation_.
Proof. solve_decision. Defined.
#[global] Instance VerifyDigest_eq_dec : EqDecision VerifyDigest_.
Proof. solve_decision. Defined.
#[global] Instance anchor_eq_dec : EqDecision anchor.
Proof. solve_decision. Defined.

Definition errAnchorNotFound : error := ErrFmt "anchor not found".
(** A run-time panic (nil dereference, index out of range). *)
Definition errPanic : error := ErrFmt "panic".

(** What the engine calls outside anchor.go: the trillian client, the
    key-value store, the dcrtime client and library helpers.  The reply
    of verifyBatch changes as time passes, so it is indexed by the number
    of verifyBatch calls made before. *)
Class AnchorEnv := {
  tlog_TreesAll : result (list Tree);
  tlog_LeavesAll : Z → result (list LogLeaf);
  tlog_SignedLogRoot : Tree → result LogRootV1;
  extraDataDecode : bytes → result extraData;
  store_Get : list string → result (gmap string bytes);
  (** store.Deblob followed by convertAnchorFromBlobEntry *)
  anchorFromBlob : bytes → result anchor;
  (** the writes of anchorSave: blob Put and LeavesAppend with its checks *)
  anchorPersist : anchor → option error;
  dcrtime_timestampBatch : string → list string → result (list ResultT);
  dcrtime_verifyBatch :
    nat → string → list string → result (list VerifyDigest_);
  merkle_VerifyAuthPath : Branch → result bytes;
  hex_EncodeToString : bytes → string
}.

(** What the engine does, in order. *)
Inductive AnchorEvent :=
| EvDroppingAnchorSet (b : bool)
| EvTimestampBatch (id : string) (digests : list string)
| EvGoAnchorWait (anchors : list anchor) (digests : list string)
| EvTick
| EvVerifyBatch (id : string) (digests : list string)
| EvAnchorSave (a : anchor).

(** The Tstore fields the anchor engine touches, the number of verifyBatch
    calls made and minutes waited on the ticker so far, and the log of
    events. *)
Record Tstore := mkTstore {
  droppingAnchor : bool;
  verifyCalls : nat;
  waited : Z;
  events : list AnchorEvent
}.

Definition logEv (ev : AnchorEvent) (t : Tstore) : Tstore :=
  mkTstore (droppingAnchor t) (verifyCalls t) (waited t) (events t ++ [ev]).

Definition droppingAnchorGet (t : Tstore) : bool := droppingAnchor t.

Definition droppingAnchorSet (b : bool) (t : Tstore) : Tstore :=
  mkTstore b (verifyCalls t) (waited t) (events t ++ [EvDroppingAnchorSet b]).

(** <-ticker.C: one period passes. *)
Definition tick (t : Tstore) : Tstore :=
  mkTstore (droppingAnchor t) (verifyCalls t) (waited t + period_Minutes)
    (events t ++ [EvTick]).

(** hex.EncodeToString(make([]byte, sha256.Size)) *)
Definition zeroTransaction : string :=
  "0000000000000000000000000000000000000000000000000000000000000000".

Section Engine.
Context `{AnchorEnv}.

(** anchorLatest: the backwards scan for the most recent anchor leaf.
    The list is given newest leaf first. *)
Fixpoint anchorLatest_scan (leavesRev : list LogLeaf) : result string :=
  match leavesRev with
  | [] => Ok ""
  | l :: rest =>
      match extraDataDecode (ExtraData l) with
      | Err e => Err e
      | Ok ed =>
          if decide (Desc ed = dataDescriptorAnchor) then Ok (storeKey ed)
          else anchorLatest_scan rest
      end
  end.

Definition anchorLatest (treeID : Z) : result anchor :=
  match tlog_LeavesAll treeID with
  | Err e => Err e
  | Ok leavesAll =>
      match anchorLatest_scan (reverse leavesAll) with
      | Err e => Err e
      | Ok key =>
          if decide (key = "") then Err errAnchorNotFound else
          match store_Get [key] with
          | Err e => Err (ErrWrap "store Get" e)
          | Ok blobs =>
              if decide (size blobs ≠ 1%nat) then
                Err (ErrFmt "unexpected blobs count")
              else
                match blobs !! key with
                | None => Err (ErrFmt ("blob not found " +:+ key))
                | Some b => anchorFromBlob b
                end
          end
      end
  end.

(** anchorSave: the sanity checks, then the writes. *)
Definition anchorSave (a : anchor) (t : Tstore) : option error * Tstore :=
  if decide (TreeID a = 0) then (Some (ErrFmt "invalid tree id of 0"), t)
  else if decide (LogRoot a = None) then
    (Some (ErrFmt "log root not found"), t)
  else if decide (VerifyDigest a = None) then
    (Some (ErrFmt "verify digest not found"), t)
  else (anchorPersist a, logEv (EvAnchorSave a) t).

(** The loop of anchorWait over vbr.Digests that fills the anchored
    set; each break leaves the set as it is. *)
Fixpoint anchoredSet (vds : list VerifyDigest_) (anchored : gset string)
  : gset string :=
  match vds with
  | [] => anchored
  | v :: rest =>
      if decide (Result v ≠ ResultOK) then anchored
      else if decide (Transaction (ChainInformation v) = zeroTransaction)
      then anchored
      else if decide (ChainTimestamp (ChainInformation v) = 0)
      then anchored
      else anchoredSet rest ({[VDigest v]} ∪ anchored)
  end.

(** One pass of the "Save anchor records" loop, for anchors[k]. *)
Definition saveOne (vbr : list VerifyDigest_) (tk : Tstore * nat)
  (v : anchor) : Tstore * nat :=
  let '(t, k) := tk in
  match vbr !! k, LogRoot v with
  | Some verifyDigest, Some lr =>
      let digest := VDigest verifyDigest in
      let merkleRoot := MerkleRoot (ChainInformation verifyDigest) in
      let merklePath := MerklePath (ChainInformation verifyDigest) in
      if decide (digest ≠ hex_EncodeToString (RootHash lr)) then (t, S k)
      else
        match merkle_VerifyAuthPath merklePath with
        | Err _ => (t, S k)
        | Ok mk =>
            if decide (hex_EncodeToString mk ≠ merkleRoot) then (t, S k)
            else if negb (existsb
                            (λ h, bool_decide
                                    (hex_EncodeToString h = digest))
                            (Hashes merklePath))
            then (t, S k)
            else
              let v' := mkAnchor (TreeID v) (LogRoot v)
                          (Some verifyDigest) in
              (snd (anchorSave v' t), S k)
        end
  | _, _ => (t, S k)   (* Go panics here; no anchor is saved *)
  end.

(** How one iteration of the polling loop ends. *)
Inductive tryOutcome :=
| TryContinue
| TryError (exitErr : error)
| TryDropped (vbr : list VerifyDigest_).

(** The body of the polling loop. *)
Definition anchorWait_try (anchors : list anchor) (digests : list string)
  (t : Tstore) : tryOutcome * Tstore :=
  let t := tick t in
  let n := verifyCalls t in
  let t := mkTstore (droppingAnchor t) (S n) (waited t)
             (events t ++ [EvVerifyBatch anchorID digests]) in
  match dcrtime_verifyBatch n anchorID digests with
  | Err e => (TryError (ErrWrap "verifyBatch" e), t)
  | Ok vbr =>
      let anchored := anchoredSet vbr ∅ in
      if decide (size anchored ≠ length digests) then (TryContinue, t)
      else (TryDropped vbr, fst (foldl (saveOne vbr) (t, 0%nat) anchors))
  end.

(** How anchorWait ends: called reentrantly, anchors dropped on attempt
    [try] (counted from 0), error on attempt [try], or timeout. *)
Inductive waitOutcome :=
| WaitReentrant
| WaitDropped (try : nat) (vbr : list VerifyDigest_)
| WaitError (try : nat) (exitErr : error)
| WaitTimeout.

(** for try := 0; try < retries; try++, with [todo] iterations left. *)
Fixpoint anchorWait_loop (todo : nat) (try : nat) (anchors : list anchor)
  (digests : list string) (t : Tstore) : waitOutcome * Tstore :=
  match todo with
  | O => (WaitTimeout, t)
  | S todo' =>
      match anchorWait_try anchors digests t with
      | (TryContinue, t') =>
          anchorWait_loop todo' (S try) anchors digests t'
      | (TryError e, t') => (WaitError try e, t')
      | (TryDropped vbr, t') => (WaitDropped try vbr, t')
      end
  end.

(** anchorWait; the deferred droppingAnchorSet(false) runs on every
    return after the guard was taken. *)
Definition anchorWait (anchors : list anchor) (digests : list string)
  (t : Tstore) : waitOutcome * Tstore :=
  if droppingAnchorGet t then (WaitReentrant, t)
  else
    let t := droppingAnchorSet true t in
    let '(out, t) :=
      anchorWait_loop (Z.to_nat retries) 0 anchors digests t in
    (out, droppingAnchorSet false t).

(** The loop of anchorTrees that finds the trees to anchor. *)
Fixpoint anchorTrees_collect (trees : list Tree) (anchors : list anchor)
  (digests : list string) : result (list anchor * list string) :=
  match trees with
  | [] => Ok (anchors, digests)
  | v :: rest =>
      let add :=
        match tlog_SignedLogRoot v with
        | Err e => Err (ErrWrap "SignedLogRoot" e)
        | Ok lr =>
            anchorTrees_collect rest
              (anchors ++ [mkAnchor (TreeId v) (Some lr) None])
              (digests ++ [hex_EncodeToString (RootHash lr)])
        end in
      match anchorLatest (TreeId v) with
      | Err e =>
          if decide (e = errAnchorNotFound) then
            match tlog_LeavesAll (TreeId v) with
            | Err e => Err (ErrWrap "LeavesAll" e)
            | Ok leavesAll =>
                if decide (length leavesAll = 0%nat)
                then anchorTrees_collect rest anchors digests
                else add
            end
          else Err (ErrWrap "anchorLatest" e)
      | Ok a =>
          match tlog_SignedLogRoot v with
          | Err e => Err (ErrWrap "SignedLogRoot" e)
          | Ok lr =>
              match LogRoot a with
              | None => Err errPanic
              | Some alr =>
                  if decide (TreeSize alr = u64 (TreeSize lr - 1))
                  then anchorTrees_collect rest anchors digests
                  else add
              end
          end
      end
  end.

(** anchorTrees.  The goroutine started by its last statement is
    recorded as an event; it runs anchorWait later. *)
Definition anchorTrees (t : Tstore) : option error * Tstore :=
  if droppingAnchorGet t then (None, t)
  else
    match tlog_TreesAll with
    | Err e => (Some (ErrWrap "TreesAll" e), t)
    | Ok trees =>
        match anchorTrees_collect trees [] [] with
        | Err e => (Some e, t)
        | Ok (anchors, digests) =>
            if decide (length anchors = 0%nat) then (None, t)
            else
              let t := logEv (EvTimestampBatch anchorID digests) t in
              match dcrtime_timestampBatch anchorID digests with
              | Err e => (Some (ErrWrap "timestampBatch" e), t)
              | Ok results =>
                  let failed :=
                    existsb (λ v, match v with
                                  | ResultOK | ResultExistsError => false
                                  | ResultOther _ => true
                                  end) results in
                  if failed then
                    (Some (ErrFmt "dcrtime failed to timestamp digests"),
                     t)
                  else (None, logEv (EvGoAnchorWait anchors digests) t)
              end
        end
    end.

(** The state of a running anchorWait after the guard was taken and
    [k] iterations of the polling loop have been made. *)
Definition waitingAfter (k : nat) (anchors : list anchor)
  (digests : list string) (t : Tstore) : Tstore :=
  Nat.iter k (λ t, (anchorWait_try anchors digests t).2)
    (droppingAnchorSet true t).

End Engine.

(** [t'] is [t] after [polls] verifyBatch calls, each one period after
    the other, with the guard as it was and the events [new] added. *)
Record extends (t t' : Tstore) (polls : nat) (new : list AnchorEvent)
  : Prop := {
  ext_guard : droppingAnchor t' = droppingAnchor t;
  ext_calls : verifyCalls t' = (verifyCalls t + polls)%nat;
  ext_waited : waited t' = waited t + period_Minutes * Z.of_nat polls;
  ext_events : events t' = events t ++ new
}.

(** A reply entry that counts as anchored. *)
Definition anchoredDigest (v : VerifyDigest_) : Prop :=
  Result v = ResultOK ∧
  Transaction (ChainInformation v) ≠ zeroTransaction ∧
  ChainTimestamp (ChainInformation v) ≠ 0.

(** Every submission in the log is preceded by the guard being set. *)
Definition guardSetBeforeSubmit (evs : list AnchorEvent) : Prop :=
  ∀ i id ds, evs !! i = Some (EvTimestampBatch id ds) →
    ∃ j, (j < i)%nat ∧ evs !! j = Some (EvDroppingAnchorSet true).

Definition isGuardWrite (ev : AnchorEvent) : bool :=
  match ev with
  | EvDroppingAnchorSet _ => true
  | _ => false
  end.

Definition isAnchorSave (ev : AnchorEvent) : bool :=
  match ev with
  | EvAnchorSave _ => true
  | _ => false
  end.

End Anchor.

(** ** The pi plugin: billing status (cmdSetBillingStatus) *)
Module Pi.

Definition PluginID : string := "pi".
Definition dataDescriptorBillingStatus : string :=
  PluginID +:+ "-billingstatus-v1".

(** Modelled from the spec: pi.BillingStatusT (a uint32) and its constants
    are declared in the plugin's API package, which is not among the
    sources; the three statuses are numbered in the order the specification
    lists them, 0 being the invalid status. *)
Definition BillingStatusT := Z.
Definition BillingStatusInvalid : BillingStatusT := 0.
Definition BillingStatusActive : BillingStatusT := 1.
Definition BillingStatusClosed : BillingStatusT := 2.
Definition BillingStatusCompleted : BillingStatusT := 3.

(** pi.ErrorCodeT values the command can return. *)
Inductive ErrorCodeT :=
| ErrorCodeInvalid
| ErrorCodeTokenInvalid
| ErrorCodePublicKeyInvalid
| ErrorCodeSignatureInvalid
| ErrorCodeBillingStatusChangeNotAllowed
| ErrorCodeBillingStatusInvalid.

(** backend.PluginError, and the errors of collaborators, which the
    command returns as they are. *)
Inductive perror :=
| PluginError (pluginID : string) (code : ErrorCodeT) (context : string)
| ErrRecordNotFound
| ErrExternal (msg : string).

Abbreviation result := (GoResult perror).

Record SetBillingStatus := mkSetBillingStatus {
  sbsToken : string;
  sbsStatus : BillingStatusT;
  sbsReason : string;
  sbsPublicKey : string;
  sbsSignature : string
}.

Record BillingStatusChange := mkBillingStatusChange {
  Token : string;
  Status : BillingStatusT;
  Reason : string;
  PublicKey : string;
  Signature : string;
  Timestamp : Z;
  Receipt : string
}.

Record SetBillingStatusReply := mkSetBillingStatusReply {
  rTimestamp : Z;
  rReceipt : string
}.

(** util.SignatureError codes told apart by convertSignatureError. *)
Inductive SignatureErrorCode :=
| ErrorStatusPublicKeyInvalid
| ErrorStatusSignatureInvalid
| ErrorStatusOther.

(** billingStatusChanges[currentStatus][newStatus] exists iff the
    transition is allowed. *)
Definition billingStatusChanges : gmap Z (gset Z) :=
  {[ BillingStatusActive :=
       {[ BillingStatusClosed; BillingStatusCompleted ]};
     BillingStatusClosed :=
       {[ BillingStatusActive; BillingStatusCompleted ]};
     BillingStatusCompleted :=
       {[ BillingStatusActive; BillingStatusClosed ]} ]}.

(** _, ok := billingStatusChanges[currStatus][newStatus]; a missing outer
    key gives a nil map, in which no key is found. *)
Definition billingStatusChangeAllowed (currStatus newStatus : Z) : bool :=
  bool_decide (newStatus ∈ default ∅ (billingStatusChanges !! currStatus)).

(** sort.SliceStable with less(i, j) = Timestamp i < Timestamp j, as a
    stable insertion sort: an element moves behind those after it only
    when they are strictly less. *)
Fixpoint insertByTimestamp (x : BillingStatusChange)
  (l : list BillingStatusChange) : list BillingStatusChange :=
  match l with
  | [] => [x]
  | y :: l' =>
      if Z.ltb (Timestamp y) (Timestamp x)
      then y :: insertByTimestamp x l'
      else x :: y :: l'
  end.

Definition sortByTimestamp (l : list BillingStatusChange)
  : list BillingStatusChange :=
  foldr insertByTimestamp [] l.

(** What the command calls outside its file: the JSON decoder, token and
    signature helpers, the ticketvote summary, the backend's Records call,
    the vote metadata helpers, the blob API of the tstore, the plugin
    identity, the clock, and the plugin's settings. *)
Class PiEnv := {
  VoteMetadata : Type;
  BlobEntry : Type;
  VoteStatusApproved : Z;
  FileNameVoteMetadata : string;
  json_Unmarshal : string → result SetBillingStatus;
  tokenDecode : string → option bytes;
  TokenRegexp : string;
  util_VerifySignature :
    string → string → string → option (SignatureErrorCode * string);
  voteSummary : bytes → result Z;          (* SummaryReply.Status *)
  (** p.backend.Records for one request: the files of the record, when
      the reply holds it *)
  backend_Records :
    bytes → list string → result (option (list Backend.File));
  voteMetadataDecode : list Backend.File → result VoteMetadata;
  isRFP : VoteMetadata → bool;
  tstore_BlobsByDataDesc : bytes → list string → result (list BlobEntry);
  billingStatusDecode : BlobEntry → result BillingStatusChange;
  billingStatusEncode : BillingStatusChange → result BlobEntry;
  tstore_BlobSave : bytes → BlobEntry → option perror;
  SignMessage : string → string;          (* hex of the signature *)
  time_Now_Unix : Z;
  billingStatusChangesMax : Z;            (* uint32 *)
  FormatStatus : Z → string               (* pi.BillingStatuses[s] *)
}.

(** A blob handed to the tstore to be saved. *)
Inductive PiEvent :=
| EvBlobSave (token : bytes) (bsc : BillingStatusChange).

(** A plugin command: returns a value or an error, and adds to the log of
    blob saves. *)
Definition P (A : Type) : Type := list PiEvent → result A * list PiEvent.

#[global] Instance P_ret : MRet P := λ A a l, (Ok a, l).
#[global] Instance P_bind : MBind P := λ A B f m l,
  match m l with
  | (Ok a, l') => f a l'
  | (Err e, l') => (Err e, l')
  end.

Definition pfail {A} (e : perror) : P A := λ l, (Err e, l).

(** v, err := f(); if err != nil { return "", err } *)
Definition try {A} (r : result A) : P A :=
  match r with
  | Ok a => mret a
  | Err e => pfail e
  end.

Definition pcheck (err : option perror) : P unit :=
  match err with
  | Some e => pfail e
  | None => mret tt
  end.

Section Cmd.
Context `{PiEnv}.

Definition notAllowed {A} (context : string) : P A :=
  pfail (PluginError PluginID ErrorCodeBillingStatusChangeNotAllowed
          context).

(** tokenMatches *)
Definition tokenMatches (cmdToken : bytes) (payloadToken : string)
  : option perror :=
  match tokenDecode payloadToken with
  | None => Some (PluginError PluginID ErrorCodeTokenInvalid TokenRegexp)
  | Some pt =>
      if decide (cmdToken ≠ pt) then
        Some (PluginError PluginID ErrorCodeTokenInvalid
                "payload token does not match command token")
      else None
  end.

(** convertSignatureError *)
Definition convertSignatureError (e : SignatureErrorCode * string)
  : perror :=
  let s := match e.1 with
           | ErrorStatusPublicKeyInvalid => ErrorCodePublicKeyInvalid
           | ErrorStatusSignatureInvalid => ErrorCodeSignatureInvalid
           | ErrorStatusOther => ErrorCodeInvalid
           end in
  PluginError PluginID s e.2.

(** proposalBillingStatus *)
Definition proposalBillingStatus (vs : Z)
  (bscs : list BillingStatusChange) : BillingStatusT :=
  if decide (vs ≠ VoteStatusApproved) then BillingStatusInvalid
  else
    match last bscs with
    | None => BillingStatusActive
    | Some b => Status b
    end.

(** p.record *)
Definition record (token : bytes) (filenames : list string)
  : result (list Backend.File) :=
  match backend_Records token filenames with
  | Err e => Err e
  | Ok None => Err ErrRecordNotFound
  | Ok (Some files) => Ok files
  end.

(** The decoding loop of the billingStatusChanges method. *)
Fixpoint decodeBlobs (blobs : list BlobEntry)
  : result (list BillingStatusChange) :=
  match blobs with
  | [] => Ok []
  | v :: rest =>
      match billingStatusDecode v with
      | Err e => Err e
      | Ok a =>
          match decodeBlobs rest with
          | Err e => Err e
          | Ok l => Ok (a :: l)
          end
      end
  end.

(** The method p.billingStatusChanges (the table of the same name is
    [billingStatusChanges]). *)
Definition p_billingStatusChanges (token : bytes)
  : result (list BillingStatusChange) :=
  match tstore_BlobsByDataDesc token [dataDescriptorBillingStatus] with
  | Err e => Err e
  | Ok blobs =>
      match decodeBlobs blobs with
      | Err e => Err e
      | Ok statusChanges => Ok (sortByTimestamp statusChanges)
      end
  end.

(** billingStatusSave *)
Definition billingStatusSave (token : bytes) (bsc : BillingStatusChange)
  : P unit :=
  be ← try (billingStatusEncode bsc);
  ((λ l, match tstore_BlobSave token be with
         | Some e => (Err e, (l ++ [EvBlobSave token bsc])%list)
         | None => (Ok tt, (l ++ [EvBlobSave token bsc])%list)
         end) : P unit).

(** cmdSetBillingStatus *)
Definition cmdSetBillingStatus (token : bytes) (payload : string)
  : P SetBillingStatusReply :=
  sbs ← try (json_Unmarshal payload);
  _ ← pcheck (tokenMatches token (sbsToken sbs));
  if negb (bool_decide (sbsStatus sbs = BillingStatusActive ∨
                        sbsStatus sbs = BillingStatusClosed ∨
                        sbsStatus sbs = BillingStatusCompleted)) then
    pfail (PluginError PluginID ErrorCodeBillingStatusInvalid
            "invalid billing status")
  else
  let msg := sbsToken sbs +:+ FormatUint (sbsStatus sbs) +:+
             sbsReason sbs in
  match util_VerifySignature (sbsSignature sbs) (sbsPublicKey sbs) msg
  with
  | Some e => pfail (convertSignatureError e)
  | None =>
  if decide (sbsStatus sbs = BillingStatusClosed ∧ sbsReason sbs = "")
  then
    notAllowed
      "must provide a reason when setting billing status to closed"
  else
  vsr ← try (voteSummary token);
  if decide (vsr ≠ VoteStatusApproved) then
    notAllowed
"setting billing status is allowed only if proposal vote was approved"
  else
  files ← try (record token [FileNameVoteMetadata]);
  vm ← try (voteMetadataDecode files);
  if isRFP vm then
    notAllowed "rfp proposals do not have a billing status"
  else
  bscs ← try (p_billingStatusChanges token);
  if Z.gtb (u32 (Z.of_nat (length bscs) + 1)) billingStatusChangesMax
  then
    notAllowed ("number of billing status changes exceeds the " +:+
         "maximum allowed number of billing status changes")
  else
  let currStatus := proposalBillingStatus vsr bscs in
  if negb (billingStatusChangeAllowed currStatus (sbsStatus sbs)) then
    notAllowed ("invalid billing status transition, " +:+
         FormatStatus currStatus +:+ " to " +:+
         FormatStatus (sbsStatus sbs) +:+ " is not allowed")
  else
  let receipt := SignMessage (sbsSignature sbs) in
  let bsc := {| Token := sbsToken sbs;
                Status := sbsStatus sbs;
                Reason := sbsReason sbs;
                PublicKey := sbsPublicKey sbs;
                Signature := sbsSignature sbs;
                Timestamp := time_Now_Unix;
                Receipt := receipt |} in
  _ ← billingStatusSave token bsc;
  mret {| rTimestamp := Timestamp bsc; rReceipt := Receipt bsc |}
  end.

End Cmd.

End Pi.

(** ** Sequences of record operations *)
Module Ops.
Import Backend Tstorebe.

(** A call of one of the four mutating operations of the record API. *)
Inductive Op :=
| OpRecordNew (metadata : list MetadataStream) (files : list File)
| OpRecordEdit (token : bytes) (mdAppend mdOverwrite : list MetadataStream)
    (filesAdd : list File) (filesDel : list string)
| OpRecordEditMetadata (token : bytes)
    (mdAppend mdOverwrite : list MetadataStream)
| OpRecordSetStatus (token : bytes) (status : StatusT)
    (mdAppend mdOverwrite : list MetadataStream).

Section Run.
Context `{Library} {T : Type} `{TstoreAPI T}.

(** The operation's reply and the backend after it. *)
Definition runOp (o : Op) : M T Record_ :=
  match o with
  | OpRecordNew metadata files => RecordNew metadata files
  | OpRecordEdit token mdAppend mdOverwrite filesAdd filesDel =>
      RecordEdit token mdAppend mdOverwrite filesAdd filesDel
  | OpRecordEditMetadata token mdAppend mdOverwrite =>
      RecordEditMetadata token mdAppend mdOverwrite
  | OpRecordSetStatus token status mdAppend mdOverwrite =>
      RecordSetStatus token status mdAppend mdOverwrite
  end.

(** The backend after a sequence of operations, failed ones included. *)
Definition runOps (ops : list Op) (b : tstoreBackend T)
  : tstoreBackend T :=
  foldl (λ b o, (runOp o b).2) b ops.
End Run.

(** A list of numbers in which every later entry is greater. *)
Definition strictlyIncreasing (l : list Z) : Prop :=
  ∀ i j x y, l !! i = Some x → l !! j = Some y → (i < j)%nat → x < y.

(** How the iteration moves from one saved record metadata to the next:
    it returns to 1 when an unreviewed record is made public, and goes up
    by one (as a uint32) in every other case. *)
Definition iterStep (a c : RecordMetadata) : Prop :=
  if decide (Status a = StatusUnreviewed ∧ Status c = StatusPublic)
  then Iteration c = 1
  else Iteration c = u32 (Iteration a + 1).

(** A record's saved iterations: the first has iteration 1 and each next
    one follows by [iterStep]. *)
Definition iterChain (h : list RecordMetadata) : Prop :=
  (∀ rm, h !! 0%nat = Some rm → Iteration rm = 1) ∧
  (∀ i a c, h !! i = Some a → h !! S i = Some c → iterStep a c).

End Ops.

(** ** A store to run the engine on *)
Module MemStore.
Import Backend Tstorebe.

(** Modelled from the spec: the record functions of the tstore package
    (RecordNew, RecordExists, RecordSave, RecordLatest, RecordFreeze,
    RecordDel) and its hook dispatch are not among the sources.  Following
    sections 3, 4.1 and 6.4 of the specification: one append-only log per
    token, each saved iteration a leaf; a frozen log accepts no further
    leaves (ErrRecordLocked); RecordDel erases the file payloads and keeps
    the record metadata; reads of a token without a saved record fail with
    ErrRecordNotFound.  No plugin is registered, so hooks do nothing. *)
Record tree := mkTree {
  leaves : list Record_;
  frozen : bool
}.

Record store := mkStore {
  trees : gmap string tree;
  nextID : Z
}.

Definition emptyStore : store := mkStore ∅ 1.

Definition tokenOf (id : Z) : bytes := "tree" +:+ FormatUint id.

Definition mem_RecordNew (s : store) : result bytes * store :=
  let token := tokenOf (nextID s) in
  (Ok token, mkStore (<[token := mkTree [] false]> (trees s)) (nextID s + 1)).

Definition mem_RecordExists (token : bytes) (s : store) : bool :=
  bool_decide (is_Some (trees s !! token)).

Definition mem_RecordLatest (token : bytes) (s : store) : result Record_ :=
  match trees s !! token with
  | None => Err ErrRecordNotFound
  | Some tr =>
      match last (leaves tr) with
      | None => Err ErrRecordNotFound
      | Some r => Ok r
      end
  end.

Definition append (freeze : bool) (token : bytes) (rm : RecordMetadata)
  (metadata : list MetadataStream) (files : list File) (s : store)
  : option error * store :=
  match trees s !! token with
  | None => (Some ErrRecordNotFound, s)
  | Some tr =>
      if frozen tr then (Some ErrRecordLocked, s)
      else (None,
            mkStore (<[token := mkTree (leaves tr ++ [mkRecord rm metadata files])
                                  freeze]> (trees s))
              (nextID s))
  end.

Definition mem_RecordSave := append false.
Definition mem_RecordFreeze := append true.

Definition erasePayload (f : File) : File :=
  mkFile (Name f) (MIME f) (Digest f) "".

Definition eraseFiles (r : Record_) : Record_ :=
  mkRecord (RecordMetadata_ r) (Metadata r) (erasePayload <$> Files r).

Definition mem_RecordDel (token : bytes) (s : store) : option error * store :=
  match trees s !! token with
  | None => (Some ErrRecordNotFound, s)
  | Some tr =>
      (None,
       mkStore (<[token := mkTree (eraseFiles <$> leaves tr) (frozen tr)]>
                  (trees s))
         (nextID s))
  end.

#[global] Instance api : TstoreAPI store := {|
  tstore_RecordNew := mem_RecordNew;
  tstore_RecordExists := mem_RecordExists;
  tstore_RecordLatest := mem_RecordLatest;
  tstore_RecordSave := mem_RecordSave;
  tstore_RecordFreeze := mem_RecordFreeze;
  tstore_RecordDel := mem_RecordDel;
  tstore_PluginHookPre := λ _ _ s, (None, s);
  tstore_PluginHookPost := λ _ _ s, s
|}.

(** The record metadata of the iterations saved for a token, oldest
    first. *)
Definition history (token : bytes) (s : store) : list RecordMetadata :=
  match trees s !! token with
  | None => []
  | Some tr => RecordMetadata_ <$> leaves tr
  end.

(** Every token's saved iterations form a chain. *)
Definition storeOk (s : store) : Prop :=
  ∀ token, Ops.iterChain (history token s).

(** A fresh backend on an empty store. *)
Definition backend0 : tstoreBackend store := mkBackend false emptyStore 0 [].

End MemStore.

(** ** Collaborators to run the engine on *)
Module Sample.
Import Backend Tstorebe.

(** filepath.Base with the Unix separator (there is no volume name). *)
Fixpoint dropSlashes (l : list ascii) : list ascii :=
  match l with
  | "/"%char :: l' => dropSlashes l'
  | _ => l
  end.

Fixpoint upToSlash (l : list ascii) : list ascii :=
  match l with
  | [] => []
  | c :: l' => if decide (c = "/"%char) then [] else c :: upToSlash l'
  end.

Definition Base (path : string) : string :=
  if decide (path = "") then "."
  else
    let p := dropSlashes (reverse (list_ascii_of_string path)) in
    let last := reverse (upToSlash p) in
    if decide (last = []) then "/" else string_of_list_ascii last.

(** gozaru.Sanitize is a third-party function; this stand-in keeps its
    character filter only: control characters and the characters
    / \ : * ? < > | and the double quote are removed. *)
Definition filtered (c : ascii) : bool :=
  let n := nat_of_ascii c in
  (n <? 32)%nat || bool_decide (n ∈ [47; 92; 58; 42; 63; 34; 60; 62; 124]%nat).

Definition Sanitize (s : string) : string :=
  string_of_list_ascii
    (filter (λ c, filtered c = false) (list_ascii_of_string s)).

(** Stand-ins for the digest, base64, MIME and merkle helpers: digests and
    payloads are kept as they are written. *)
#[global] Instance lib : Library := {|
  filepath_Base := Base;
  gozaru_Sanitize := Sanitize;
  util_ConvertDigest := λ d, if decide (d = "") then None else Some d;
  base64_DecodeString := Some;
  util_Digest := λ payload, "sha256:" +:+ payload;
  mime_DetectMimeType := λ _, "text/plain; charset=utf-8";
  mime_MimeValid := λ m, bool_decide (m = "text/plain; charset=utf-8");
  util_MerkleRoot := λ digests, Ok (String.concat "," digests);
  hex_EncodeToString := id
|}.

Definition file (name payload : string) : File :=
  mkFile name "text/plain; charset=utf-8" ("sha256:" +:+ payload) payload.


(** Scenario 1 of the specification: create, edit, publish. *)
Definition createEditPublish : list Ops.Op :=
  [Ops.OpRecordNew [] [file "a.txt" "hello"];
   Ops.OpRecordEdit "tree1" [] [] [file "b.txt" "world"] [];
   Ops.OpRecordSetStatus "tree1" StatusPublic [] []].

(** An unreviewed record at iteration 1, and a backend holding it. *)
Definition backend1 : tstoreBackend MemStore.store :=
  Ops.runOps [Ops.OpRecordNew [] [file "a.txt" "hello"]] MemStore.backend0.

(** The record that backend holds. *)
Definition record1 : Record_ :=
  mkRecord
    (mkRecordMetadata "tree1" 1 1 StateUnvetted StatusUnreviewed 0
       "sha256:hello")
    [] [file "a.txt" "hello"].

(** A trillian instance with one tree of three record leaves and no
    anchor, and a dcrtime that confirms on the third poll. *)
Definition verifyReply (n : nat) (d : string) : Anchor.VerifyDigest_ :=
  Anchor.mkVerifyDigest d Anchor.ResultOK
    (Anchor.mkChainInformation
       (if (n <? 2)%nat then Anchor.zeroTransaction else "tx")
       "merkleroot" (Anchor.mkBranch [d])
       (if (n <? 2)%nat then 0 else 1700000000)).

#[global] Instance anchorEnv : Anchor.AnchorEnv := {|
  Anchor.tlog_TreesAll := Ok [Anchor.mkTree 1];
  Anchor.tlog_LeavesAll := λ _,
    Ok [Anchor.mkLogLeaf "h0" 0 "e0"; Anchor.mkLogLeaf "h1" 1 "e1";
        Anchor.mkLogLeaf "h2" 2 "e2"];
  Anchor.tlog_SignedLogRoot := λ _, Ok (Anchor.mkLogRoot 3 "roothash");
  Anchor.extraDataDecode := λ _, Ok (Anchor.mkExtraData "file" "key");
  Anchor.store_Get := λ _, Ok ∅;
  Anchor.anchorFromBlob := λ _, Err (ErrExternal "no blob");
  Anchor.anchorPersist := λ _, None;
  Anchor.dcrtime_timestampBatch := λ _ digests,
    Ok ((λ _, Anchor.ResultOK) <$> digests);
  Anchor.dcrtime_verifyBatch := λ n _ digests,
    Ok (verifyReply n <$> digests);
  Anchor.merkle_VerifyAuthPath := λ _, Ok "merkleroot";
  Anchor.hex_EncodeToString := id
|}.

Definition tstore0 : Anchor.Tstore := Anchor.mkTstore false 0 0 [].

(** The anchors and digests anchorTrees hands to anchorWait here. *)
Definition anchors0 : list Anchor.anchor :=
  [Anchor.mkAnchor 1 (Some (Anchor.mkLogRoot 3 "roothash")) None].
Definition digests0 : list string := ["roothash"].

(** A scheduler tick followed by the goroutine it starts. *)
Definition tickThenWait : Anchor.Tstore :=
  (Anchor.anchorWait anchors0 digests0 (Anchor.anchorTrees tstore0).2).2.

(** The same engine with a dcrtime whose verifyBatch call fails. *)
Definition anchorEnvDown : Anchor.AnchorEnv := {|
  Anchor.tlog_TreesAll := Anchor.tlog_TreesAll;
  Anchor.tlog_LeavesAll := Anchor.tlog_LeavesAll;
  Anchor.tlog_SignedLogRoot := Anchor.tlog_SignedLogRoot;
  Anchor.extraDataDecode := Anchor.extraDataDecode;
  Anchor.store_Get := Anchor.store_Get;
  Anchor.anchorFromBlob := Anchor.anchorFromBlob;
  Anchor.anchorPersist := Anchor.anchorPersist;
  Anchor.dcrtime_timestampBatch := Anchor.dcrtime_timestampBatch;
  Anchor.dcrtime_verifyBatch := λ _ _ _, Err (ErrExternal "dcrtime down");
  Anchor.merkle_VerifyAuthPath := Anchor.merkle_VerifyAuthPath;
  Anchor.hex_EncodeToString := Anchor.hex_EncodeToString
|}.

(** A pi plugin on an approved proposal that is not an RFP, with a
    maximum of three billing status changes; the record "abcd" has three
    already, any other record none.  Payloads are written status digit,
    colon, reason, and carry the token "abcd". *)
Definition change (status ts : Z) : Pi.BillingStatusChange :=
  Pi.mkBillingStatusChange "abcd" status "r" "pk" "sig" ts "rcpt".

Definition decodePayload (payload : string) : Pi.SetBillingStatus :=
  match payload with
  | String c (String ":" reason) =>
      Pi.mkSetBillingStatus "abcd" (Z.of_nat (nat_of_ascii c) - 48) reason
        "pk" "sig"
  | _ => Pi.mkSetBillingStatus "abcd" 0 "" "pk" "sig"
  end.

#[global] Instance piEnv : Pi.PiEnv := {|
  Pi.VoteMetadata := bool;
  Pi.BlobEntry := Pi.BillingStatusChange;
  Pi.VoteStatusApproved := 5;
  Pi.FileNameVoteMetadata := "votemetadata.json";
  Pi.json_Unmarshal := λ payload, Ok (decodePayload payload);
  Pi.tokenDecode := Some;
  Pi.TokenRegexp := "[0-9a-f]{64}";
  Pi.util_VerifySignature := λ _ _ _, None;
  Pi.voteSummary := λ _, Ok 5;
  Pi.backend_Records := λ _ _, Ok (Some []);
  Pi.voteMetadataDecode := λ _, Ok false;
  Pi.isRFP := id;
  Pi.tstore_BlobsByDataDesc := λ token _,
    if decide (token = "abcd")
    then Ok [change 2 10; change 3 30; change 1 20]
    else Ok [];
  Pi.billingStatusDecode := Ok;
  Pi.billingStatusEncode := Ok;
  Pi.tstore_BlobSave := λ _ _, None;
  Pi.SignMessage := λ sig, "receipt:" +:+ sig;
  Pi.time_Now_Unix := 1700000000;
  Pi.billingStatusChangesMax := 3;
  Pi.FormatStatus := FormatUint
|}.

End Sample.

(** ** Package tstore: the anchor of a leaf (anchor.go, anchorForLeaf) *)
Module AnchorLeaf.
Import Backend Anchor.

Section Lookup.
Context `{AnchorEnv}.

(** The first loop of anchorForLeaf: the first leaf with the merkle leaf
    hash, with the sanity check on its index; [i] is the index of the head
    of [leaves]. *)
Fixpoint anchorForLeaf_find (merkleLeafHash : bytes) (i : nat)
  (leaves : list LogLeaf) : result (option LogLeaf) :=
  match leaves with
  | [] => Ok None
  | v :: rest =>
      if decide (MerkleLeafHash v = merkleLeafHash) then
        if decide (LeafIndex v ≠ Z.of_nat i) then
          Err (ErrFmt "unexpected leaf index")
        else Ok (Some v)
      else anchorForLeaf_find merkleLeafHash (S i) rest
  end.

(** The second loop: the store keys of the first two anchor leaves, over
    the leaves from the leaf's index on. *)
Fixpoint anchorForLeaf_keys (leaves : list LogLeaf) (keys : list string)
  : result (list string) :=
  match leaves with
  | [] => Ok keys
  | l :: rest =>
      match extraDataDecode (ExtraData l) with
      | Err e => Err e
      | Ok ed =>
          if decide (Desc ed = dataDescriptorAnchor) then
            let keys := keys ++ [storeKey ed] in
            if decide (length keys = 2%nat) then Ok keys
            else anchorForLeaf_keys rest keys
          else anchorForLeaf_keys rest keys
      end
  end.

(** The third loop: the first of the anchors that includes the leaf. *)
Fixpoint anchorForLeaf_pick (l : LogLeaf) (blobs : gmap string bytes)
  (keys : list string) : result (option anchor) :=
  match keys with
  | [] => Ok None
  | v :: rest =>
      match blobs !! v with
      | None => Err (ErrFmt ("blob not found " +:+ v))
      | Some b =>
          match anchorFromBlob b with
          | Err e => Err e
          | Ok a =>
              match LogRoot a with
              | None => Err errPanic
              | Some lr =>
                  if decide (u64 (LeafIndex l) < TreeSize lr) then Ok (Some a)
                  else anchorForLeaf_pick l blobs rest
              end
          end
      end
  end.

(** anchorForLeaf *)
Definition anchorForLeaf (treeID : Z) (merkleLeafHash : bytes)
  (leaves : list LogLeaf) : result anchor :=
  match anchorForLeaf_find merkleLeafHash 0 leaves with
  | Err e => Err e
  | Ok None => Err (ErrFmt "leaf not found")
  | Ok (Some l) =>
      match anchorForLeaf_keys (drop (Z.to_nat (LeafIndex l)) leaves) [] with
      | Err e => Err e
      | Ok keys =>
          if decide (length keys = 0%nat) then Err errAnchorNotFound else
          match store_Get keys with
          | Err e => Err (ErrWrap "store Get" e)
          | Ok blobs =>
              if decide (size blobs ≠ length keys) then
                Err (ErrFmt "unexpected blobs count")
              else
                match anchorForLeaf_pick l blobs keys with
                | Err e => Err e
                | Ok None => Err errAnchorNotFound
                | Ok (Some leafAnchor) => Ok leafAnchor
                end
          end
      end
  end.

End Lookup.

(** The leaf is an anchor leaf with this store key. *)
Definition anchorLeaf `{AnchorEnv} (l : LogLeaf) (key : string) : Prop :=
  ∃ ed, extraDataDecode (ExtraData l) = Ok ed ∧
        Desc ed = dataDescriptorAnchor ∧ storeKey ed = key.

(** The leaf decodes and is not an anchor leaf. *)
Definition recordLeaf `{AnchorEnv} (l : LogLeaf) : Prop :=
  ∃ ed, extraDataDecode (ExtraData l) = Ok ed ∧
        Desc ed ≠ dataDescriptorAnchor.

(** The store keys of the anchor leaves among [leaves], in order. *)
Definition anchorKeys `{AnchorEnv} (leaves : list LogLeaf) : list string :=
  omap (λ l, match extraDataDecode (ExtraData l) with
             | Ok ed => if decide (Desc ed = dataDescriptorAnchor)
                        then Some (storeKey ed) else None
             | Err _ => None
             end) leaves.

(** The tree has leaves that its latest anchor does not cover, as the
    loop of anchorTrees decides it. *)
Definition unanchoredLeaves `{AnchorEnv} (v : Tree) : bool :=
  match anchorLatest (TreeId v) with
  | Ok a =>
      match tlog_SignedLogRoot v, LogRoot a with
      | Ok lr, Some alr => bool_decide (TreeSize alr ≠ u64 (TreeSize lr - 1))
      | _, _ => false
      end
  | Err e =>
      bool_decide (e = errAnchorNotFound) &&
      match tlog_LeavesAll (TreeId v) with
      | Ok (_ :: _) => true
      | _ => false
      end
  end.

(** A batch entry as anchorTrees builds it: the anchor of a tree and the
    digest submitted for it. *)
Definition batchEntry `{AnchorEnv} (a : anchor) (digest : string) : Prop :=
  ∃ lr, tlog_SignedLogRoot (mkTree (TreeID a)) = Ok lr ∧
        LogRoot a = Some lr ∧ VerifyDigest a = None ∧
        digest = hex_EncodeToString (RootHash lr).

(** What the save loop of anchorWait checks before it saves anchors[k]
    with the reply entry [vd]. *)
Definition verifiedAnchor `{AnchorEnv} (v : anchor) (vd : VerifyDigest_)
  : Prop :=
  ∃ lr mk,
    LogRoot v = Some lr ∧
    TreeID v ≠ 0 ∧
    VDigest vd = hex_EncodeToString (RootHash lr) ∧
    merkle_VerifyAuthPath (MerklePath (ChainInformation vd)) = Ok mk ∧
    hex_EncodeToString mk = MerkleRoot (ChainInformation vd) ∧
    ∃ h, h ∈ Hashes (MerklePath (ChainInformation vd)) ∧
         hex_EncodeToString h = VDigest vd.

(** The event of saving anchors[j] with the reply entry at position
    k0 + j. *)
Definition savedFrom `{AnchorEnv} (anchors : list anchor) (vbr : list VerifyDigest_)
  (k0 : nat) (ev : AnchorEvent) : Prop :=
  ∃ j v vd,
    anchors !! j = Some v ∧ vbr !! (k0 + j)%nat = Some vd ∧
    verifiedAnchor v vd ∧
    ev = EvAnchorSave (mkAnchor (TreeID v) (LogRoot v) (Some vd)).

(** The events of [n] polls that save nothing. *)
Definition polls (digests : list string) (n : nat) : list AnchorEvent :=
  concat (replicate n [EvTick; EvVerifyBatch anchorID digests]).

End AnchorLeaf.

(** ** The order of billing status changes *)
Module PiOrder.

(** The order sort.SliceStable puts the billing status changes in: [x]
    may stand before [y]. *)
Definition byTimestamp (x y : Pi.BillingStatusChange) : Prop :=
  Pi.Timestamp x ≤ Pi.Timestamp y.

End PiOrder.

(** ** What the metadata stream merge leaves under a map key *)
Module Merge.
Import Backend Tstorebe.

(** An append landing on what the map holds under its key. *)
Definition appendTo (o : option MetadataStream) (v : MetadataStream)
  : option MetadataStream :=
  match o with
  | None => Some v
  | Some m =>
      Some (mkMetadataStream (PluginID m) (StreamID m)
              (Payload m +:+ Payload v))
  end.

(** The last of the current streams and overwrites with map key [k], with
    the appends of that key landing on it in order. *)
Definition mergedStream (k : string)
  (curr mdAppend mdOverwrite : list MetadataStream)
  : option MetadataStream :=
  foldl appendTo
    (last (filter (λ v, mdKey v = k) (curr ++ mdOverwrite)))
    (filter (λ v, mdKey v = k) mdAppend).

End Merge.

(** ** Package tstorebe: the batched read (Records) *)
Module Batch.
Import Backend.
Abbreviation result := (GoResult error).

(** backend.RecordRequest *)
Record RecordRequest := mkRecordRequest {
  rrToken : bytes;
  rrVersion : Z;
  rrFilenames : list string;
  rrOmitAllFiles : bool
}.

Section Records.
Context {T : Type}.
(** t.tstore.RecordPartial and util.TokenEncode *)
Variable tstore_RecordPartial :
  bytes → Z → list string → bool → T → result Record_.
Variable util_TokenEncode : bytes → string.

(** Records: the reply map; an error of RecordPartial is logged and the
    request skipped, so the method itself never fails. *)
Definition Records (reqs : list RecordRequest) (t : T)
  : gmap string Record_ :=
  foldl (λ records v,
           match tstore_RecordPartial (rrToken v) (rrVersion v)
                   (rrFilenames v) (rrOmitAllFiles v) t with
           | Err _ => records
           | Ok r => <[util_TokenEncode (rrToken v) := r]> records
           end) ∅ reqs.

(** The record a request contributes under the reply key [k], if any. *)
Definition answer (t : T) (k : string) (v : RecordRequest)
  : option Record_ :=
  if decide (util_TokenEncode (rrToken v) = k) then
    match tstore_RecordPartial (rrToken v) (rrVersion v) (rrFilenames v)
            (rrOmitAllFiles v) t with
    | Ok r => Some r
    | Err _ => None
    end
  else None.

End Records.
End Batch.

(** ** The daemon's configuration helpers (config.go) *)
Module Config.

Section Addresses.
(** util.NormalizeAddress *)
Variable util_NormalizeAddress : string → string → string.

(** The loop of removeDuplicateAddresses. *)
Fixpoint removeDuplicateAddresses_loop (addrs result : list string)
  (seen : gset string) : list string :=
  match addrs with
  | [] => result
  | val :: rest =>
      if decide (val ∈ seen) then
        removeDuplicateAddresses_loop rest result seen
      else
        removeDuplicateAddresses_loop rest (result ++ [val])
          ({[val]} ∪ seen)
  end.

Definition removeDuplicateAddresses (addrs : list string) : list string :=
  removeDuplicateAddresses_loop addrs [] ∅.

(** normalizeAddresses writes the normalized addresses into the slice it
    was given: the result is the returned slice and the caller's slice
    after the call. *)
Definition normalizeAddresses (addrs : list string) (defaultPort : string)
  : list string * list string :=
  let addrs := (λ addr, util_NormalizeAddress addr defaultPort) <$> addrs in
  (removeDuplicateAddresses addrs, addrs).

End Addresses.

(** validLogLevel *)
Definition validLogLevel (logLevel : string) : bool :=
  bool_decide (logLevel ∈ ["trace"; "debug"; "info"; "warn"; "error";
                           "critical"]).

(** strings.Contains(s, sep) and strings.Split(s, sep) for a separator of
    one character. *)
Definition contains (sep : ascii) (s : string) : bool :=
  bool_decide (sep ∈ list_ascii_of_string s).

Fixpoint splitOn (sep : ascii) (s : string) : list string :=
  match s with
  | EmptyString => [EmptyString]
  | String c s' =>
      if decide (c = sep) then EmptyString :: splitOn sep s'
      else
        match splitOn sep s' with
        | [] => [String c EmptyString]
        | w :: ws => String c w :: ws
        end
  end.

(** The errors of parseAndSetDebugLevels, by what their text reports. *)
Inductive debugLevelError :=
| ErrInvalidLevel (logLevel : string)
| ErrInvalidPair (logLevelPair : string)
| ErrInvalidSubsystem (subsysID : string)
| ErrIndexOutOfRange.

(** The calls that change log levels. *)
Inductive LogCall :=
| CallSetLogLevels (logLevel : string)
| CallSetLogLevel (subsysID logLevel : string).

Section DebugLevels.
(** The keys of the subsystemLoggers map. *)
Variable subsystemLoggers : gset string.

(** The loop of parseAndSetDebugLevels over the subsystem/level pairs. *)
Fixpoint parseAndSetDebugLevels_loop (pairs : list string)
  (calls : list LogCall) : option debugLevelError * list LogCall :=
  match pairs with
  | [] => (None, calls)
  | logLevelPair :: rest =>
      if negb (contains "=" logLevelPair) then
        (Some (ErrInvalidPair logLevelPair), calls)
      else
        match splitOn "=" logLevelPair with
        | subsysID :: logLevel :: _ =>
            if decide (subsysID ∉ subsystemLoggers) then
              (Some (ErrInvalidSubsystem subsysID), calls)
            else if negb (validLogLevel logLevel) then
              (Some (ErrInvalidLevel logLevel), calls)
            else
              parseAndSetDebugLevels_loop rest
                (calls ++ [CallSetLogLevel subsysID logLevel])
        | _ => (Some ErrIndexOutOfRange, calls)
        end
  end.

(** parseAndSetDebugLevels: the error returned and the calls made. *)
Definition parseAndSetDebugLevels (debugLevel : string)
  : option debugLevelError * list LogCall :=
  if negb (contains "," debugLevel) && negb (contains "=" debugLevel) then
    if negb (validLogLevel debugLevel) then
      (Some (ErrInvalidLevel debugLevel), [])
    else (None, [CallSetLogLevels debugLevel])
  else parseAndSetDebugLevels_loop (splitOn "," debugLevel) [].

(** A subsystem/level pair the loop accepts, and the call it makes for
    it. *)
Definition pairCall (logLevelPair : string) : option LogCall :=
  match splitOn "=" logLevelPair with
  | subsysID :: logLevel :: _ =>
      if contains "=" logLevelPair &&
         bool_decide (subsysID ∈ subsystemLoggers) &&
         validLogLevel logLevel
      then Some (CallSetLogLevel subsysID logLevel)
      else None
  | _ => None
  end.

End DebugLevels.

(** A list with every entry's later repetitions taken out. *)
Fixpoint firstOccurrences (l : list string) : list string :=
  match l with
  | [] => []
  | x :: l' => x :: filter (λ y, y ≠ x) (firstOccurrences l')
  end.

End Config.

(** ** More collaborators to run the engine on *)
Module SampleMore.
Import Backend Tstorebe.


(** The backend of [Sample.backend1] after Close. *)
Definition backend1Closed : tstoreBackend MemStore.store :=
  mkBackend true (tstore Sample.backend1) (clock Sample.backend1)
    (trace Sample.backend1).

(** A trillian tree of four leaves, the second and the fourth of them
    anchor leaves: the first anchor covers one leaf, the second three.  The
    latest anchor covers all but the anchor leaf itself. *)
Definition leaves2 : list Anchor.LogLeaf :=
  [Anchor.mkLogLeaf "h0" 0 "e0"; Anchor.mkLogLeaf "h1" 1 "anchor1";
   Anchor.mkLogLeaf "h2" 2 "e2"; Anchor.mkLogLeaf "h3" 3 "anchor2"].

Definition anchor1 : Anchor.anchor :=
  Anchor.mkAnchor 1 (Some (Anchor.mkLogRoot 1 "root1"))
    (Some (Sample.verifyReply 2 "root1")).

Definition anchor2 : Anchor.anchor :=
  Anchor.mkAnchor 1 (Some (Anchor.mkLogRoot 3 "root3"))
    (Some (Sample.verifyReply 2 "root3")).

Definition anchorEnv2 : Anchor.AnchorEnv := {|
  Anchor.tlog_TreesAll := Ok [Anchor.mkTree 1];
  Anchor.tlog_LeavesAll := λ _, Ok leaves2;
  Anchor.tlog_SignedLogRoot := λ _, Ok (Anchor.mkLogRoot 4 "root4");
  Anchor.extraDataDecode := λ e,
    if decide (e = "anchor1") then Ok (Anchor.mkExtraData "anchor" "k1")
    else if decide (e = "anchor2") then
      Ok (Anchor.mkExtraData "anchor" "k2")
    else Ok (Anchor.mkExtraData "file" "key");
  Anchor.store_Get := λ keys,
    Ok (list_to_map
          (omap (λ k, if decide (k = "k1") then Some (k, "blob1")
                      else if decide (k = "k2") then Some (k, "blob2")
                      else None) keys));
  Anchor.anchorFromBlob := λ b,
    if decide (b = "blob1") then Ok anchor1 else Ok anchor2;
  Anchor.anchorPersist := λ _, None;
  Anchor.dcrtime_timestampBatch := λ _ digests,
    Ok ((λ _, Anchor.ResultOK) <$> digests);
  Anchor.dcrtime_verifyBatch := λ n _ digests,
    Ok (Sample.verifyReply n <$> digests);
  Anchor.merkle_VerifyAuthPath := λ _, Ok "merkleroot";
  Anchor.hex_EncodeToString := id
|}.

(** The engine of [Sample.anchorEnv] with a dcrtime whose transaction is
    never confirmed. *)
Definition anchorEnvNever : Anchor.AnchorEnv := {|
  Anchor.tlog_TreesAll := Anchor.tlog_TreesAll;
  Anchor.tlog_LeavesAll := Anchor.tlog_LeavesAll;
  Anchor.tlog_SignedLogRoot := Anchor.tlog_SignedLogRoot;
  Anchor.extraDataDecode := Anchor.extraDataDecode;
  Anchor.store_Get := Anchor.store_Get;
  Anchor.anchorFromBlob := Anchor.anchorFromBlob;
  Anchor.anchorPersist := Anchor.anchorPersist;
  Anchor.dcrtime_timestampBatch := Anchor.dcrtime_timestampBatch;
  Anchor.dcrtime_verifyBatch := λ _ _ digests,
    Ok (Sample.verifyReply 0 <$> digests);
  Anchor.merkle_VerifyAuthPath := Anchor.merkle_VerifyAuthPath;
  Anchor.hex_EncodeToString := Anchor.hex_EncodeToString
|}.

(** The pi plugin of [Sample.piEnv] with room for ten billing status
    changes. *)
Definition piEnv10 : Pi.PiEnv := {|
  Pi.VoteMetadata := bool;
  Pi.BlobEntry := Pi.BillingStatusChange;
  Pi.VoteStatusApproved := 5;
  Pi.FileNameVoteMetadata := "votemetadata.json";
  Pi.json_Unmarshal := λ payload, Ok (Sample.decodePayload payload);
  Pi.tokenDecode := Some;
  Pi.TokenRegexp := "[0-9a-f]{64}";
  Pi.util_VerifySignature := λ _ _ _, None;
  Pi.voteSummary := λ _, Ok 5;
  Pi.backend_Records := λ _ _, Ok (Some []);
  Pi.voteMetadataDecode := λ _, Ok false;
  Pi.isRFP := id;
  Pi.tstore_BlobsByDataDesc := λ token _,
    if decide (token = "abcd")
    then Ok [Sample.change 2 10; Sample.change 3 30; Sample.change 1 20]
    else Ok [];
  Pi.billingStatusDecode := Ok;
  Pi.billingStatusEncode := Ok;
  Pi.tstore_BlobSave := λ _ _, None;
  Pi.SignMessage := λ sig, "receipt:" +:+ sig;
  Pi.time_Now_Unix := 1700000000;
  Pi.billingStatusChangesMax := 10;
  Pi.FormatStatus := FormatUint
|}.

End SampleMore.

(** * Properties *)

(** ** Symbolic execution of the backend's methods *)

(** Unfolds the plumbing of the backend monad. *)
Ltac munfold :=
  unfold Tstorebe.statusSwitch, Tstorebe.setStatusPublic,
    Tstorebe.setStatusArchived, Tstorebe.setStatusCensored,
    Tstorebe.recordMetadataNew, Tstorebe.PluginHookPre,
    Tstorebe.PluginHookPost, Tstorebe.RecordSave, Tstorebe.RecordFreeze,
    Tstorebe.RecordDel, Tstorebe.RecordExists, Tstorebe.RecordLatest,
    Tstorebe.isShutdown, Tstorebe.time_Now_Unix, Tstorebe.check,
    Tstorebe.emit, Tstorebe.call, Tstorebe.fail, mbind, Tstorebe.M_bind,
    mret, Tstorebe.M_ret in *.

(** Runs a method, splitting on every test it makes. *)
Ltac mrun := repeat (simpl in *; case_match; simplify_eq).

Lemma u32_succ (n : Z) : 0 ≤ n < 2 ^ 32 - 1 → u32 (n + 1) = n + 1.
Proof. intros Hn. unfold u32. apply Z.mod_small. lia. Qed.

(** ** The status table and RecordSetStatus *)
Section StatusFacts.
Import Backend Tstorebe.
Context `{Library} {T : Type} `{TstoreAPI T}.

(** The table, read off as the set of pairs it allows. *)
Lemma statusChangeIsAllowed_spec (from to : StatusT) :
  statusChangeIsAllowed from to = true ↔ permittedTransition from to.
Proof.
  unfold statusChangeIsAllowed, statusChanges, permittedTransition.
  unfold StatusUnreviewed, StatusPublic, StatusCensored, StatusArchived.
  split.
  - repeat (rewrite lookup_insert;
            destruct (decide (_ = from)) as [<-|_];
            [rewrite bool_decide_eq_true;
             rewrite ?elem_of_union, ?elem_of_singleton, ?elem_of_empty;
             intuition auto|]).
    rewrite lookup_singleton.
    destruct (decide (_ = from)) as [<-|_]; [|discriminate].
    rewrite bool_decide_eq_true, elem_of_empty. intros [].
  - intros [[-> ->]|[[-> ->]|[[-> ->]|[-> ->]]]]; reflexivity.
Qed.

Lemma statusChangeIsAllowed_to (from to : StatusT) :
  statusChangeIsAllowed from to = true →
  to = StatusPublic ∨ to = StatusCensored ∨ to = StatusArchived.
Proof.
  intros [[_ ->]|[[_ ->]|[[_ ->]|[_ ->]]]]%statusChangeIsAllowed_spec;
    auto.
Qed.

(** C10: whenever statusChangeIsAllowed(from, to) holds, to is public,
    censored or archived; hence the status switch of RecordSetStatus,
    reached only after that check, takes one of its three named cases and
    never its default "unknown status" branch. *)
Theorem statusSwitch_default_unreachable (from to : StatusT) :
  statusChangeIsAllowed from to = true →
  (to = StatusPublic ∨ to = StatusCensored ∨ to = StatusArchived) ∧
  ∀ token rm metadata files,
    statusSwitch (T:=T) token to rm metadata files =
      if decide (to = StatusPublic) then
        setStatusPublic token rm metadata files
      else if decide (to = StatusArchived) then
        setStatusArchived token rm metadata files
      else setStatusCensored token rm metadata files.
Proof.
  intros Hto%statusChangeIsAllowed_to. split; [exact Hto|].
  intros token rm metadata files. unfold statusSwitch.
  destruct Hto as [->|[->| ->]]; reflexivity.
Qed.

(** C2: RecordSetStatus permits exactly unreviewed->public,
    unreviewed->censored, public->censored and public->archived.  On a
    record that exists, with the backend running and the latest record
    loaded, every other pair (from, to) is answered with
    StatusTransitionError{from, to} and the backend is left as it was (no
    hook, no save); a permitted pair passes the check: the next thing the
    operation does is call the pre hook. *)
Theorem RecordSetStatus_transitions (b : tstoreBackend T) (token : bytes)
  (status : StatusT) (mdAppend mdOverwrite : list MetadataStream)
  (r : Record_) :
  tstore_RecordExists token (tstore b) = true →
  shutdown b = false →
  tstore_RecordLatest token (tstore b) = Ok r →
  (statusChangeIsAllowed (Status (RecordMetadata_ r)) status = true ↔
   permittedTransition (Status (RecordMetadata_ r)) status) ∧
  (¬ permittedTransition (Status (RecordMetadata_ r)) status →
   RecordSetStatus token status mdAppend mdOverwrite b =
     (Err (StatusTransitionError (Status (RecordMetadata_ r)) status), b)) ∧
  (permittedTransition (Status (RecordMetadata_ r)) status →
   ∀ m, util_MerkleRoot (map Digest (Files r)) = Ok m →
   ∃ p rest,
     trace (RecordSetStatus token status mdAppend mdOverwrite b).2 =
       trace b ++ EvPluginHookPre HookTypeSetRecordStatusPre p :: rest).
Proof.
  intros Hex Hsd Hlatest.
  pose proof (statusChangeIsAllowed_spec (Status (RecordMetadata_ r)) status)
    as Hspec.
  split; [exact Hspec|]. split.
  - intros Hnot.
    assert (Hf : statusChangeIsAllowed (Status (RecordMetadata_ r)) status
                 = false).
    { apply not_true_is_false. intros Hal. by apply Hnot, Hspec. }
    unfold RecordSetStatus. munfold.
    simpl. rewrite Hex. simpl. rewrite Hsd. simpl. rewrite Hlatest. simpl.
    rewrite Hf. reflexivity.
  - intros Hperm m Hm. apply Hspec in Hperm.
    unfold RecordSetStatus. munfold.
    simpl. rewrite Hex. simpl. rewrite Hsd. simpl. rewrite Hlatest. simpl.
    rewrite Hperm. simpl.
    destruct (decide (status = StatusPublic)); simpl; rewrite Hm; simpl.
    all: mrun; simpl; repeat rewrite <- app_assoc; simpl; eauto.
Qed.

Lemma saved_app (l1 l2 : list Event) :
  saved (l1 ++ l2) = saved l1 ++ saved l2.
Proof. apply omap_app. Qed.

(** C3: a successful RecordSetStatus hands exactly one record metadata to
    the store.  For public it has state vetted, version 1 and iteration 1;
    for censored and archived it keeps state and version and its iteration
    is the previous iteration plus one (uint32 addition, which is the
    integer successor below the maximum). *)
Theorem RecordSetStatus_saved_metadata (b b' : tstoreBackend T)
  (token : bytes) (status : StatusT)
  (mdAppend mdOverwrite : list MetadataStream) (r' : Record_) :
  RecordSetStatus token status mdAppend mdOverwrite b = (Ok r', b') →
  ∃ r rm',
    tstore_RecordLatest token (tstore b) = Ok r ∧
    saved (trace b') = saved (trace b) ++ [rm'] ∧
    Status rm' = status ∧
    (status = StatusPublic →
     State rm' = StateVetted ∧ Version rm' = 1 ∧ Iteration rm' = 1) ∧
    (status ≠ StatusPublic →
     (status = StatusCensored ∨ status = StatusArchived) ∧
     State rm' = State (RecordMetadata_ r) ∧
     Version rm' = Version (RecordMetadata_ r) ∧
     Iteration rm' = u32 (Iteration (RecordMetadata_ r) + 1) ∧
     (0 ≤ Iteration (RecordMetadata_ r) < 2 ^ 32 - 1 →
      Iteration rm' = Iteration (RecordMetadata_ r) + 1)).
Proof.
  unfold RecordSetStatus. munfold. intros Hrun.
  destruct (tstore_RecordExists token (tstore b)); simpl in Hrun; [|done].
  destruct (shutdown b); simpl in Hrun; [done|].
  destruct (tstore_RecordLatest token (tstore b)) as [r|]; simpl in Hrun;
    [|done].
  destruct (statusChangeIsAllowed (Status (RecordMetadata_ r)) status)
    eqn:Hal; simpl in Hrun; [|done].
  apply statusChangeIsAllowed_to in Hal as Hto.
  exists r.
  destruct (decide (status = StatusPublic)) as [->|Hne]; simpl in Hrun.
  - mrun. eexists. repeat rewrite saved_app. simpl.
    rewrite !app_nil_r. split; [done|]. split; [reflexivity|]. done.
  - destruct Hto as [->|[->| ->]]; [done| |].
    + mrun. eexists. repeat rewrite saved_app. simpl.
      rewrite !app_nil_r. split; [done|]. split; [reflexivity|].
      simpl. split; [reflexivity|]. split; [done|].
      intros _. repeat split; auto using u32_succ.
    + mrun. eexists. repeat rewrite saved_app. simpl.
      rewrite !app_nil_r. split; [done|]. split; [reflexivity|].
      simpl. split; [reflexivity|]. split; [done|].
      intros _. repeat split; auto using u32_succ.
Qed.

(** C4: when the merkle root of the edited file set equals the merkle
    root of the latest record, RecordEdit fails and leaves the backend as
    it was: no hook is called and nothing is saved.  The error is
    ErrNoRecordChanges whenever the checks made before the record is
    loaded (content validation, existence, shutdown) pass. *)
Theorem RecordEdit_no_changes (b : tstoreBackend T) (token : bytes)
  (mdAppend mdOverwrite : list MetadataStream) (filesAdd : list File)
  (filesDel : list string) (r : Record_) (m : bytes) :
  tstore_RecordLatest token (tstore b) = Ok r →
  util_MerkleRoot (map Digest (filesUpdate (Files r) filesAdd filesDel)) =
    Ok m →
  hex_EncodeToString m = Merkle (RecordMetadata_ r) →
  ∃ e,
    RecordEdit token mdAppend mdOverwrite filesAdd filesDel b = (Err e, b) ∧
    (metadataStreamsVerify (mdAppend ++ mdOverwrite) = None →
     filesVerify filesAdd filesDel = None →
     tstore_RecordExists token (tstore b) = true →
     shutdown b = false →
     e = ErrNoRecordChanges).
Proof.
  intros Hlatest Hm Hhex. unfold RecordEdit. munfold.
  destruct (metadataStreamsVerify (mdAppend ++ mdOverwrite)); simpl;
    [eexists; split; [reflexivity|done]|].
  destruct (filesVerify filesAdd filesDel); simpl;
    [eexists; split; [reflexivity|done]|].
  destruct (tstore_RecordExists token (tstore b)); simpl;
    [|eexists; split; [reflexivity|done]].
  destruct (shutdown b); simpl;
    [eexists; split; [reflexivity|done]|].
  rewrite Hlatest. simpl. rewrite Hm. simpl.
  rewrite decide_True by (symmetry; exact Hhex).
  eexists; split; [reflexivity|done].
Qed.

End StatusFacts.

Lemma statusSwitch_default_unreachable_witness :
  Tstorebe.statusChangeIsAllowed Backend.StatusUnreviewed
    Backend.StatusPublic = true ∧
  ∀ token rm metadata files,
    Tstorebe.statusSwitch (T:=MemStore.store) token Backend.StatusPublic rm
      metadata files =
    Tstorebe.setStatusPublic token rm metadata files.
Proof.
  split; [reflexivity|].
  apply (statusSwitch_default_unreachable (T:=MemStore.store)
           Backend.StatusUnreviewed Backend.StatusPublic).
  reflexivity.
Defined.

Lemma RecordSetStatus_transitions_witness :
  Tstorebe.tstore_RecordLatest "tree1" (Tstorebe.tstore Sample.backend1) =
    Ok Sample.record1 ∧
  Tstorebe.RecordSetStatus "tree1" Backend.StatusArchived [] []
    Sample.backend1 =
    (Err (Backend.StatusTransitionError Backend.StatusUnreviewed
            Backend.StatusArchived), Sample.backend1).
Proof.
  assert (Hlatest :
    Tstorebe.tstore_RecordLatest "tree1" (Tstorebe.tstore Sample.backend1) =
      Ok Sample.record1) by (vm_compute; reflexivity).
  split; [exact Hlatest|].
  refine (proj1 (proj2 (RecordSetStatus_transitions Sample.backend1 "tree1"
                          Backend.StatusArchived [] [] Sample.record1
                          _ _ Hlatest)) _).
  - vm_compute; reflexivity.
  - vm_compute; reflexivity.
  - intros [[_ Hs]|[[_ Hs]|[[Hf _]|[Hf _]]]]; discriminate.
Defined.

Lemma RecordSetStatus_saved_metadata_witness :
  ∃ r' rm',
    (Tstorebe.RecordSetStatus "tree1" Backend.StatusPublic [] []
       Sample.backend1).1 = Ok r' ∧
    Backend.State rm' = Backend.StateVetted ∧
    Backend.Version rm' = 1 ∧ Backend.Iteration rm' = 1.
Proof.
  destruct (Tstorebe.RecordSetStatus "tree1" Backend.StatusPublic [] []
              Sample.backend1) as [res b'] eqn:Hrun.
  assert (Hres : ∃ r', res = Ok r').
  { vm_compute in Hrun. injection Hrun as <- _. eauto. }
  destruct Hres as [r' ->].
  destruct (RecordSetStatus_saved_metadata _ _ _ _ _ _ _ Hrun)
    as (r & rm' & _ & _ & _ & Hpub & _).
  exists r', rm'. split; [reflexivity|]. apply Hpub. reflexivity.
Defined.

Lemma RecordEdit_no_changes_witness :
  ∃ e,
    Tstorebe.RecordEdit "tree1" [] [] [Sample.file "a.txt" "hello"] []
      Sample.backend1 = (Err e, Sample.backend1) ∧
    e = Backend.ErrNoRecordChanges.
Proof.
  destruct (RecordEdit_no_changes Sample.backend1 "tree1" [] []
              [Sample.file "a.txt" "hello"] [] Sample.record1 "sha256:hello")
    as (e & Hrun & He).
  - vm_compute; reflexivity.
  - vm_compute; reflexivity.
  - reflexivity.
  - exists e. split; [exact Hrun|].
    apply He; vm_compute; reflexivity.
Defined.

(** ** Content validation: filesVerify *)
Section FilesVerifyFacts.
Import Backend Tstorebe.
Context `{Library}.

Lemma forEach_None {A} (body : A → option error) (l : list A) :
  forEach body l = None → ∀ x, x ∈ l → body x = None.
Proof.
  induction l as [|a l IH]; simpl; intros Hrun x Hx.
  - by apply elem_of_nil in Hx.
  - destruct (body a) eqn:Ha; [done|].
    apply elem_of_cons in Hx as [->|Hx]; auto.
Qed.

Lemma forEach_Some {A} (body : A → option error) (l : list A) e :
  forEach body l = Some e → ∃ x, x ∈ l ∧ body x = Some e.
Proof.
  induction l as [|a l IH]; simpl; [done|].
  destruct (body a) eqn:Ha.
  - intros [= ->]. exists a. split; [left|done].
  - intros [x [Hx Hb]]%IH. exists x. split; [by right|done].
Qed.

Lemma forEachAcc_fmap {A B S} (g : S → B → error + S) (h : A → B) s l :
  forEachAcc (λ s x, g s (h x)) s l = forEachAcc g s (h <$> l).
Proof.
  revert s. induction l as [|a l IH]; simpl; intros s; [done|].
  destruct (g s (h a)); auto.
Qed.

Lemma dupCheck_loop_inr (names : list string) (fn fn' : gset string) :
  forEachAcc dupCheck fn names = inr fn' →
  NoDup names ∧ (∀ n, n ∈ names → n ∉ fn) ∧
  (∀ n, n ∈ fn' ↔ n ∈ names ∨ n ∈ fn).
Proof.
  revert fn. induction names as [|a names IH]; simpl; intros fn Hrun.
  - injection Hrun as <-. split; [constructor|]. split.
    + intros n Hn. by apply elem_of_nil in Hn.
    + intros n. rewrite elem_of_nil. tauto.
  - unfold dupCheck in Hrun at 1.
    destruct (decide (a ∈ fn)) as [|Ha]; [done|].
    apply IH in Hrun as (Hnd & Hfresh & Hfn').
    split; [|split].
    + constructor; [|done]. intros Hin. apply (Hfresh a Hin).
      apply elem_of_union. left. by apply elem_of_singleton.
    + intros n [->|Hn]%elem_of_cons; [done|].
      intros Hin. apply (Hfresh n Hn). apply elem_of_union. by right.
    + intros n. rewrite Hfn', elem_of_cons, elem_of_union,
        elem_of_singleton. tauto.
Qed.

Lemma dupCheck_loop_inl (names : list string) (fn : gset string) e :
  forEachAcc dupCheck fn names = inl e →
  ∃ n, e = ContentError ContentErrorFileNameDuplicate n.
Proof.
  revert fn. induction names as [|a names IH]; simpl; intros fn; [done|].
  unfold dupCheck at 1. destruct (decide (a ∈ fn)).
  - intros [= <-]. eauto.
  - apply IH.
Qed.

Lemma fileCheck_None (f : File) :
  fileCheck f = None →
  gozaru_Sanitize (Name f) = Name f ∧ fileDigestOk f ∧ fileMimeOk f ∧
  mime_MimeValid (MIME f) = true.
Proof.
  unfold fileCheck, fileDigestOk, fileMimeOk. intros Hrun.
  repeat case_match; simplify_eq.
  repeat match goal with
         | Hd : decide _ = _ |- _ => clear Hd
         end.
  repeat match goal with
         | Hn : ¬ (_ ≠ _) |- _ => apply dec_stable in Hn
         end.
  split; [done|]. split; [eauto|]. split; [eauto|].
  by destruct (mime_MimeValid (MIME f)).
Qed.

Lemma fileCheck_Some (f : File) e :
  fileCheck f = Some e → ∃ code context, e = ContentError code context.
Proof.
  unfold fileCheck. intros Hrun. repeat case_match; simplify_eq; eauto.
Qed.

(** filesVerify, one check after the other. *)
Lemma filesVerify_cases (files : list File) (filesDel : list string) :
  (filesVerify files filesDel =
     Some (ContentError ContentErrorFilesEmpty "") ∧
   files = [] ∧ filesDel = []) ∨
  (∃ e, filesVerify files filesDel = Some e ∧
        forEach (λ f, pathCheck (Name f)) files = Some e) ∨
  (∃ e, filesVerify files filesDel = Some e ∧
        forEach pathCheck filesDel = Some e) ∨
  (∃ e, filesVerify files filesDel = Some e ∧
        forEachAcc dupCheck ∅ (Name <$> files) = inl e) ∨
  (∃ e fn, filesVerify files filesDel = Some e ∧
           forEachAcc dupCheck ∅ (Name <$> files) = inr fn ∧
           forEachAcc dupCheck fn filesDel = inl e) ∨
  (filesVerify files filesDel = forEach fileCheck files ∧
   ¬ (files = [] ∧ filesDel = []) ∧
   forEach (λ f, pathCheck (Name f)) files = None ∧
   forEach pathCheck filesDel = None ∧
   ∃ fn fn', forEachAcc dupCheck ∅ (Name <$> files) = inr fn ∧
             forEachAcc dupCheck fn filesDel = inr fn').
Proof.
  unfold filesVerify.
  destruct (decide (length files = 0%nat ∧ length filesDel = 0%nat))
    as [[Hf Hd]|Hne].
  { left. apply nil_length_inv in Hf, Hd. done. }
  right.
  destruct (forEach (λ f, pathCheck (Name f)) files) as [e|] eqn:Hp1;
    [left; eauto|right].
  destruct (forEach pathCheck filesDel) as [e|] eqn:Hp2;
    [left; eauto|right].
  rewrite forEachAcc_fmap.
  destruct (forEachAcc dupCheck ∅ (Name <$> files)) as [e|fn] eqn:Hd1;
    [left; eauto|right].
  destruct (forEachAcc dupCheck fn filesDel) as [e|fn'] eqn:Hd2;
    [left; eauto|right].
  split; [done|]. split; [|eauto 6].
  intros [-> ->]. by apply Hne.
Qed.

Lemma pathCheck_Some (n : string) e :
  pathCheck n = Some e → ∃ code context, e = ContentError code context.
Proof. unfold pathCheck. case_decide; intros [= <-]; eauto. Qed.

Lemma pathCheck_None (n : string) :
  pathCheck n = None → filepath_Base n = n.
Proof.
  unfold pathCheck.
  destruct (decide (filepath_Base n ≠ n)) as [|Hn]; [done|].
  intros _. by apply dec_stable in Hn.
Qed.

(** Every error of filesVerify is a ContentError. *)
Lemma filesVerify_Some (files : list File) (filesDel : list string) e :
  filesVerify files filesDel = Some e →
  ∃ code context, e = ContentError code context.
Proof.
  intros Hrun.
  destruct (filesVerify_cases files filesDel)
    as [(Hv & _)|[(e' & Hv & Hc)|[(e' & Hv & Hc)|[(e' & Hv & Hc)|
        [(e' & fn & Hv & _ & Hc)|(Hv & _)]]]]];
    rewrite Hv in Hrun; simplify_eq; eauto.
  - apply forEach_Some in Hc as (x & _ & Hx). by apply pathCheck_Some in Hx.
  - apply forEach_Some in Hc as (x & _ & Hx). by apply pathCheck_Some in Hx.
  - apply dupCheck_loop_inl in Hc as [n ->]. eauto.
  - apply dupCheck_loop_inl in Hc as [n ->]. eauto.
  - apply forEach_Some in Hrun as (x & _ & Hx). by apply fileCheck_Some in Hx.
Qed.

(** What holds of every input filesVerify accepts. *)
Lemma filesVerify_None (files : list File) (filesDel : list string) :
  filesVerify files filesDel = None →
  ¬ (files = [] ∧ filesDel = []) ∧
  (∀ n, n ∈ (Name <$> files) ++ filesDel → filepath_Base n = n) ∧
  NoDup ((Name <$> files) ++ filesDel) ∧
  (∀ f, f ∈ files →
     gozaru_Sanitize (Name f) = Name f ∧ fileDigestOk f ∧ fileMimeOk f ∧
     mime_MimeValid (MIME f) = true).
Proof.
  intros Hrun.
  destruct (filesVerify_cases files filesDel)
    as [(Hv & _)|[(e' & Hv & _)|[(e' & Hv & _)|[(e' & Hv & _)|
        [(e' & fn & Hv & _)|(Hv & Hne & Hp1 & Hp2 & fn & fn' & Hd1 & Hd2)]]]]];
    rewrite Hv in Hrun; simplify_eq.
  split; [done|]. split; [|split].
  - intros x [Hx|Hx]%elem_of_app.
    + apply list_elem_of_fmap in Hx as (f & -> & Hf).
      apply pathCheck_None. by apply (forEach_None _ _ Hp1 f).
    + apply pathCheck_None. by apply (forEach_None _ _ Hp2 x).
  - apply dupCheck_loop_inr in Hd1 as (Hnd1 & _ & Hg).
    apply dupCheck_loop_inr in Hd2 as (Hnd2 & Hfresh & _).
    apply NoDup_app. split; [done|]. split; [|done].
    intros x Hx1 Hx2. apply (Hfresh x Hx2). apply Hg. by left.
  - intros f Hf. apply fileCheck_None. by apply (forEach_None _ _ Hrun).
Qed.

(** C7 (as amended): filesVerify rejects with a ContentError whenever
    both lists are empty; a file name or delete name is not its own base
    name; a file name differs from its sanitized form; a name appears twice
    across the add and delete lists; a file's declared digest is not the
    digest of its decoded payload; the MIME type detected from the payload
    differs from the declared one; or the declared MIME type is not
    allowed.  Delete names are not compared with their sanitized form. *)
Theorem filesVerify_rejects (files : list File) (filesDel : list string) :
  (files = [] ∧ filesDel = []) ∨
  (∃ n, n ∈ (Name <$> files) ++ filesDel ∧ filepath_Base n ≠ n) ∨
  (∃ f, f ∈ files ∧ gozaru_Sanitize (Name f) ≠ Name f) ∨
  ¬ NoDup ((Name <$> files) ++ filesDel) ∨
  (∃ f, f ∈ files ∧ ¬ fileDigestOk f) ∨
  (∃ f, f ∈ files ∧ ¬ fileMimeOk f) ∨
  (∃ f, f ∈ files ∧ mime_MimeValid (MIME f) = false) →
  ∃ code context,
    filesVerify files filesDel = Some (ContentError code context).
Proof.
  intros Hbad.
  destruct (filesVerify files filesDel) as [e|] eqn:Hrun.
  - apply filesVerify_Some in Hrun as (code & context & ->). eauto.
  - exfalso. apply filesVerify_None in Hrun as (Hne & Hbase & Hnd & Hfile).
    destruct Hbad as [Hb|[(n & Hn & Hb)|[(f & Hf & Hb)|[Hb|[(f & Hf & Hb)|
                      [(f & Hf & Hb)|(f & Hf & Hb)]]]]]]; try done.
    + by apply Hb, Hbase.
    + by apply Hb, Hfile.
    + by apply Hb, Hfile.
    + by apply Hb, Hfile.
    + destruct (Hfile f Hf) as (_ & _ & _ & Hv). congruence.
Qed.

(** A delete name is only checked for being a base name and for
    duplicates, whatever its sanitized form. *)
Lemma filesVerify_delete_only (n : string) :
  filepath_Base n = n → filesVerify [] [n] = None.
Proof.
  intros Hb. unfold filesVerify.
  destruct (decide _) as [[_ ?]|_]; [done|]. simpl.
  unfold pathCheck. rewrite decide_False by (intros Hn; by apply Hn).
  unfold dupCheck. rewrite decide_False by apply not_elem_of_empty. done.
Qed.

End FilesVerifyFacts.

Lemma filesVerify_rejects_witness :
  ∃ code context,
    Tstorebe.filesVerify (H:=Sample.lib) [] [] =
      Some (Backend.ContentError code context).
Proof.
  apply (filesVerify_rejects (H:=Sample.lib) [] []).
  left. split; reflexivity.
Defined.

(** C7 (as stated) fails: a delete name that is its own base name but
    differs from its sanitized form is accepted. *)
Lemma filesVerify_delete_name_unsanitized :
  Tstorebe.filepath_Base (Library:=Sample.lib) "a?b" = "a?b" ∧
  Tstorebe.gozaru_Sanitize (Library:=Sample.lib) "a?b" ≠ "a?b" ∧
  Tstorebe.filesVerify (H:=Sample.lib) [] ["a?b"] = None.
Proof.
  split; [reflexivity|]. split; [discriminate|]. vm_compute. reflexivity.
Qed.

(** ** The metadata stream merge *)
Section MetadataFacts.
Import Backend Tstorebe.

(** An overwrite entry replaces whatever the map holds under its key. *)
Lemma mdPut_lookup (md : gmap string MetadataStream) (v : MetadataStream) :
  mdPut md v !! mdKey v = Some v.
Proof. unfold mdPut. apply lookup_insert_eq. Qed.

(** An append entry whose key is free becomes the whole stream. *)
Lemma mdAppendOne_new (md : gmap string MetadataStream)
  (v : MetadataStream) :
  md !! mdKey v = None → mdAppendOne md v !! mdKey v = Some v.
Proof. intros Hk. unfold mdAppendOne. rewrite Hk. apply lookup_insert_eq. Qed.

(** An append entry whose key is taken is concatenated onto the stream
    stored under that key. *)
Lemma mdAppendOne_existing (md : gmap string MetadataStream)
  (v m : MetadataStream) :
  md !! mdKey v = Some m →
  mdAppendOne md v !! mdKey v =
    Some (mkMetadataStream (PluginID m) (StreamID m)
            (Payload m +:+ Payload v)).
Proof. intros Hk. unfold mdAppendOne. rewrite Hk. apply lookup_insert_eq. Qed.

Lemma foldl_mdPut_lookup_None (md : gmap string MetadataStream)
  (l : list MetadataStream) (k : string) :
  foldl mdPut md l !! k = None ↔
    md !! k = None ∧ Forall (λ m, mdKey m ≠ k) l.
Proof.
  revert md. induction l as [|a l IH]; intros md; simpl.
  - split; [intros Hk; split; [done|constructor]|by intros [Hk _]].
  - rewrite IH. unfold mdPut at 1. rewrite lookup_insert_None, Forall_cons.
    tauto.
Qed.

(** Where no stream of the record or of the overwrites shares the append's
    map key, the append becomes a stream of its own. *)
Lemma metadataStreamsMap_append_creates
  (curr mdOverwrite : list MetadataStream) (v : MetadataStream) :
  Forall (λ m, mdKey m ≠ mdKey v) (curr ++ mdOverwrite) →
  metadataStreamsMap curr [v] mdOverwrite !! mdKey v = Some v.
Proof.
  intros [Hcurr Hover]%Forall_app. unfold metadataStreamsMap. simpl.
  apply mdAppendOne_new, foldl_mdPut_lookup_None. split; [|done].
  apply foldl_mdPut_lookup_None. split; [apply lookup_empty|done].
Qed.

(** C9 at its failing input: the record holds the stream ("a", 12) and an
    append arrives for ("a1", 2), a pair with no existing stream.  Both
    pairs have the map key "a12", so no stream ("a1", 2) is created and the
    payload is glued onto stream ("a", 12) instead. *)
Theorem metadataStreamsUpdate_key_collision :
  (PluginID (mkMetadataStream "a" 12 "x"),
   StreamID (mkMetadataStream "a" 12 "x")) ≠
  (PluginID (mkMetadataStream "a1" 2 "y"),
   StreamID (mkMetadataStream "a1" 2 "y")) ∧
  mdKey (mkMetadataStream "a" 12 "x") =
    mdKey (mkMetadataStream "a1" 2 "y") ∧
  metadataStreamsVerify [mkMetadataStream "a1" 2 "y"] = None ∧
  metadataStreamsUpdate [mkMetadataStream "a" 12 "x"]
    [mkMetadataStream "a1" 2 "y"] [] =
    [mkMetadataStream "a" 12 "xy"].
Proof.
  split; [discriminate|]. split; [reflexivity|].
  split; vm_compute; reflexivity.
Qed.

End MetadataFacts.

(** ** Iterations along a sequence of operations *)
Section IterationFacts.
Import Backend Tstorebe Ops.
Context `{Library}.

Lemma iterChain_nil : iterChain [].
Proof. split; intros *; rewrite lookup_nil; done. Qed.

Lemma iterChain_snoc (h : list RecordMetadata) (c : RecordMetadata) :
  iterChain h →
  match last h with
  | Some a => iterStep a c
  | None => Iteration c = 1
  end →
  iterChain (h ++ [c]).
Proof.
  intros [Hhead Hstep] Hc. split.
  - intros rm. destruct h as [|a h]; simpl in *.
    + intros [= <-]. done.
    + intros [= <-]. by apply Hhead.
  - intros i a d Ha Hd.
    destruct (decide (S i < length h)%nat) as [Hlt|Hge].
    + rewrite lookup_app_l in Ha, Hd by lia. eauto.
    + assert (Hi : S i = length h).
      { apply lookup_lt_Some in Hd. rewrite length_app in Hd. simpl in Hd. lia. }
      rewrite lookup_app_l in Ha by lia.
      rewrite lookup_app_r, Hi, Nat.sub_diag in Hd by lia.
      injection Hd as <-.
      rewrite last_lookup in Hc.
      replace (pred (length h)) with i in Hc by lia.
      by rewrite Ha in Hc.
Qed.

Lemma history_append_eq fz token rm md files s tr :
  MemStore.trees s !! token = Some tr →
  MemStore.frozen tr = false →
  MemStore.history token (MemStore.append fz token rm md files s).2 =
    MemStore.history token s ++ [rm].
Proof.
  intros Htr Hfz. unfold MemStore.append, MemStore.history.
  rewrite Htr, Hfz. cbn [snd MemStore.trees]. rewrite lookup_insert_eq.
  cbn [MemStore.leaves]. by rewrite fmap_app.
Qed.

Lemma history_append_ne fz token token' rm md files s :
  token ≠ token' →
  MemStore.history token' (MemStore.append fz token rm md files s).2 =
    MemStore.history token' s.
Proof.
  intros Hne. unfold MemStore.append, MemStore.history.
  destruct (MemStore.trees s !! token) as [tr|]; [|done].
  destruct (MemStore.frozen tr); [done|]. simpl.
  by rewrite lookup_insert_ne.
Qed.

Lemma append_ok fz token rm md files s :
  MemStore.storeOk s →
  match MemStore.mem_RecordLatest token s with
  | Ok r => iterStep (RecordMetadata_ r) rm
  | Err _ => Iteration rm = 1
  end →
  MemStore.storeOk (MemStore.append fz token rm md files s).2.
Proof.
  intros Hok Hrm token'.
  destruct (decide (token = token')) as [<-|Hne];
    [|rewrite history_append_ne by done; apply Hok].
  destruct (MemStore.trees s !! token) as [tr|] eqn:Htr;
    [|unfold MemStore.append; rewrite Htr; apply Hok].
  destruct (MemStore.frozen tr) eqn:Hfz;
    [unfold MemStore.append; rewrite Htr, Hfz; apply Hok|].
  rewrite (history_append_eq _ _ _ _ _ _ tr) by done.
  apply iterChain_snoc; [apply Hok|].
  unfold MemStore.mem_RecordLatest in Hrm. unfold MemStore.history.
  rewrite Htr in *. rewrite fmap_last.
  destruct (last (MemStore.leaves tr)); done.
Qed.

Lemma RecordDel_ok token s :
  MemStore.storeOk s → MemStore.storeOk (MemStore.mem_RecordDel token s).2.
Proof.
  intros Hok token'. unfold MemStore.mem_RecordDel.
  destruct (MemStore.trees s !! token) as [tr|] eqn:Htr; [|apply Hok].
  simpl. specialize (Hok token'). unfold MemStore.history in *. simpl.
  destruct (decide (token = token')) as [<-|Hne].
  - rewrite lookup_insert_eq. rewrite Htr in Hok. simpl.
    rewrite <- list_fmap_compose.
    erewrite list_fmap_ext; [exact Hok|]. by intros [].
  - by rewrite lookup_insert_ne.
Qed.

Lemma RecordNew_ok s :
  MemStore.storeOk s → MemStore.storeOk (MemStore.mem_RecordNew s).2 ∧
  ∀ token, (MemStore.mem_RecordNew s).1 = Ok token →
    MemStore.mem_RecordLatest token (MemStore.mem_RecordNew s).2 =
      Err ErrRecordNotFound.
Proof.
  intros Hok. unfold MemStore.mem_RecordNew. simpl. split.
  - intros token'. specialize (Hok token'). unfold MemStore.history in *.
    simpl.
    destruct (decide (MemStore.tokenOf (MemStore.nextID s) = token'))
      as [<-|Hne].
    + rewrite lookup_insert_eq. apply iterChain_nil.
    + by rewrite lookup_insert_ne.
  - intros token [= <-]. unfold MemStore.mem_RecordLatest. simpl.
    by rewrite lookup_insert_eq.
Qed.

Local Arguments MemStore.mem_RecordNew : simpl never.
Local Arguments MemStore.mem_RecordLatest : simpl never.
Local Arguments MemStore.mem_RecordExists : simpl never.
Local Arguments MemStore.mem_RecordSave : simpl never.
Local Arguments MemStore.mem_RecordFreeze : simpl never.
Local Arguments MemStore.mem_RecordDel : simpl never.
Local Arguments MemStore.append : simpl never.

Lemma append_step fz token rm md files s e s' :
  MemStore.append fz token rm md files s = (e, s') →
  MemStore.storeOk s →
  match MemStore.mem_RecordLatest token s with
  | Ok r => iterStep (RecordMetadata_ r) rm
  | Err _ => Iteration rm = 1
  end →
  MemStore.storeOk s'.
Proof.
  intros Heq Hok Hrm.
  replace s' with (MemStore.append fz token rm md files s).2
    by (by rewrite Heq).
  by apply append_ok.
Qed.

Lemma RecordDel_step token s e s' :
  MemStore.mem_RecordDel token s = (e, s') → MemStore.storeOk s → MemStore.storeOk s'.
Proof.
  intros Heq Hok.
  replace s' with (MemStore.mem_RecordDel token s).2 by (by rewrite Heq).
  by apply RecordDel_ok.
Qed.

Lemma iterStep_same (a c : RecordMetadata) :
  Status c = Status a → Iteration c = u32 (Iteration a + 1) → iterStep a c.
Proof.
  intros Hs Hi. unfold iterStep.
  destruct (decide _) as [[Ha Hc]|_]; [|done].
  rewrite Hs, Ha in Hc. done.
Qed.

Lemma iterStep_status (a c : RecordMetadata) :
  statusChangeIsAllowed (Status a) (Status c) = true →
  Iteration c = (if decide (Status c = StatusPublic) then 1
                 else u32 (Iteration a + 1)) →
  iterStep a c.
Proof.
  intros Hal%statusChangeIsAllowed_spec Hi. unfold iterStep.
  destruct (decide (Status c = StatusPublic)) as [Hp|Hp].
  - rewrite Hp in Hal.
    destruct Hal as [[Ha _]|[[_ ?]|[[_ ?]|[_ ?]]]]; try done.
    rewrite decide_True by done. done.
  - rewrite decide_False by (intros [_ ?]; done). done.
Qed.

Section StepFacts.
Context {T : Type} `{TstoreAPI T}.
Local Arguments saved : simpl never.

(** What one operation hands to the store, whatever the store: nothing,
    or one record metadata.  RecordNew saves iteration 1; the other
    operations save a step of the chain from the record they loaded. *)
Lemma runOp_saved (o : Op) (b : tstoreBackend T) :
  saved (trace (runOp o b).2) = saved (trace b) ∨
  ∃ rm', saved (trace (runOp o b).2) = saved (trace b) ++ [rm'] ∧
    match o with
    | OpRecordNew _ _ => Iteration rm' = 1
    | OpRecordEdit token _ _ _ _
    | OpRecordEditMetadata token _ _
    | OpRecordSetStatus token _ _ _ =>
        ∃ r, tstore_RecordLatest token (tstore b) = Ok r ∧
             iterStep (RecordMetadata_ r) rm'
    end.
Proof.
  destruct o; cbn [runOp].
  - unfold Tstorebe.RecordNew. munfold. mrun;
      simpl; repeat rewrite saved_app; unfold saved; simpl;
      rewrite ?app_nil_r; auto.
    all: right; eexists; split; [reflexivity|done].
  - unfold Tstorebe.RecordEdit. munfold. mrun;
      simpl; repeat rewrite saved_app; unfold saved; simpl;
      rewrite ?app_nil_r; auto.
    all: right; eexists; split; [reflexivity|].
    all: eexists; split; [reflexivity|by apply iterStep_same].
  - unfold Tstorebe.RecordEditMetadata. munfold. mrun;
      simpl; repeat rewrite saved_app; unfold saved; simpl;
      rewrite ?app_nil_r; auto.
    all: right; eexists; split; [reflexivity|].
    all: eexists; split; [reflexivity|by apply iterStep_same].
  - unfold Tstorebe.RecordSetStatus. munfold. mrun;
      simpl; repeat rewrite saved_app; unfold saved; simpl;
      rewrite ?app_nil_r; auto.
    all: right; eexists; split; [reflexivity|].
    all: eexists; split; [reflexivity|].
    all: apply iterStep_status; simpl; [by apply negb_false_iff|try done].
Qed.
End StepFacts.

(** Closes the goals left by running an operation on the store. *)
Ltac store_steps :=
  repeat match goal with
    | |- MemStore.storeOk (tstore _) => progress simpl
    | Heq : MemStore.mem_RecordSave _ _ _ _ ?s0 = (_, ?s) |- MemStore.storeOk ?s =>
        apply (append_step _ _ _ _ _ _ _ _ Heq)
    | Heq : MemStore.mem_RecordFreeze _ _ _ _ ?s0 = (_, ?s) |- MemStore.storeOk ?s =>
        apply (append_step _ _ _ _ _ _ _ _ Heq)
    | Heq : MemStore.mem_RecordDel _ ?s0 = (_, ?s) |- MemStore.storeOk ?s =>
        apply (RecordDel_step _ _ _ _ Heq)
    | Hok : MemStore.storeOk ?s |- MemStore.storeOk ?s => exact Hok
    end.

Local Arguments MemStore.mem_RecordNew : simpl never.
Local Arguments MemStore.mem_RecordLatest : simpl never.
Local Arguments MemStore.mem_RecordExists : simpl never.
Local Arguments MemStore.mem_RecordSave : simpl never.
Local Arguments MemStore.mem_RecordFreeze : simpl never.
Local Arguments MemStore.mem_RecordDel : simpl never.
Local Arguments MemStore.append : simpl never.

(** Each operation keeps every record's iterations a chain. *)
Lemma runOp_ok (o : Op) (b : tstoreBackend MemStore.store) :
  MemStore.storeOk (tstore b) → MemStore.storeOk (tstore (runOp o b).2).
Proof.
  intros Hok. destruct o; simpl.
  - unfold Tstorebe.RecordNew. munfold. mrun; try done.
    all: store_steps.
    all: try (apply (RecordNew_ok _ Hok)).
    all: unfold MemStore.mem_RecordLatest; cbn [MemStore.trees];
      rewrite lookup_insert_eq; done.
  - unfold Tstorebe.RecordEdit. munfold. mrun; try done.
    all: store_steps.
    all: match goal with
         | Hl : MemStore.mem_RecordLatest _ _ = Ok _ |- _ => rewrite Hl
         end; by apply iterStep_same.
  - unfold Tstorebe.RecordEditMetadata. munfold. mrun; try done.
    all: store_steps.
    all: match goal with
         | Hl : MemStore.mem_RecordLatest _ _ = Ok _ |- _ => rewrite Hl
         end; by apply iterStep_same.
  - unfold Tstorebe.RecordSetStatus. munfold. mrun; try done.
    all: store_steps.
    all: match goal with
         | Hl : MemStore.mem_RecordLatest _ _ = Ok _ |- _ => rewrite Hl
         end.
    all: apply iterStep_status; simpl;
      [by apply negb_false_iff|try done].
Qed.

Lemma runOps_ok (ops : list Op) (b : tstoreBackend MemStore.store) :
  MemStore.storeOk (tstore b) → MemStore.storeOk (tstore (runOps ops b)).
Proof.
  revert b. induction ops as [|o ops IH]; intros b Hok; [done|].
  apply IH. by apply runOp_ok.
Qed.

(** C1 (as amended): along any sequence of RecordNew, RecordEdit,
    RecordEditMetadata and RecordSetStatus calls, the first iteration
    saved for a record is 1, and from each saved iteration to the next the
    iteration goes up by one (uint32 addition), except in the step that
    makes an unreviewed record public, where it returns to 1. *)
Theorem iteration_chain (ops : list Op) (token : bytes) :
  iterChain
    (MemStore.history token (tstore (runOps ops MemStore.backend0))).
Proof.
  apply runOps_ok. intros token'. unfold MemStore.history. simpl.
  rewrite lookup_empty. apply iterChain_nil.
Qed.

(** Away from the publishing step and from the end of the uint32 range,
    a step of the chain is a strict increase. *)
Lemma iterStep_increases (a c : RecordMetadata) :
  iterStep a c →
  ¬ (Status a = StatusUnreviewed ∧ Status c = StatusPublic) →
  0 ≤ Iteration a < 2 ^ 32 - 1 →
  Iteration a < Iteration c.
Proof.
  unfold iterStep. intros Hstep Hnp Hrange.
  rewrite decide_False in Hstep by done.
  rewrite Hstep, u32_succ by done. lia.
Qed.

End IterationFacts.

(** C1 (as stated) fails: creating a record, editing it and making it
    public saves the iterations 1, 2, 1. *)
Lemma iteration_not_strictly_increasing :
  Backend.Iteration <$>
    MemStore.history "tree1"
      (Tstorebe.tstore
         (Ops.runOps Sample.createEditPublish MemStore.backend0)) =
    [1; 2; 1] ∧
  ¬ Ops.strictlyIncreasing
      (Backend.Iteration <$>
         MemStore.history "tree1"
           (Tstorebe.tstore
              (Ops.runOps Sample.createEditPublish MemStore.backend0))).
Proof.
  assert (Hrun :
    Backend.Iteration <$>
      MemStore.history "tree1"
        (Tstorebe.tstore
           (Ops.runOps Sample.createEditPublish MemStore.backend0)) =
      [1; 2; 1]) by (vm_compute; reflexivity).
  split; [exact Hrun|]. rewrite Hrun. intros Hinc.
  specialize (Hinc 1%nat 2%nat 2 1 eq_refl eq_refl). lia.
Qed.

(** ** The anchor engine *)
Section AnchorFacts.
Import Backend Anchor.
Context `{AnchorEnv}.

Lemma extends_refl t : extends t t 0 [].
Proof.
  split; [done|lia|simpl; lia|by rewrite app_nil_r].
Qed.

Lemma extends_trans t1 t2 t3 p1 p2 n1 n2 :
  extends t1 t2 p1 n1 → extends t2 t3 p2 n2 →
  extends t1 t3 (p1 + p2) (n1 ++ n2).
Proof.
  intros [] []. split.
  - congruence.
  - lia.
  - rewrite Nat2Z.inj_add. lia.
  - rewrite ext_events1, ext_events0. by rewrite app_assoc.
Qed.

Lemma anchorSave_extends a t :
  ∃ new, extends t (anchorSave a t).2 0 new ∧
         Forall (λ e, isGuardWrite e = false) new.
Proof.
  unfold anchorSave. repeat case_decide; simpl;
    try (exists []; split; [apply extends_refl|constructor]).
  exists [EvAnchorSave a]. split.
  - split; simpl; [done|lia|lia|done].
  - repeat constructor.
Qed.

Lemma saveOne_extends vbr t k v :
  ∃ new, extends t (saveOne vbr (t, k) v).1 0 new ∧
         Forall (λ e, isGuardWrite e = false) new.
Proof.
  unfold saveOne.
  repeat case_match; simpl;
    try (exists []; split; [apply extends_refl|constructor]).
  apply anchorSave_extends.
Qed.

Lemma saveLoop_extends vbr anchors t k :
  ∃ new, extends t (foldl (saveOne vbr) (t, k) anchors).1 0 new ∧
         Forall (λ e, isGuardWrite e = false) new.
Proof.
  revert t k. induction anchors as [|v anchors IH]; intros t k;
    cbn [foldl].
  - exists []. split; [apply extends_refl|constructor].
  - destruct (saveOne vbr (t, k) v) as [t1 k1] eqn:Hone.
    destruct (saveOne_extends vbr t k v) as (n1 & He1 & Hg1).
    rewrite Hone in He1. simpl in He1.
    destruct (IH t1 k1) as (n2 & He2 & Hg2).
    exists (n1 ++ n2). split.
    + apply (extends_trans _ _ _ 0 0 _ _ He1 He2).
    + by apply Forall_app.
Qed.

(** One iteration of the polling loop: one tick, one verifyBatch call,
    and anchor saves only when the anchors are dropped. *)
Lemma anchorWait_try_extends anchors digests t :
  ∃ saves,
    extends t (anchorWait_try anchors digests t).2 1
      (EvTick :: EvVerifyBatch anchorID digests :: saves) ∧
    Forall (λ e, isGuardWrite e = false) saves ∧
    ((∀ vbr, (anchorWait_try anchors digests t).1 ≠ TryDropped vbr) →
     saves = []).
Proof.
  unfold anchorWait_try.
  destruct (dcrtime_verifyBatch _ _ _) as [vbr|e]; simpl.
  - destruct (decide _) as [Hne|Heq]; simpl.
    + exists []. split; [|split; [constructor|done]].
      split; simpl; [done|lia|lia|by rewrite <- app_assoc].
    + match goal with
      | |- context [foldl (saveOne vbr) (?t1, _) anchors] =>
          destruct (saveLoop_extends vbr anchors t1 0%nat)
            as (new & [Hg Hc Hw He] & Hnew)
      end.
      simpl in *. exists new. split; [|split; [done|]].
      * split; simpl; [done|lia|lia|].
        rewrite He. by rewrite <- !app_assoc.
      * intros Hno. by destruct (Hno vbr).
  - exists []. split; [|split; [constructor|done]].
    split; simpl; [done|lia|lia|by rewrite <- app_assoc].
Qed.

Lemma anchoredSet_size (vds : list VerifyDigest_) (acc : gset string) :
  (size (anchoredSet vds acc) ≤ size acc + length vds)%nat ∧
  (¬ Forall anchoredDigest vds →
   (size (anchoredSet vds acc) < size acc + length vds)%nat).
Proof.
  revert acc. induction vds as [|v vds IH]; intros acc; simpl.
  - split; [lia|]. intros Hn. destruct Hn. constructor.
  - assert (Hs : (size ({[VDigest v]} ∪ acc) ≤ S (size acc))%nat).
    { rewrite size_union_alt, size_singleton.
      assert (acc ∖ {[VDigest v]} ⊆ acc) as Hsub
        by (intros x [? _]%elem_of_difference; done).
      apply subseteq_size in Hsub. lia. }
    destruct (decide (Result v ≠ ResultOK)) as [Hr|Hr];
      [split; [lia|intros _; lia]|].
    destruct (decide (Transaction (ChainInformation v) = zeroTransaction))
      as [Htx|Htx]; [split; [lia|intros _; lia]|].
    destruct (decide (ChainTimestamp (ChainInformation v) = 0))
      as [Hts|Hts]; [split; [lia|intros _; lia]|].
    destruct (IH ({[VDigest v]} ∪ acc)) as [IH1 IH2].
    split; [lia|].
    intros Hn. assert (¬ Forall anchoredDigest vds) as Hn'.
    { intros Hall. apply Hn. constructor; [|done].
      apply dec_stable in Hr. done. }
    specialize (IH2 Hn'). lia.
Qed.

(** The save phase is entered only with every reply entry anchored, when
    the reply has one entry per digest of the batch. *)
Lemma anchoredSet_all (vbr : list VerifyDigest_) (digests : list string) :
  length vbr = length digests →
  size (anchoredSet vbr ∅) = length digests →
  Forall anchoredDigest vbr.
Proof.
  intros Hlen Hsize.
  destruct (decide (Forall anchoredDigest vbr)) as [|Hn]; [done|].
  apply (anchoredSet_size vbr ∅) in Hn. rewrite size_empty in Hn. lia.
Qed.

Lemma anchorWait_try_dropped anchors digests t vbr :
  (anchorWait_try anchors digests t).1 = TryDropped vbr →
  dcrtime_verifyBatch (verifyCalls t) anchorID digests = Ok vbr ∧
  size (anchoredSet vbr ∅) = length digests.
Proof.
  unfold anchorWait_try. simpl.
  destruct (dcrtime_verifyBatch _ _ _) as [vbr'|e]; simpl; [|done].
  destruct (decide _) as [Hne|Heq]; simpl; [done|].
  intros [= ->]. split; [done|]. by apply dec_stable in Heq.
Qed.

(** A reply with an entry that is not anchored sends the loop into its
    next iteration without saving anything. *)
Lemma anchorWait_try_continue anchors digests t vbr :
  dcrtime_verifyBatch (verifyCalls t) anchorID digests = Ok vbr →
  length vbr = length digests →
  ¬ Forall anchoredDigest vbr →
  (anchorWait_try anchors digests t).1 = TryContinue ∧
  events (anchorWait_try anchors digests t).2 =
    events t ++ [EvTick; EvVerifyBatch anchorID digests].
Proof.
  intros Hvb Hlen Hn. unfold anchorWait_try. simpl. rewrite Hvb.
  destruct (decide _) as [Hne|Heq]; simpl.
  - split; [done|]. by rewrite <- app_assoc.
  - apply dec_stable in Heq. destruct Hn. by eapply anchoredSet_all.
Qed.

Lemma anchorWait_loop_spec todo try anchors digests t :
  ∃ polls new,
    extends t (anchorWait_loop todo try anchors digests t).2 polls new ∧
    (polls ≤ todo)%nat ∧
    Forall (λ e, isGuardWrite e = false) new ∧
    (∀ k vbr,
       (anchorWait_loop todo try anchors digests t).1 = WaitDropped k vbr →
       (try ≤ k < try + todo)%nat ∧ polls = S (k - try) ∧
       dcrtime_verifyBatch (verifyCalls t + (k - try)) anchorID digests =
         Ok vbr ∧
       size (anchoredSet vbr ∅) = length digests) ∧
    ((∀ k vbr,
        (anchorWait_loop todo try anchors digests t).1 ≠ WaitDropped k vbr) →
     Forall (λ e, isAnchorSave e = false) new) ∧
    (anchorWait_loop todo try anchors digests t).1 ≠ WaitReentrant.
Proof.
  revert try t. induction todo as [|todo IH]; intros try t; cbn [anchorWait_loop].
  - exists 0%nat, []. simpl.
    split; [apply extends_refl|]. split; [lia|]. split; [constructor|].
    split; [done|]. split; [constructor|done].
  - destruct (anchorWait_try_extends anchors digests t)
      as (saves & Hext & Hguard & Hsaves).
    pose proof (anchorWait_try_dropped anchors digests t) as Hdrop.
    destruct (anchorWait_try anchors digests t) as [[| e | vbr] t1]; simpl in *.
    + destruct (IH (S try) t1) as (polls & new & Hext' & Hle & Hg' & Hd' & Hs' & Hr').
      rewrite Hsaves in * by done.
      exists (1 + polls)%nat, ([EvTick; EvVerifyBatch anchorID digests] ++ new).
      split; [by eapply extends_trans|]. split; [lia|].
      split; [repeat constructor; done|].
      split; [|split; [|done]].
      * intros k vbr Hk. destruct (Hd' k vbr Hk) as (Hr & -> & Hvb & Hsz).
        split; [lia|]. split; [lia|]. split; [|done].
        destruct Hext. rewrite ext_calls0 in Hvb.
        replace (verifyCalls t + (k - try))%nat
          with (verifyCalls t + 1 + (k - S try))%nat by lia. done.
      * intros Hno. repeat constructor. by apply Hs'.
    + rewrite Hsaves in * by done.
      exists 1%nat, [EvTick; EvVerifyBatch anchorID digests].
      split; [done|]. split; [lia|]. split; [repeat constructor|].
      split; [done|]. split; [repeat constructor|done].
    + exists 1%nat, (EvTick :: EvVerifyBatch anchorID digests :: saves).
      split; [done|]. split; [lia|]. split; [repeat constructor; done|].
      split; [|split; [|done]].
      * intros k vbr' [= <- <-]. destruct (Hdrop vbr eq_refl) as [Hvb Hsz].
        rewrite Nat.sub_diag, Nat.add_0_r. split; [lia|done].
      * intros Hno. by destruct (Hno try vbr).
Qed.

Lemma retries_36 : Z.to_nat retries = 36%nat.
Proof. reflexivity. Qed.

(** C6: anchorWait polls at most 36 times, one poll per 5-minute tick,
    so it waits at most 180 minutes.  It enters the save phase only on an
    attempt whose reply, listing the digests of the batch, has every entry
    anchored, an entry being anchored when its result is OK, its
    transaction id is not the zero digest and its chainTimestamp is not 0;
    on any other outcome no anchor is saved, and a reply with an entry not
    yet anchored sends the whole batch into the next attempt. *)
Theorem anchorWait_polling (anchors : list anchor) (digests : list string)
  (t t' : Tstore) (out : waitOutcome) :
  anchorWait anchors digests t = (out, t') →
  let polls := (verifyCalls t' - verifyCalls t)%nat in
  (polls ≤ 36)%nat ∧
  waited t' - waited t = 5 * Z.of_nat polls ∧
  waited t' - waited t ≤ 180 ∧
  (∀ try vbr, out = WaitDropped try vbr →
     (try < 36)%nat ∧ polls = S try ∧
     dcrtime_verifyBatch (verifyCalls t + try) anchorID digests = Ok vbr ∧
     (VDigest <$> vbr = digests → Forall anchoredDigest vbr)) ∧
  ((∀ try vbr, out ≠ WaitDropped try vbr) →
   ∃ new, events t' = events t ++ new ∧
          Forall (λ e, isAnchorSave e = false) new) ∧
  (∀ t1 vbr,
     dcrtime_verifyBatch (verifyCalls t1) anchorID digests = Ok vbr →
     VDigest <$> vbr = digests →
     ¬ Forall anchoredDigest vbr →
     events (anchorWait_try anchors digests t1).2 =
       events t1 ++ [EvTick; EvVerifyBatch anchorID digests] ∧
     ∀ todo try,
       anchorWait_loop (S todo) try anchors digests t1 =
       anchorWait_loop todo (S try) anchors digests
         (anchorWait_try anchors digests t1).2).
Proof.
  intros Hrun polls. unfold anchorWait, droppingAnchorGet in Hrun.
  assert (Hretry : ∀ t1 vbr,
     dcrtime_verifyBatch (verifyCalls t1) anchorID digests = Ok vbr →
     VDigest <$> vbr = digests →
     ¬ Forall anchoredDigest vbr →
     events (anchorWait_try anchors digests t1).2 =
       events t1 ++ [EvTick; EvVerifyBatch anchorID digests] ∧
     ∀ todo try,
       anchorWait_loop (S todo) try anchors digests t1 =
       anchorWait_loop todo (S try) anchors digests
         (anchorWait_try anchors digests t1).2).
  { intros t1 vbr Hvb Hcontract Hn.
    assert (length vbr = length digests) as Hlen
      by (by rewrite <- Hcontract, length_fmap).
    destruct (anchorWait_try_continue anchors digests t1 vbr Hvb Hlen Hn)
      as [Hout Hev].
    split; [done|]. intros todo try. cbn [anchorWait_loop].
    destruct (anchorWait_try anchors digests t1) as [o t2].
    simpl in Hout. by subst o. }
  destruct (droppingAnchor t) eqn:Hguard.
  { injection Hrun as <- <-. subst polls. rewrite Nat.sub_diag.
    split; [lia|]. split; [simpl; lia|]. split; [lia|].
    split; [done|]. split; [|done].
    intros _. exists []. split; [by rewrite app_nil_r|constructor]. }
  rewrite retries_36 in Hrun.
  destruct (anchorWait_loop_spec 36 0 anchors digests
              (droppingAnchorSet true t))
    as (n & new & [Hg Hc Hw He] & Hle & Hgw & Hdrop & Hsave & _).
  destruct (anchorWait_loop 36 0 anchors digests (droppingAnchorSet true t))
    as [out' t1].
  injection Hrun as <- <-. simpl in *.
  assert (polls = n) as -> by (subst polls; lia).
  unfold period_Minutes in Hw.
  split; [done|]. split; [lia|]. split; [lia|].
  split; [|split; [|done]].
  - intros try vbr ->. destruct (Hdrop try vbr eq_refl) as (Hr & -> & Hvb & Hsz).
    rewrite Nat.sub_0_r in *. split; [lia|]. split; [done|]. split; [done|].
    intros Hcontract. eapply anchoredSet_all; [|done].
    by rewrite <- Hcontract, length_fmap.
  - intros Hno. eexists. rewrite He. rewrite <- !app_assoc. split; [done|].
    simpl. constructor; [done|]. apply Forall_app. split; [by apply Hsave|].
    repeat constructor.
Qed.


(** anchorTrees leaves the guard as it finds it. *)
Lemma anchorTrees_extends t :
  ∃ new, extends t (anchorTrees t).2 0 new ∧
         Forall (λ e, isGuardWrite e = false) new.
Proof.
  unfold anchorTrees, droppingAnchorGet.
  repeat case_match; simpl;
    (eexists; split;
     [split; simpl;
      [done|lia|lia|
       first [reflexivity | rewrite <- app_assoc; reflexivity
             | symmetry; apply app_nil_r]]
     |repeat constructor]).
Qed.

Lemma anchorTrees_skips t :
  droppingAnchor t = true → anchorTrees t = (None, t).
Proof. intros Hg. unfold anchorTrees, droppingAnchorGet. by rewrite Hg. Qed.

Lemma waitingAfter_guard k anchors digests t :
  droppingAnchor (waitingAfter k anchors digests t) = true.
Proof.
  unfold waitingAfter. induction k as [|k IH]; simpl; [done|].
  destruct (anchorWait_try_extends anchors digests
              (Nat.iter k (λ t, (anchorWait_try anchors digests t).2)
                 (droppingAnchorSet true t)))
    as (saves & [Hg _ _ _] & _).
  by rewrite Hg.
Qed.

(** C5 (as amended): anchorTrees never writes the guard; it is anchorWait
    that sets it, as its first step, after anchorTrees has submitted the
    batch, and clears it as its last step on every return (anchors
    dropped, timeout, or a failed verifyBatch call).  All the while
    anchorWait is polling the guard is set, and an anchorTrees call made
    then returns at once without submitting anything. *)
Theorem anchor_guard (anchors : list anchor) (digests : list string)
  (t : Tstore) (k : nat) :
  droppingAnchor t = false →
  (∃ new, events (anchorTrees t).2 = events t ++ new ∧
          Forall (λ e, isGuardWrite e = false) new ∧
          droppingAnchor (anchorTrees t).2 = false) ∧
  (let w := waitingAfter k anchors digests t in
   droppingAnchor w = true ∧ anchorTrees w = (None, w)) ∧
  (∃ mid,
     events (anchorWait anchors digests t).2 =
       events t ++ EvDroppingAnchorSet true :: mid ++
         [EvDroppingAnchorSet false] ∧
     Forall (λ e, isGuardWrite e = false) mid ∧
     droppingAnchor (anchorWait anchors digests t).2 = false).
Proof.
  intros Hguard. split; [|split].
  - destruct (anchorTrees_extends t) as (new & [Hg _ _ He] & Hnew).
    exists new. split; [done|]. split; [done|]. congruence.
  - pose proof (waitingAfter_guard k anchors digests t) as Hw.
    split; [done|]. by apply anchorTrees_skips.
  - unfold anchorWait, droppingAnchorGet. rewrite Hguard.
    destruct (anchorWait_loop_spec (Z.to_nat retries) 0 anchors digests
                (droppingAnchorSet true t))
      as (n & mid & [Hg Hc Hw He] & _ & Hmid & _).
    destruct (anchorWait_loop _ _ _ _ _) as [out t1]. simpl in *.
    exists mid. split; [|done].
    rewrite He. by rewrite <- !app_assoc.
Qed.

End AnchorFacts.

Lemma anchorWait_polling_witness :
  ∃ vbr t',
    Anchor.anchorWait Sample.anchors0 Sample.digests0 Sample.tstore0 =
      (Anchor.WaitDropped 2 vbr, t') ∧
    (Anchor.verifyCalls t' - Anchor.verifyCalls Sample.tstore0 ≤ 36)%nat ∧
    Forall Anchor.anchoredDigest vbr.
Proof.
  destruct (Anchor.anchorWait Sample.anchors0 Sample.digests0 Sample.tstore0)
    as [out t'] eqn:Hrun.
  assert (Hout : ∃ vbr, out = Anchor.WaitDropped 2 vbr ∧
                        Anchor.VDigest <$> vbr = Sample.digests0).
  { vm_compute in Hrun. injection Hrun as <- _. eexists. split; reflexivity. }
  destruct Hout as (vbr & -> & Hcontract).
  destruct (anchorWait_polling _ _ _ _ _ Hrun)
    as (Hpolls & _ & _ & Hdropped & _).
  destruct (Hdropped 2%nat vbr eq_refl) as (_ & _ & _ & Hall).
  exists vbr, t'. split; [reflexivity|]. split; [exact Hpolls|].
  exact (Hall Hcontract).
Defined.

Lemma anchor_guard_witness :
  Anchor.droppingAnchor Sample.tstore0 = false ∧
  Anchor.anchorTrees
    (Anchor.waitingAfter 2 Sample.anchors0 Sample.digests0 Sample.tstore0) =
    (None,
     Anchor.waitingAfter 2 Sample.anchors0 Sample.digests0 Sample.tstore0).
Proof.
  split; [reflexivity|].
  apply (anchor_guard Sample.anchors0 Sample.digests0 Sample.tstore0 2).
  reflexivity.
Defined.

(** C5 (as stated) fails twice over.  A tick on a fresh engine submits the
    batch with the guard never set before: the guard is first written by the
    goroutine started after the submission.  And with a dcrtime whose
    verifyBatch call fails, anchorWait clears the guard on that error, which
    is neither success nor timeout. *)
Lemma guard_set_after_submit :
  (take 3 (Anchor.events Sample.tickThenWait) =
     [Anchor.EvTimestampBatch "tstorebe" ["roothash"];
      Anchor.EvGoAnchorWait Sample.anchors0 Sample.digests0;
      Anchor.EvDroppingAnchorSet true] ∧
   Anchor.droppingAnchor (Anchor.anchorTrees Sample.tstore0).2 = false ∧
   ¬ Anchor.guardSetBeforeSubmit (Anchor.events Sample.tickThenWait)) ∧
  (Anchor.anchorWait (H:=Sample.anchorEnvDown) Sample.anchors0
     Sample.digests0 Sample.tstore0).1 =
    Anchor.WaitError 0
      (Backend.ErrWrap "verifyBatch" (Backend.ErrExternal "dcrtime down")) ∧
  Anchor.events
    (Anchor.anchorWait (H:=Sample.anchorEnvDown) Sample.anchors0
       Sample.digests0 Sample.tstore0).2 =
    [Anchor.EvDroppingAnchorSet true; Anchor.EvTick;
     Anchor.EvVerifyBatch "tstorebe" ["roothash"];
     Anchor.EvDroppingAnchorSet false].
Proof.
  split; [split; [|split]|split].
  - vm_compute; reflexivity.
  - vm_compute; reflexivity.
  - intros Hclaim.
    destruct (Hclaim 0%nat "tstorebe" ["roothash"]) as (j & Hj & _);
      [vm_compute; reflexivity|lia].
  - vm_compute; reflexivity.
  - vm_compute; reflexivity.
Qed.

(** ** The billing status command *)
Section PiFacts.
Import Pi.
Context `{PiEnv}.

Lemma billingStatusChangeAllowed_spec (a b : BillingStatusT) :
  billingStatusChangeAllowed a b = true ↔
    (a = BillingStatusActive ∨ a = BillingStatusClosed ∨
     a = BillingStatusCompleted) ∧
    (b = BillingStatusActive ∨ b = BillingStatusClosed ∨
     b = BillingStatusCompleted) ∧
    a ≠ b.
Proof.
  unfold billingStatusChangeAllowed, billingStatusChanges.
  unfold BillingStatusActive, BillingStatusClosed, BillingStatusCompleted.
  rewrite bool_decide_eq_true.
  rewrite !lookup_insert, lookup_singleton.
  destruct (decide (1 = a)) as [<-|?];
    [simpl; rewrite !elem_of_union, !elem_of_singleton; lia|].
  destruct (decide (2 = a)) as [<-|?];
    [simpl; rewrite !elem_of_union, !elem_of_singleton; lia|].
  destruct (decide (3 = a)) as [<-|?];
    [simpl; rewrite !elem_of_union, !elem_of_singleton; lia|].
  simpl. rewrite elem_of_empty. lia.
Qed.

Ltac punfold :=
  unfold notAllowed, billingStatusSave, Pi.try, Pi.pcheck, Pi.pfail,
    mbind, P_bind, mret, P_ret in *.

(** C8: a request that decodes, carries the record's token and a valid
    status, and is correctly signed is rejected with
    BillingStatusChangeNotAllowed, nothing being saved, when it sets the
    status to closed with an empty reason; when the number of existing
    billing status changes plus one exceeds the configured maximum; and
    when it sets the status the proposal already has.  In the table every
    transition between two distinct statuses among active, closed and
    completed is allowed, and no status may follow itself. *)
Theorem cmdSetBillingStatus_rejects (token : bytes) (payload : string)
  (l : list PiEvent) (sbs : SetBillingStatus) :
  json_Unmarshal payload = Ok sbs →
  tokenMatches token (sbsToken sbs) = None →
  (sbsStatus sbs = BillingStatusActive ∨
   sbsStatus sbs = BillingStatusClosed ∨
   sbsStatus sbs = BillingStatusCompleted) →
  util_VerifySignature (sbsSignature sbs) (sbsPublicKey sbs)
    (sbsToken sbs +:+ FormatUint (sbsStatus sbs) +:+ sbsReason sbs) = None →
  let rejected :=
    ∃ context,
      cmdSetBillingStatus token payload l =
        (Err (PluginError PluginID ErrorCodeBillingStatusChangeNotAllowed
                context), l) in
  (sbsStatus sbs = BillingStatusClosed → sbsReason sbs = "" → rejected) ∧
  (∀ vs files vm bscs,
     voteSummary token = Ok vs →
     record token [FileNameVoteMetadata] = Ok files →
     voteMetadataDecode files = Ok vm →
     p_billingStatusChanges token = Ok bscs →
     (Z.of_nat (length bscs) + 1 < 2 ^ 32 →
      Z.of_nat (length bscs) + 1 > billingStatusChangesMax → rejected) ∧
     (proposalBillingStatus vs bscs = sbsStatus sbs → rejected)) ∧
  (∀ a b : BillingStatusT,
     a ∈ [BillingStatusActive; BillingStatusClosed; BillingStatusCompleted] →
     b ∈ [BillingStatusActive; BillingStatusClosed; BillingStatusCompleted] →
     a ≠ b → billingStatusChangeAllowed a b = true) ∧
  (∀ a : BillingStatusT, billingStatusChangeAllowed a a = false).
Proof.
  intros Hdec Htok Hvalid Hsig rejected.
  split; [|split; [|split]].
  - intros Hclosed Hreason. unfold rejected, cmdSetBillingStatus. punfold.
    rewrite Hdec, Htok. simpl.
    rewrite bool_decide_eq_true_2 by done. simpl. rewrite Hsig.
    rewrite decide_True by done. eauto.
  - intros vs files vm bscs Hvs Hrec Hvm Hbscs.
    assert (Hgen :
      (Z.gtb (u32 (Z.of_nat (length bscs) + 1)) billingStatusChangesMax
         = true ∨
       billingStatusChangeAllowed (proposalBillingStatus vs bscs)
         (sbsStatus sbs) = false) → rejected).
    { intros Hcase. unfold rejected, cmdSetBillingStatus. punfold.
      rewrite Hdec, Htok. simpl.
      rewrite bool_decide_eq_true_2 by done. simpl. rewrite Hsig.
      destruct (decide (sbsStatus sbs = BillingStatusClosed ∧ _));
        [eauto|].
      rewrite Hvs. simpl.
      destruct (decide (vs ≠ VoteStatusApproved)); [eauto|].
      rewrite Hrec. simpl. rewrite Hvm. simpl.
      destruct (isRFP vm); [eauto|].
      rewrite Hbscs. simpl.
      destruct (Z.gtb _ _) eqn:Hgt; [eauto|].
      destruct Hcase as [?|Hnot]; [done|]. rewrite Hnot. simpl. eauto. }
    split.
    + intros Hrange Hgt. apply Hgen. left.
      unfold u32. rewrite Z.mod_small by lia. lia.
    + intros Hsame. apply Hgen. right. rewrite Hsame.
      apply not_true_is_false. intros Hal.
      apply billingStatusChangeAllowed_spec in Hal as (_ & _ & ?). done.
  - intros a b Ha Hb Hne. apply billingStatusChangeAllowed_spec.
    rewrite !elem_of_cons, elem_of_nil in Ha, Hb. intuition.
  - intros a. apply not_true_is_false. intros Hal.
    apply billingStatusChangeAllowed_spec in Hal as (_ & _ & ?). done.
Qed.
End PiFacts.

Lemma cmdSetBillingStatus_rejects_witness :
  Pi.json_Unmarshal "2:" = Ok (Sample.decodePayload "2:") ∧
  Pi.sbsStatus (Sample.decodePayload "2:") = Pi.BillingStatusClosed ∧
  Pi.sbsReason (Sample.decodePayload "2:") = "" ∧
  ∃ context,
    Pi.cmdSetBillingStatus "abcd" "2:" [] =
      (Err (Pi.PluginError Pi.PluginID
              Pi.ErrorCodeBillingStatusChangeNotAllowed context), []).
Proof.
  split; [reflexivity|]. split; [reflexivity|]. split; [reflexivity|].
  refine (proj1 (cmdSetBillingStatus_rejects "abcd" "2:" []
                   (Sample.decodePayload "2:") eq_refl _ _ _) eq_refl eq_refl).
  - vm_compute; reflexivity.
  - right. left. reflexivity.
  - reflexivity.
Defined.

(** ** Content validation: metadataStreamsVerify *)
Section MetadataVerifyFacts.
Import Backend Tstorebe.

(** The pairs the duplicate map of metadataStreamsVerify holds. *)
Lemma metadataStreamsVerify_loop_spec (md : gmap string (gset Z)) (i : Z)
  (metadata : list MetadataStream) :
  metadataStreamsVerify_loop md i metadata = None ↔
    Forall (λ v, PluginID v ≠ "" ∧ StreamID v ≠ 0 ∧ Payload v ≠ "")
      metadata ∧
    NoDup ((λ v, (PluginID v, StreamID v)) <$> metadata) ∧
    Forall (λ v, StreamID v ∉ default ∅ (md !! PluginID v)) metadata.
Proof.
  revert md i. induction metadata as [|v rest IH]; intros md i; simpl.
  - split; [intros _; repeat split; constructor|done].
  - destruct (decide (PluginID v = "")) as [Hp|Hp].
    { split; [done|]. intros [Hall _]. apply Forall_cons in Hall. tauto. }
    destruct (decide (StreamID v = 0)) as [Hs|Hs].
    { split; [done|]. intros [Hall _]. apply Forall_cons in Hall. tauto. }
    destruct (decide (Payload v = "")) as [Hy|Hy].
    { split; [done|]. intros [Hall _]. apply Forall_cons in Hall. tauto. }
    destruct (decide (StreamID v ∈ default ∅ (md !! PluginID v)))
      as [Hin|Hin].
    { split; [done|]. intros (_ & _ & Hfresh).
      apply Forall_cons in Hfresh. tauto. }
    rewrite IH. rewrite !Forall_cons, NoDup_cons.
    assert (Hrest :
      Forall (λ w, StreamID w ∉
                default ∅ ((<[PluginID v:={[StreamID v]} ∪
                               default ∅ (md !! PluginID v)]> md)
                           !! PluginID w)) rest ↔
      ((PluginID v, StreamID v) ∉
         ((λ w, (PluginID w, StreamID w)) <$> rest)) ∧
      Forall (λ w, StreamID w ∉ default ∅ (md !! PluginID w)) rest).
    { rewrite !Forall_forall, list_elem_of_fmap. split.
      - intros Hall. split.
        + intros (w & Heq & Hw). injection Heq as Hp' Hs'.
          apply (Hall w Hw). rewrite <- Hp', lookup_insert_eq. simpl.
          apply elem_of_union. left. apply elem_of_singleton. done.
        + intros w Hw Hin'. apply (Hall w Hw).
          destruct (decide (PluginID v = PluginID w)) as [Heq|Hne].
          * rewrite <- Heq, lookup_insert_eq. simpl.
            apply elem_of_union. right. by rewrite Heq.
          * by rewrite lookup_insert_ne.
      - intros [Hnew Hold] w Hw Hin'.
        destruct (decide (PluginID v = PluginID w)) as [Heq|Hne].
        + rewrite <- Heq, lookup_insert_eq in Hin'. simpl in Hin'.
          apply elem_of_union in Hin' as [Hin'|Hin'].
          * apply elem_of_singleton in Hin'. apply Hnew.
            exists w. split; [|done]. by rewrite Heq, Hin'.
          * apply (Hold w Hw). by rewrite <- Heq.
        + rewrite lookup_insert_ne in Hin' by done. by apply (Hold w Hw). }
    rewrite Hrest. tauto.
Qed.

Lemma metadataStreamsVerify_loop_error (md : gmap string (gset Z)) (i : Z)
  (metadata : list MetadataStream) (e : error) :
  metadataStreamsVerify_loop md i metadata = Some e →
  ∃ context,
    e = ContentError ContentErrorMetadataStreamInvalid context ∨
    e = ContentError ContentErrorMetadataStreamDuplicate context.
Proof.
  revert md i. induction metadata as [|v rest IH]; intros md i; simpl;
    [done|].
  repeat case_decide; try (intros [= <-]; eauto). apply IH.
Qed.

(** X1: metadataStreamsVerify accepts a list of metadata streams exactly
    when every stream has a plugin id, a non-zero stream id and a payload,
    and no (plugin id, stream id) pair occurs twice; every error it returns
    is a ContentError with code MetadataStreamInvalid or
    MetadataStreamDuplicate. *)
Theorem metadataStreamsVerify_accepts (metadata : list MetadataStream) :
  (metadataStreamsVerify metadata = None ↔
     Forall (λ v, PluginID v ≠ "" ∧ StreamID v ≠ 0 ∧ Payload v ≠ "")
       metadata ∧
     NoDup ((λ v, (PluginID v, StreamID v)) <$> metadata)) ∧
  (∀ e, metadataStreamsVerify metadata = Some e →
     ∃ context,
       e = ContentError ContentErrorMetadataStreamInvalid context ∨
       e = ContentError ContentErrorMetadataStreamDuplicate context).
Proof.
  unfold metadataStreamsVerify. split.
  - rewrite metadataStreamsVerify_loop_spec. split; [tauto|].
    intros [Hall Hnd]. split; [done|]. split; [done|].
    apply Forall_forall. intros v _. rewrite lookup_empty. simpl.
    apply not_elem_of_empty.
  - intros e. apply metadataStreamsVerify_loop_error.
Qed.

End MetadataVerifyFacts.

(** ** filesUpdate *)
Section FilesUpdateFacts.
Import Backend Tstorebe.

Lemma foldl_put_lookup (l : list File) (m : gmap string File) (n : string) :
  foldl (λ m v, <[Name v := v]> m) m l !! n =
    match last (filter (λ v, Name v = n) l) with
    | Some f => Some f
    | None => m !! n
    end.
Proof.
  revert m. induction l as [|a l IH]; intros m; simpl; [done|].
  rewrite IH, filter_cons.
  destruct (decide (Name a = n)) as [<-|Hne].
  - rewrite last_cons. destruct (last (filter _ l)); [done|].
    apply lookup_insert_eq.
  - destruct (last (filter _ l)); [done|]. by apply lookup_insert_ne.
Qed.

Lemma foldl_delete_lookup (l : list string) (m : gmap string File)
  (n : string) :
  foldl (λ m fn, match m !! fn with
                 | Some _ => delete fn m
                 | None => m
                 end) m l !! n =
    if decide (n ∈ l) then None else m !! n.
Proof.
  revert m. induction l as [|a l IH]; intros m; cbn [foldl].
  - destruct (decide (n ∈ [])) as [Hin|_]; [|done].
    by apply elem_of_nil in Hin.
  - rewrite IH. destruct (decide (n ∈ l)) as [Hin|Hnin].
    + rewrite decide_True; [done|]. by right.
    + destruct (decide (a = n)) as [->|Hne].
      * rewrite decide_True by left.
        destruct (m !! n) eqn:Hm; [apply lookup_delete_eq|done].
      * rewrite decide_False
          by (intros [?|?]%elem_of_cons; congruence).
        destruct (m !! a); [by apply lookup_delete_ne|done].
Qed.

Lemma foldl_put_keys (l : list File) (m : gmap string File) :
  (∀ k f, m !! k = Some f → Name f = k) →
  ∀ k f, foldl (λ m v, <[Name v := v]> m) m l !! k = Some f → Name f = k.
Proof.
  revert m. induction l as [|a l IH]; intros m Hm; simpl; [done|].
  apply IH. intros k f. rewrite lookup_insert.
  case_decide; [intros [= <-]; done|apply Hm].
Qed.

Lemma foldl_delete_keys (l : list string) (m : gmap string File) :
  (∀ k f, m !! k = Some f → Name f = k) →
  ∀ k f, foldl (λ m fn, match m !! fn with
                        | Some _ => delete fn m
                        | None => m
                        end) m l !! k = Some f → Name f = k.
Proof.
  intros Hm k f. rewrite foldl_delete_lookup. case_decide; [done|apply Hm].
Qed.

Lemma last_filter_None (l : list File) (n : string) :
  last (filter (λ v, Name v = n) l) = None ↔ n ∉ Name <$> l.
Proof.
  rewrite last_None. split.
  - intros Hnil (f & -> & Hf)%list_elem_of_fmap.
    assert (f ∈ filter (λ v, Name v = Name f) l) as Hin
      by (by apply list_elem_of_filter).
    rewrite Hnil in Hin. by apply elem_of_nil in Hin.
  - induction l as [|a l IH]; intros Hnin; [done|].
    rewrite fmap_cons, not_elem_of_cons in Hnin. destruct Hnin as [Hne Hnin].
    rewrite filter_cons. rewrite decide_False by done. by apply IH.
Qed.

(** X2: the files filesUpdate returns have pairwise distinct names, and a
    file is among them exactly when it is the last file of that name in the
    add list, or its name is neither added nor deleted and it is the last
    file of that name in the current files. *)
Theorem filesUpdate_files (filesCurr filesAdd : list File)
  (filesDel : list string) :
  NoDup (Name <$> filesUpdate filesCurr filesAdd filesDel) ∧
  ∀ f, f ∈ filesUpdate filesCurr filesAdd filesDel ↔
    last (filter (λ v, Name v = Name f) filesAdd) = Some f ∨
    ((Name f ∉ Name <$> filesAdd) ∧ (Name f ∉ filesDel) ∧
     last (filter (λ v, Name v = Name f) filesCurr) = Some f).
Proof.
  unfold filesUpdate.
  set (m1 := foldl (λ m v, <[Name v := v]> m) (∅ : gmap string File)
               filesCurr).
  set (m2 := foldl (λ m fn, match m !! fn with
                            | Some _ => delete fn m
                            | None => m
                            end) m1 filesDel).
  set (m3 := foldl (λ m v, <[Name v := v]> m) m2 filesAdd).
  assert (Hkeys : ∀ k f, m3 !! k = Some f → Name f = k).
  { apply foldl_put_keys, foldl_delete_keys, foldl_put_keys.
    intros k f. by rewrite lookup_empty. }
  assert (Hmem : ∀ f, f ∈ (map_to_list m3).*2 ↔ m3 !! Name f = Some f).
  { intros f. rewrite list_elem_of_fmap. split.
    - intros ([k f'] & -> & Hin). apply elem_of_map_to_list in Hin.
      simpl. by rewrite (Hkeys _ _ Hin).
    - intros Hf. exists (Name f, f). split; [done|].
      by apply elem_of_map_to_list. }
  split.
  - assert (Heq : Name <$> (map_to_list m3).*2 = (map_to_list m3).*1).
    { rewrite <- list_fmap_compose. apply list_fmap_ext.
      intros i [k f] Hin. simpl.
      apply list_elem_of_lookup_2, elem_of_map_to_list in Hin.
      by apply Hkeys. }
    rewrite Heq. apply NoDup_fst_map_to_list.
  - intros f. rewrite Hmem. unfold m3. rewrite foldl_put_lookup.
    destruct (last (filter (λ v, Name v = Name f) filesAdd)) as [g|] eqn:Hadd.
    + split; [intros [= ->]; by left|].
      intros [Hg|(Hnin & _)]; [done|].
      apply last_filter_None in Hnin. congruence.
    + apply last_filter_None in Hadd. unfold m2.
      rewrite foldl_delete_lookup. unfold m1. rewrite foldl_put_lookup.
      rewrite lookup_empty.
      destruct (decide (Name f ∈ filesDel)) as [Hdel|Hdel].
      * split; [done|]. intros [?|(_ & ? & _)]; done.
      * destruct (last (filter (λ v, Name v = Name f) filesCurr)).
        -- split; [intros [= ->]; right; done|].
           intros [?|(_ & _ & ?)]; done.
        -- split; [done|]. intros [?|(_ & _ & ?)]; done.
Qed.

End FilesUpdateFacts.

(** ** Content that filesVerify accepts *)
Section FilesAcceptFacts.
Import Backend Tstorebe.
Context `{Library}.

Lemma forEach_None_intro {A} (body : A → option error) (l : list A) :
  (∀ x, x ∈ l → body x = None) → forEach body l = None.
Proof.
  induction l as [|a l IH]; simpl; intros Hall; [done|].
  rewrite (Hall a) by left. apply IH. intros x Hx. apply Hall. by right.
Qed.

Lemma dupCheck_loop_intro (names : list string) (fn : gset string) :
  NoDup names → (∀ n, n ∈ names → n ∉ fn) →
  ∃ fn', forEachAcc dupCheck fn names = inr fn' ∧
         ∀ n, n ∈ fn' ↔ n ∈ names ∨ n ∈ fn.
Proof.
  revert fn. induction names as [|a names IH]; intros fn Hnd Hfresh; simpl.
  - exists fn. split; [done|]. intros n. rewrite elem_of_nil. tauto.
  - apply NoDup_cons in Hnd as [Ha Hnd]. unfold dupCheck at 1.
    rewrite decide_False by (apply Hfresh; left).
    destruct (IH ({[a]} ∪ fn) Hnd) as (fn' & Hrun & Hfn').
    + intros n Hn [->%elem_of_singleton|Hin]%elem_of_union; [done|].
      apply (Hfresh n); [by right|done].
    + exists fn'. split; [done|]. intros n.
      rewrite Hfn', elem_of_cons, elem_of_union, elem_of_singleton. tauto.
Qed.

Lemma fileCheck_None_intro (f : File) :
  gozaru_Sanitize (Name f) = Name f → FPayload f ≠ "" →
  fileDigestOk f → fileMimeOk f → mime_MimeValid (MIME f) = true →
  fileCheck f = None.
Proof.
  intros Hs Hp (d & payload & Hd & Hb & Hdp) (payload' & Hb' & Hm) Hv.
  unfold fileCheck. rewrite Hb in Hb'. injection Hb' as <-.
  rewrite decide_False by (intros Hn; done).
  rewrite Hd. rewrite decide_False by done. rewrite Hb.
  rewrite decide_False by (intros Hn; done).
  rewrite decide_False by (intros Hn; done).
  by rewrite Hv.
Qed.

(** X3: filesVerify returns an error for no other reason than the ones
    it checks: a change that is not empty, whose file and delete names
    are base names and pairwise distinct, and whose files have a
    sanitized name, a non-empty payload, a digest that is the digest of
    the decoded payload, and a MIME type that is the detected one and an
    allowed one, is accepted. *)
Theorem filesVerify_accepts_valid (files : list File)
  (filesDel : list string) :
  ¬ (files = [] ∧ filesDel = []) →
  (∀ n, n ∈ (Name <$> files) ++ filesDel → filepath_Base n = n) →
  NoDup ((Name <$> files) ++ filesDel) →
  (∀ f, f ∈ files →
     gozaru_Sanitize (Name f) = Name f ∧ FPayload f ≠ "" ∧
     fileDigestOk f ∧ fileMimeOk f ∧ mime_MimeValid (MIME f) = true) →
  filesVerify files filesDel = None.
Proof.
  intros Hne Hbase Hnd Hfiles. unfold filesVerify.
  rewrite decide_False.
  2:{ intros [Hf Hd]. apply Hne. split; by apply nil_length_inv. }
  assert (Hpath : ∀ n, n ∈ (Name <$> files) ++ filesDel →
                       pathCheck n = None).
  { intros n Hn. unfold pathCheck.
    rewrite decide_False; [done|]. intros Hb. by apply Hb, Hbase. }
  rewrite forEach_None_intro.
  2:{ intros f Hf. apply Hpath, elem_of_app. left.
      apply list_elem_of_fmap. by exists f. }
  rewrite forEach_None_intro.
  2:{ intros n Hn. apply Hpath, elem_of_app. by right. }
  apply NoDup_app in Hnd as (Hnd1 & Hdisj & Hnd2).
  rewrite forEachAcc_fmap.
  destruct (dupCheck_loop_intro (Name <$> files) ∅ Hnd1)
    as (fn & -> & Hfn).
  { intros n _. apply not_elem_of_empty. }
  destruct (dupCheck_loop_intro filesDel fn Hnd2) as (fn' & -> & _).
  { intros n Hn [Hin|Hin]%Hfn.
    - by apply (Hdisj n).
    - by apply elem_of_empty in Hin. }
  apply forEach_None_intro. intros f Hf.
  destruct (Hfiles f Hf) as (Hs & Hp & Hd & Hm & Hv).
  by apply fileCheck_None_intro.
Qed.

End FilesAcceptFacts.

Lemma filesVerify_accepts_valid_witness :
  Tstorebe.filesVerify [Sample.file "a.txt" "hello"] ["b.txt"] = None.
Proof.
  apply filesVerify_accepts_valid.
  - intros [Hf _]. discriminate Hf.
  - intros n Hn. simpl in Hn.
    apply elem_of_cons in Hn as [->|Hn]; [reflexivity|].
    apply list_elem_of_singleton in Hn as ->. reflexivity.
  - simpl. apply NoDup_cons. split.
    + intros Hin%list_elem_of_singleton. discriminate Hin.
    + apply NoDup_singleton.
  - intros f Hf%list_elem_of_singleton. subst f.
    split; [reflexivity|]. split; [discriminate|].
    split; [by exists "sha256:hello", "hello"|].
    split; [by exists "hello"|reflexivity].
Defined.

(** ** The record operations, call by call *)
Section OperationFacts.
Import Backend Tstorebe Ops.
Context `{Library} {T : Type} `{TstoreAPI T}.

Lemma metadataStreamsVerify_Some (metadata : list MetadataStream) e :
  metadataStreamsVerify metadata = Some e →
  ∃ code context, e = ContentError code context.
Proof.
  intros [context [-> | ->]]%metadataStreamsVerify_loop_error; eauto.
Qed.

(** X4: a successful RecordNew has validated the content and made exactly
    these calls, in this order: the pre hook, the allocation of a token, the
    save of the record with version 1, iteration 1, state unvetted and
    status unreviewed, the post hook, and the inventory add; what it returns
    is the latest record of the new token. *)
Theorem RecordNew_calls (metadata : list MetadataStream)
  (files : list File) (b b' : tstoreBackend T) (r : Record_) :
  RecordNew metadata files b = (Ok r, b') →
  metadataStreamsVerify metadata = None ∧
  filesVerify files [] = None ∧
  ∃ token rm,
    trace b' = trace b ++
      [EvPluginHookPre HookTypeNewRecordPre (HookNewRecordPre metadata files);
       EvRecordNew;
       EvRecordSave token rm metadata files;
       EvPluginHookPost HookTypeNewRecordPost
         (HookNewRecordPost metadata files rm);
       EvInventoryAdd StateUnvetted token StatusUnreviewed] ∧
    Token rm = hex_EncodeToString token ∧
    Version rm = 1 ∧ Iteration rm = 1 ∧
    State rm = StateUnvetted ∧ Status rm = StatusUnreviewed ∧
    tstore_RecordLatest token (tstore b') = Ok r.
Proof.
  unfold RecordNew. munfold. intros Hrun. mrun.
  split; [done|]. split; [done|].
  eexists _, _. repeat rewrite <- app_assoc. simpl.
  split; [reflexivity|]. simpl. done.
Qed.

(** X5: content validation comes before everything else: RecordNew,
    RecordEdit and RecordEditMetadata answer content that fails
    metadataStreamsVerify or filesVerify with a ContentError and leave the
    backend untouched, whether or not the record exists or the backend is
    shut down. *)
Theorem content_validated_first (b : tstoreBackend T) (token : bytes)
  (metadata mdAppend mdOverwrite : list MetadataStream)
  (files filesAdd : list File) (filesDel : list string) :
  (metadataStreamsVerify metadata ≠ None ∨ filesVerify files [] ≠ None →
   ∃ code context,
     RecordNew metadata files b = (Err (ContentError code context), b)) ∧
  (metadataStreamsVerify (mdAppend ++ mdOverwrite) ≠ None ∨
   filesVerify filesAdd filesDel ≠ None →
   ∃ code context,
     RecordEdit token mdAppend mdOverwrite filesAdd filesDel b =
       (Err (ContentError code context), b)) ∧
  (metadataStreamsVerify (mdAppend ++ mdOverwrite) ≠ None →
   ∃ code context,
     RecordEditMetadata token mdAppend mdOverwrite b =
       (Err (ContentError code context), b)).
Proof.
  split; [|split].
  - intros Hbad. unfold RecordNew. munfold.
    destruct (metadataStreamsVerify metadata) as [e|] eqn:Hmd; simpl.
    { apply metadataStreamsVerify_Some in Hmd as (c & x & ->). eauto. }
    destruct (filesVerify files []) as [e|] eqn:Hf; simpl.
    { apply filesVerify_Some in Hf as (c & x & ->). eauto. }
    destruct Hbad; done.
  - intros Hbad. unfold RecordEdit. munfold.
    destruct (metadataStreamsVerify (mdAppend ++ mdOverwrite)) as [e|] eqn:Hmd;
      simpl.
    { apply metadataStreamsVerify_Some in Hmd as (c & x & ->). eauto. }
    destruct (filesVerify filesAdd filesDel) as [e|] eqn:Hf; simpl.
    { apply filesVerify_Some in Hf as (c & x & ->). eauto. }
    destruct Hbad; done.
  - intros Hbad. unfold RecordEditMetadata. munfold.
    destruct (metadataStreamsVerify (mdAppend ++ mdOverwrite)) as [e|] eqn:Hmd;
      simpl; [|done].
    apply metadataStreamsVerify_Some in Hmd as (c & x & ->). eauto.
Qed.

(** X6: a successful RecordEdit has loaded the latest record and made
    exactly three calls: the pre hook, one save, the post hook.  The saved
    record metadata has the version and the iteration of the loaded record
    plus one, its state and status, and a merkle root different from its;
    the saved streams and files are the merged ones. *)
Theorem RecordEdit_calls (b b' : tstoreBackend T) (token : bytes)
  (mdAppend mdOverwrite : list MetadataStream) (filesAdd : list File)
  (filesDel : list string) (r' : Record_) :
  RecordEdit token mdAppend mdOverwrite filesAdd filesDel b = (Ok r', b') →
  ∃ r rm',
    tstore_RecordLatest token (tstore b) = Ok r ∧
    trace b' = trace b ++
      [EvPluginHookPre HookTypeEditRecordPre
         (HookEditRecord r rm'
            (metadataStreamsUpdate (Metadata r) mdAppend mdOverwrite)
            (filesUpdate (Files r) filesAdd filesDel));
       EvRecordSave token rm'
         (metadataStreamsUpdate (Metadata r) mdAppend mdOverwrite)
         (filesUpdate (Files r) filesAdd filesDel);
       EvPluginHookPost HookTypeEditRecordPost
         (HookEditRecord r rm'
            (metadataStreamsUpdate (Metadata r) mdAppend mdOverwrite)
            (filesUpdate (Files r) filesAdd filesDel))] ∧
    Version rm' = u32 (Version (RecordMetadata_ r) + 1) ∧
    Iteration rm' = u32 (Iteration (RecordMetadata_ r) + 1) ∧
    State rm' = State (RecordMetadata_ r) ∧
    Status rm' = Status (RecordMetadata_ r) ∧
    Merkle rm' ≠ Merkle (RecordMetadata_ r).
Proof.
  unfold RecordEdit. munfold. intros Hrun. mrun.
  eexists _, _. split; [done|]. repeat rewrite <- app_assoc. simpl.
  split; [reflexivity|]. simpl. done.
Qed.

(** X7: a successful RecordEditMetadata saves the files of the loaded
    record as they are, with its version, state and status and its
    iteration plus one, between the pre and the post hook; with neither an
    append nor an overwrite it returns ErrNoRecordChanges and touches
    nothing. *)
Theorem RecordEditMetadata_calls (b : tstoreBackend T) (token : bytes)
  (mdAppend mdOverwrite : list MetadataStream) :
  RecordEditMetadata token [] [] b = (Err ErrNoRecordChanges, b) ∧
  ∀ r' b',
    RecordEditMetadata token mdAppend mdOverwrite b = (Ok r', b') →
    ∃ r rm',
      tstore_RecordLatest token (tstore b) = Ok r ∧
      trace b' = trace b ++
        [EvPluginHookPre HookTypeEditMetadataPre
           (HookEditMetadata r
              (metadataStreamsUpdate (Metadata r) mdAppend mdOverwrite));
         EvRecordSave token rm'
           (metadataStreamsUpdate (Metadata r) mdAppend mdOverwrite)
           (Files r);
         EvPluginHookPost HookTypeEditMetadataPost
           (HookEditMetadata r
              (metadataStreamsUpdate (Metadata r) mdAppend mdOverwrite))] ∧
      Version rm' = Version (RecordMetadata_ r) ∧
      Iteration rm' = u32 (Iteration (RecordMetadata_ r) + 1) ∧
      State rm' = State (RecordMetadata_ r) ∧
      Status rm' = Status (RecordMetadata_ r).
Proof.
  split; [reflexivity|].
  unfold RecordEditMetadata. munfold. intros r' b' Hrun. mrun.
  eexists _, _. split; [done|]. repeat rewrite <- app_assoc. simpl.
  split; [reflexivity|]. simpl. done.
Qed.

(** X8: a successful RecordSetStatus makes these calls and no others.  To
    public: pre hook, save, post hook, inventory move to vetted.  To
    archived: pre hook, freeze, post hook, inventory update under the old
    state.  To censored: pre hook, freeze, delete of the record files, post
    hook, inventory update under the old state.  The files handed to the
    store are those of the loaded record. *)
Theorem RecordSetStatus_calls (b b' : tstoreBackend T) (token : bytes)
  (status : StatusT) (mdAppend mdOverwrite : list MetadataStream)
  (r' : Record_) :
  RecordSetStatus token status mdAppend mdOverwrite b = (Ok r', b') →
  ∃ r rm',
    tstore_RecordLatest token (tstore b) = Ok r ∧
    let metadata := metadataStreamsUpdate (Metadata r) mdAppend mdOverwrite in
    let pre := EvPluginHookPre HookTypeSetRecordStatusPre
                 (HookSetRecordStatus r rm' metadata) in
    let post := EvPluginHookPost HookTypeSetRecordStatusPost
                  (HookSetRecordStatus r rm' metadata) in
    (status = StatusPublic ∧
     trace b' = trace b ++
       [pre; EvRecordSave token rm' metadata (Files r); post;
        EvInventoryMoveToVetted token status]) ∨
    (status = StatusArchived ∧
     trace b' = trace b ++
       [pre; EvRecordFreeze token rm' metadata (Files r); post;
        EvInventoryUpdate (State (RecordMetadata_ r)) token status]) ∨
    (status = StatusCensored ∧
     trace b' = trace b ++
       [pre; EvRecordFreeze token rm' metadata (Files r); EvRecordDel token;
        post; EvInventoryUpdate (State (RecordMetadata_ r)) token status]).
Proof.
  unfold RecordSetStatus. munfold. intros Hrun.
  destruct (tstore_RecordExists token (tstore b)); simpl in Hrun; [|done].
  destruct (shutdown b); simpl in Hrun; [done|].
  destruct (tstore_RecordLatest token (tstore b)) as [r|]; simpl in Hrun;
    [|done].
  destruct (statusChangeIsAllowed (Status (RecordMetadata_ r)) status)
    eqn:Hal; simpl in Hrun; [|done].
  apply statusChangeIsAllowed_to in Hal as Hto.
  exists r.
  destruct Hto as [->|[->| ->]]; simpl in Hrun; mrun; eexists;
    (split; [reflexivity|]); repeat rewrite <- app_assoc; simpl.
  - left. split; reflexivity.
  - right. right. split; reflexivity.
  - right. left. split; reflexivity.
Qed.

(** X9: RecordEdit, RecordEditMetadata and RecordSetStatus do nothing on a
    record that does not exist or on a backend that is shut down: they
    return an error and leave the backend, its store and its call log as
    they were.  For RecordSetStatus the error is ErrRecordNotFound for a
    missing record and ErrShutdown otherwise. *)
Theorem mutations_guarded (b : tstoreBackend T) (token : bytes)
  (status : StatusT) (mdAppend mdOverwrite : list MetadataStream)
  (filesAdd : list File) (filesDel : list string) :
  tstore_RecordExists token (tstore b) = false ∨ shutdown b = true →
  (∃ e, RecordEdit token mdAppend mdOverwrite filesAdd filesDel b =
          (Err e, b)) ∧
  (∃ e, RecordEditMetadata token mdAppend mdOverwrite b = (Err e, b)) ∧
  RecordSetStatus token status mdAppend mdOverwrite b =
    (Err (if tstore_RecordExists token (tstore b) then ErrShutdown
          else ErrRecordNotFound), b).
Proof.
  intros Hguard. split; [|split].
  - unfold RecordEdit. munfold.
    destruct (metadataStreamsVerify _); simpl; [eauto|].
    destruct (filesVerify _ _); simpl; [eauto|].
    destruct (tstore_RecordExists token (tstore b)); simpl; [|eauto].
    destruct (shutdown b); simpl; [eauto|]. destruct Hguard; done.
  - unfold RecordEditMetadata. munfold.
    destruct (metadataStreamsVerify _); simpl; [eauto|].
    destruct (decide _); simpl; [eauto|].
    destruct (tstore_RecordExists token (tstore b)); simpl; [|eauto].
    destruct (shutdown b); simpl; [eauto|]. destruct Hguard; done.
  - unfold RecordSetStatus. munfold.
    destruct (tstore_RecordExists token (tstore b)); simpl; [|done].
    destruct (shutdown b); simpl; [done|]. destruct Hguard; done.
Qed.

(** X10: RecordNew does not look at the shutdown flag: on a backend that
    is shut down it makes the same calls and returns the same result as on
    a running one, and leaves the flag as it was. *)
Theorem RecordNew_ignores_shutdown (metadata : list MetadataStream)
  (files : list File) (b : tstoreBackend T) (s : bool) :
  let flag s b := mkBackend s (tstore b) (clock b) (trace b) in
  RecordNew metadata files (flag s b) =
    ((RecordNew metadata files b).1,
     flag s (RecordNew metadata files b).2) ∧
  shutdown (RecordNew metadata files b).2 = shutdown b.
Proof.
  unfold RecordNew. munfold. simpl. mrun; done.
Qed.



End OperationFacts.

Lemma RecordNew_calls_witness :
  Tstorebe.metadataStreamsVerify [] = None ∧
  Tstorebe.filesVerify [Sample.file "a.txt" "hello"] [] = None.
Proof.
  destruct (Tstorebe.RecordNew [] [Sample.file "a.txt" "hello"]
              MemStore.backend0) as [res b'] eqn:Hrun.
  assert (Hres : ∃ r, res = Ok r).
  { vm_compute in Hrun. injection Hrun as <- _. eauto. }
  destruct Hres as [r ->].
  destruct (RecordNew_calls _ _ _ _ _ Hrun) as (Hmd & Hf & _).
  split; assumption.
Defined.

Lemma RecordEdit_calls_witness :
  ∃ r, Tstorebe.tstore_RecordLatest "tree1"
         (Tstorebe.tstore Sample.backend1) = Ok r.
Proof.
  destruct (Tstorebe.RecordEdit "tree1" [] [] [Sample.file "b.txt" "world"]
              [] Sample.backend1) as [res b'] eqn:Hrun.
  assert (Hres : ∃ r', res = Ok r').
  { vm_compute in Hrun. injection Hrun as <- _. eauto. }
  destruct Hres as [r' ->].
  destruct (RecordEdit_calls _ _ _ _ _ _ _ _ Hrun) as (r & rm' & Hr & _).
  exists r. exact Hr.
Defined.

Lemma RecordSetStatus_calls_witness :
  ∃ r, Tstorebe.tstore_RecordLatest "tree1"
         (Tstorebe.tstore Sample.backend1) = Ok r.
Proof.
  destruct (Tstorebe.RecordSetStatus "tree1" Backend.StatusCensored [] []
              Sample.backend1) as [res b'] eqn:Hrun.
  assert (Hres : ∃ r', res = Ok r').
  { vm_compute in Hrun. injection Hrun as <- _. eauto. }
  destruct Hres as [r' ->].
  destruct (RecordSetStatus_calls _ _ _ _ _ _ _ Hrun) as (r & rm' & Hr & _).
  exists r. exact Hr.
Defined.

Lemma mutations_guarded_witness :
  Tstorebe.RecordSetStatus "tree1" Backend.StatusPublic [] []
    SampleMore.backend1Closed =
  (Err Backend.ErrShutdown, SampleMore.backend1Closed).
Proof.
  destruct (mutations_guarded SampleMore.backend1Closed "tree1"
              Backend.StatusPublic [] [] [] []) as (_ & _ & Hset).
  - right. reflexivity.
  - exact Hset.
Defined.


Lemma content_validated_first_witness :
  ∃ code context,
    Tstorebe.RecordNew [] [] SampleMore.backend1Closed =
      (Err (Backend.ContentError code context), SampleMore.backend1Closed).
Proof.
  destruct (content_validated_first SampleMore.backend1Closed "tree1"
              [] [] [] [] [] []) as (Hnew & _).
  apply Hnew. right. vm_compute. discriminate.
Defined.

Lemma RecordEditMetadata_calls_witness :
  ∃ r, Tstorebe.tstore_RecordLatest "tree1"
         (Tstorebe.tstore Sample.backend1) = Ok r.
Proof.
  destruct (Tstorebe.RecordEditMetadata "tree1"
              [Backend.mkMetadataStream "usermd" 1 "x"] [] Sample.backend1)
    as [res b'] eqn:Hrun.
  assert (Hres : ∃ r', res = Ok r').
  { vm_compute in Hrun. injection Hrun as <- _. eauto. }
  destruct Hres as [r' ->].
  destruct (RecordEditMetadata_calls Sample.backend1 "tree1"
              [Backend.mkMetadataStream "usermd" 1 "x"] []) as (_ & Hcalls).
  destruct (Hcalls _ _ Hrun) as (r & rm' & Hr & _).
  exists r. exact Hr.
Defined.

(** ** The metadata stream merge, key by key *)
Section MergeFacts.
Import Backend Tstorebe Merge.

Lemma foldl_mdPut_lookup (l : list MetadataStream)
  (md : gmap string MetadataStream) (k : string) :
  foldl mdPut md l !! k =
    match last (filter (λ v, mdKey v = k) l) with
    | Some v => Some v
    | None => md !! k
    end.
Proof.
  revert md. induction l as [|a l IH]; intros md; simpl; [done|].
  rewrite IH, filter_cons. unfold mdPut at 1.
  destruct (decide (mdKey a = k)) as [<-|Hne].
  - rewrite last_cons. destruct (last (filter _ l)); [done|].
    apply lookup_insert_eq.
  - destruct (last (filter _ l)); [done|]. by apply lookup_insert_ne.
Qed.

Lemma foldl_mdAppendOne_lookup (l : list MetadataStream)
  (md : gmap string MetadataStream) (k : string) :
  foldl mdAppendOne md l !! k =
    foldl appendTo (md !! k) (filter (λ v, mdKey v = k) l).
Proof.
  revert md. induction l as [|a l IH]; intros md; simpl; [done|].
  rewrite IH, filter_cons.
  destruct (decide (mdKey a = k)) as [<-|Hne]; simpl.
  - f_equal. unfold mdAppendOne, appendTo.
    destruct (md !! mdKey a); apply lookup_insert_eq.
  - f_equal. unfold mdAppendOne.
    destruct (md !! mdKey a); by apply lookup_insert_ne.
Qed.

Lemma metadataStreamsMap_lookup
  (curr mdAppend mdOverwrite : list MetadataStream) (k : string) :
  metadataStreamsMap curr mdAppend mdOverwrite !! k =
    mergedStream k curr mdAppend mdOverwrite.
Proof.
  unfold metadataStreamsMap, mergedStream.
  rewrite foldl_mdAppendOne_lookup. f_equal.
  rewrite <- foldl_app, foldl_mdPut_lookup.
  destruct (last _); [done|]. apply lookup_empty.
Qed.

Lemma appendTo_key (k : string) (l : list MetadataStream)
  (o : option MetadataStream) (m : MetadataStream) :
  (∀ m0, o = Some m0 → mdKey m0 = k) →
  Forall (λ v, mdKey v = k) l →
  foldl appendTo o l = Some m → mdKey m = k.
Proof.
  revert o. induction l as [|a l IH]; intros o Ho Hl; simpl.
  - apply Ho.
  - apply Forall_cons in Hl as [Ha Hl]. apply IH; [|done].
    intros m0. destruct o as [m1|]; simpl; intros [= <-]; [|done].
    unfold mdKey. simpl. by apply Ho.
Qed.

Lemma mergedStream_key (k : string)
  (curr mdAppend mdOverwrite : list MetadataStream) (m : MetadataStream) :
  mergedStream k curr mdAppend mdOverwrite = Some m → mdKey m = k.
Proof.
  unfold mergedStream. apply appendTo_key.
  - intros m0 Hlast. apply last_Some_elem_of in Hlast.
    by apply list_elem_of_filter in Hlast as [? _].
  - apply Forall_forall. intros v Hv.
    by apply list_elem_of_filter in Hv as [? _].
Qed.

(** X12: metadataStreamsUpdate returns one stream per map key (plugin id
    followed by the decimal stream id), and the stream under a key is the
    last of the current streams and overwrites with that key, followed by
    the payloads of the appends with that key in the order given: an
    overwrite replaces the current stream, an append extends what the
    overwrite left, and an append with nothing to extend starts the
    stream. *)
Theorem metadataStreamsUpdate_streams
  (curr mdAppend mdOverwrite : list MetadataStream) :
  NoDup (mdKey <$> metadataStreamsUpdate curr mdAppend mdOverwrite) ∧
  ∀ m, m ∈ metadataStreamsUpdate curr mdAppend mdOverwrite ↔
       mergedStream (mdKey m) curr mdAppend mdOverwrite = Some m.
Proof.
  unfold metadataStreamsUpdate.
  set (M := metadataStreamsMap curr mdAppend mdOverwrite).
  assert (Hkey : ∀ k m, M !! k = Some m → mdKey m = k).
  { intros k m. unfold M. rewrite metadataStreamsMap_lookup.
    apply mergedStream_key. }
  split.
  - replace (mdKey <$> (map_to_list M).*2) with ((map_to_list M).*1);
      [apply NoDup_fst_map_to_list|].
    rewrite <- list_fmap_compose. apply list_fmap_ext.
    intros i [k m] Hi%list_elem_of_lookup_2%elem_of_map_to_list. simpl.
    symmetry. by apply Hkey.
  - intros m. rewrite <- metadataStreamsMap_lookup. fold M.
    rewrite list_elem_of_fmap. split.
    + intros ([k m'] & -> & Hin%elem_of_map_to_list). simpl.
      by rewrite (Hkey _ _ Hin).
    + intros Hm. exists (mdKey m, m). split; [done|].
      by apply elem_of_map_to_list.
Qed.

End MergeFacts.

(** ** The batched read *)
Section BatchFacts.
Import Backend Batch.
Context {T : Type}.
Variable tstore_RecordPartial :
  bytes → Z → list string → bool → T → result Record_.
Variable util_TokenEncode : bytes → string.

(** X13: the reply of Records holds, under each encoded token, the record
    of the last request for that token that RecordPartial answered; a
    request that fails, with ErrRecordNotFound or any other error, leaves
    no entry and does not fail the call. *)
Theorem Records_lookup (reqs : list RecordRequest) (t : T) (k : string) :
  Records tstore_RecordPartial util_TokenEncode reqs t !! k =
    last (omap (answer tstore_RecordPartial util_TokenEncode t k) reqs).
Proof.
  unfold Records.
  assert (Hgen : ∀ records : gmap string Record_,
    foldl (λ records v,
             match tstore_RecordPartial (rrToken v) (rrVersion v)
                     (rrFilenames v) (rrOmitAllFiles v) t with
             | Err _ => records
             | Ok r => <[util_TokenEncode (rrToken v) := r]> records
             end) records reqs !! k =
    match last (omap (M:=list)
                  (answer tstore_RecordPartial util_TokenEncode t k) reqs)
    with
    | Some r => Some r
    | None => records !! k
    end).
  { induction reqs as [|v reqs IH]; intros records; simpl; [done|].
    rewrite IH. unfold answer at 2.
    destruct (tstore_RecordPartial _ _ _ _ t) as [r|e].
    - destruct (decide (util_TokenEncode (rrToken v) = k)) as [<-|Hne].
      + rewrite last_cons. destruct (last _); [done|].
        apply lookup_insert_eq.
      + destruct (last _); [done|]. by apply lookup_insert_ne.
    - by destruct (decide _). }
  rewrite Hgen. destruct (last _); [done|]. apply lookup_empty.
Qed.

End BatchFacts.

(** ** The configuration helpers *)
Section ConfigFacts.
Import Config.
Variable util_NormalizeAddress : string → string → string.

Lemma removeDuplicateAddresses_loop_spec (addrs result : list string)
  (seen : gset string) :
  NoDup result → (∀ a, a ∈ seen ↔ a ∈ result) →
  let out := removeDuplicateAddresses_loop addrs result seen in
  NoDup out ∧
  (∀ a, a ∈ out ↔ a ∈ result ∨ a ∈ addrs) ∧
  ∃ new, out = result ++ new ∧ new `sublist_of` addrs ∧
         (NoDup addrs → (∀ a, a ∈ addrs → a ∉ result) → new = addrs).
Proof.
  revert result seen. induction addrs as [|val rest IH];
    intros result seen Hnd Hseen; simpl.
  - split; [done|]. split.
    + intros a. rewrite elem_of_nil. tauto.
    + exists []. by rewrite app_nil_r.
  - destruct (decide (val ∈ seen)) as [Hin|Hnin].
    + destruct (IH result seen Hnd Hseen) as (Hn & Hel & new & Hout & Hsub & Hid).
      split; [done|]. split.
      * intros a. rewrite Hel, elem_of_cons.
        apply Hseen in Hin. split; [tauto|].
        intros [?|[->|?]]; tauto.
      * exists new. split; [done|]. split; [by apply sublist_cons|].
        intros _ Hfresh. apply Hseen in Hin.
        destruct (Hfresh val); [left|done].
    + assert (val ∉ result) as Hnr by (by rewrite <- Hseen).
      destruct (IH (result ++ [val]) ({[val]} ∪ seen))
        as (Hn & Hel & new & Hout & Hsub & Hid).
      { apply NoDup_app. split; [done|]. split.
        - intros a Ha ->%list_elem_of_singleton. done.
        - apply NoDup_singleton. }
      { intros a. rewrite elem_of_union, elem_of_singleton, elem_of_app,
          list_elem_of_singleton, Hseen. tauto. }
      split; [done|]. split.
      * intros a. rewrite Hel, elem_of_app, list_elem_of_singleton,
          elem_of_cons. tauto.
      * exists (val :: new). rewrite Hout, <- app_assoc.
        split; [done|]. split; [by apply sublist_skip|].
        intros [Hv Hr]%NoDup_cons Hfresh. f_equal. apply Hid; [done|].
        intros a Ha [Har| ->%list_elem_of_singleton]%elem_of_app.
        -- apply (Hfresh a); [by right|done].
        -- done.
Qed.

Lemma removeDuplicateAddresses_loop_first (addrs result : list string)
  (seen : gset string) :
  (∀ a, a ∈ seen ↔ a ∈ result) →
  removeDuplicateAddresses_loop addrs result seen =
    result ++ filter (λ y, y ∉ result) (firstOccurrences addrs).
Proof.
  revert result seen. induction addrs as [|val rest IH];
    intros result seen Hseen; simpl.
  - by rewrite filter_nil, app_nil_r.
  - rewrite filter_cons, list_filter_filter.
    destruct (decide (val ∈ seen)) as [Hin|Hnin].
    + apply Hseen in Hin. rewrite decide_False by tauto.
      rewrite (IH _ _ Hseen). f_equal. apply list_filter_iff.
      intros x. split; [|tauto]. intros Hx. split; [done|].
      intros ->. done.
    + assert (val ∉ result) as Hnr by (by rewrite <- Hseen).
      rewrite decide_True by done.
      rewrite (IH (result ++ [val]) ({[val]} ∪ seen)).
      * rewrite <- app_assoc. simpl. do 2 f_equal. apply list_filter_iff.
        intros x. rewrite elem_of_app, list_elem_of_singleton. tauto.
      * intros a. rewrite elem_of_union, elem_of_singleton, elem_of_app,
          list_elem_of_singleton, Hseen. tauto.
Qed.

Lemma removeDuplicateAddresses_elems (addrs : list string) :
  NoDup (removeDuplicateAddresses addrs) ∧
  (∀ a, a ∈ removeDuplicateAddresses addrs ↔ a ∈ addrs).
Proof.
  unfold removeDuplicateAddresses.
  destruct (removeDuplicateAddresses_loop_spec addrs [] ∅)
    as (Hn & Hel & _);
    [constructor
    |intros a; rewrite elem_of_empty, elem_of_nil; tauto|]; simpl in *.
  split; [done|]. intros a. rewrite Hel, elem_of_nil. tauto.
Qed.

(** X14: removeDuplicateAddresses keeps the first occurrence of every
    address and drops the later ones: the result has no duplicates, holds
    exactly the addresses of the input, in the order of the input, and a
    list without duplicates is returned as it is. *)
Theorem removeDuplicateAddresses_spec (addrs : list string) :
  NoDup (removeDuplicateAddresses addrs) ∧
  (∀ a, a ∈ removeDuplicateAddresses addrs ↔ a ∈ addrs) ∧
  removeDuplicateAddresses addrs `sublist_of` addrs ∧
  removeDuplicateAddresses addrs = firstOccurrences addrs ∧
  (NoDup addrs → removeDuplicateAddresses addrs = addrs).
Proof.
  assert (Hfirst : removeDuplicateAddresses addrs = firstOccurrences addrs).
  { unfold removeDuplicateAddresses.
    rewrite (removeDuplicateAddresses_loop_first addrs [] ∅).
    - simpl. induction (firstOccurrences addrs) as [|x l IHl]; [done|].
      rewrite filter_cons_True by (by intros ?%elem_of_nil).
      by rewrite IHl.
    - intros a. rewrite elem_of_empty, elem_of_nil. tauto. }
  split; [|split; [|split; [|split; [exact Hfirst|]]]]; revert Hfirst;
    intros _.
  all: unfold removeDuplicateAddresses.
  all: destruct (removeDuplicateAddresses_loop_spec addrs [] ∅)
    as (Hn & Hel & new & Hout & Hsub & Hid);
    [constructor
    |intros a; rewrite elem_of_empty, elem_of_nil; tauto|]; simpl in *.
  - done.
  - intros a. rewrite Hel, elem_of_nil. tauto.
  - by rewrite Hout.
  - rewrite Hout. intros Hnd. apply Hid; [done|].
    intros a _ Ha. by apply elem_of_nil in Ha.
Qed.

(** X15: normalizeAddresses returns the normalized addresses without
    duplicates, so two addresses with the same normal form give one entry;
    and it leaves the caller's slice holding the normalized addresses,
    duplicates included. *)
Theorem normalizeAddresses_spec (addrs : list string) (defaultPort : string) :
  let out := normalizeAddresses util_NormalizeAddress addrs defaultPort in
  NoDup out.1 ∧
  (∀ a, a ∈ out.1 ↔
        ∃ addr, addr ∈ addrs ∧ a = util_NormalizeAddress addr defaultPort) ∧
  length out.2 = length addrs ∧
  (∀ i addr, addrs !! i = Some addr →
             out.2 !! i = Some (util_NormalizeAddress addr defaultPort)).
Proof.
  unfold normalizeAddresses. simpl.
  destruct (removeDuplicateAddresses_elems
              ((λ addr, util_NormalizeAddress addr defaultPort) <$> addrs))
    as (Hn & Hel).
  split; [done|]. split.
  - intros a. rewrite Hel, list_elem_of_fmap. split.
    + intros (addr & -> & Hin). by exists addr.
    + intros (addr & Hin & ->). by exists addr.
  - split; [apply length_fmap|].
    intros i addr Hi. by rewrite list_lookup_fmap, Hi.
Qed.

End ConfigFacts.

(** ** The debug level option *)
Section DebugLevelFacts.
Import Config.
Variable subsystemLoggers : gset string.

Lemma splitOn_contains (sep : ascii) (s : string) :
  contains sep s = true →
  ∃ a b rest, splitOn sep s = a :: b :: rest.
Proof.
  unfold contains. rewrite bool_decide_eq_true.
  induction s as [|c s IH]; simpl.
  - by intros ?%elem_of_nil.
  - intros Hin. destruct (decide (c = sep)) as [->|Hne].
    + destruct s; simpl; [by eexists _, _, _|].
      destruct (decide _); [by eexists _, _, _|].
      destruct (splitOn sep s); by eexists _, _, _.
    + apply elem_of_cons in Hin as [->|Hin]; [done|].
      destruct (IH Hin) as (a & b & rest & ->). by eexists _, _, _.
Qed.

Lemma parseAndSetDebugLevels_loop_spec (pairs : list string)
  (calls : list LogCall) :
  let r := parseAndSetDebugLevels_loop subsystemLoggers pairs calls in
  ∃ done new,
    r.2 = calls ++ new ∧
    Forall2 (λ p c, pairCall subsystemLoggers p = Some c) done new ∧
    r.1 ≠ Some ErrIndexOutOfRange ∧
    ((r.1 = None ∧ pairs = done) ∨
     (∃ e p rest, r.1 = Some e ∧ pairs = done ++ p :: rest ∧
                  pairCall subsystemLoggers p = None)).
Proof.
  revert calls. induction pairs as [|p rest IH]; intros calls; simpl.
  - exists [], []. rewrite app_nil_r. split; [done|].
    split; [constructor|]. split; [done|]. by left.
  - assert (Hstop : ∀ e, e ≠ ErrIndexOutOfRange →
              pairCall subsystemLoggers p = None →
              ∃ done new,
                calls = calls ++ new ∧
                Forall2 (λ p c, pairCall subsystemLoggers p = Some c)
                  done new ∧
                Some e ≠ Some ErrIndexOutOfRange ∧
                ((Some e = None ∧ p :: rest = done) ∨
                 (∃ e' p' rest', Some e = Some e' ∧
                    p :: rest = done ++ p' :: rest' ∧
                    pairCall subsystemLoggers p' = None))).
    { intros e He Hp. exists [], []. rewrite app_nil_r. split; [done|].
      split; [constructor|]. split; [congruence|].
      right. by exists e, p, rest. }
    unfold pairCall in *.
    destruct (contains "=" p) eqn:Hc; simpl.
    + destruct (splitOn_contains _ _ Hc) as (a & b & ws & Hsplit).
      rewrite Hsplit in *.
      destruct (decide (a ∉ subsystemLoggers)) as [Ha|Ha]; simpl.
      { apply Hstop; [done|]. by rewrite bool_decide_eq_false_2. }
      apply dec_stable in Ha.
      destruct (validLogLevel b) eqn:Hb; simpl.
      * destruct (IH (calls ++ [CallSetLogLevel a b]))
          as (done & new & Hcalls & Hall & Hidx & Hout).
        exists (p :: done), (CallSetLogLevel a b :: new).
        rewrite Hcalls, <- app_assoc. split; [done|]. split.
        { constructor; [|done]. rewrite Hsplit, Hc, Hb.
          by rewrite bool_decide_eq_true_2. }
        split; [done|].
        destruct Hout as [[Hn ->]|(e & p' & rest' & He & -> & Hp')].
        -- by left.
        -- right. by exists e, p', rest'.
      * apply Hstop; [done|]. by rewrite andb_false_r.
    + apply Hstop; [done|]. by destruct (splitOn _ p) as [|? [|? ?]].
Qed.

(** X16: parseAndSetDebugLevels applies the subsystem/level pairs one by
    one and stops at the first pair it does not accept: the calls it has
    made are those of the pairs before that one, so a list with a bad
    pair is applied in part; it returns no error exactly when every pair
    was accepted; and indexing the two fields of a pair never fails.  A
    string with no comma and no equals sign is one level for all
    subsystems, set only if it is a valid level. *)
Theorem parseAndSetDebugLevels_calls (debugLevel : string) :
  let r := parseAndSetDebugLevels subsystemLoggers debugLevel in
  r.1 ≠ Some ErrIndexOutOfRange ∧
  (contains "," debugLevel = false → contains "=" debugLevel = false →
   r = if validLogLevel debugLevel
       then (None, [CallSetLogLevels debugLevel])
       else (Some (ErrInvalidLevel debugLevel), [])) ∧
  (contains "," debugLevel = true ∨ contains "=" debugLevel = true →
   ∃ done,
     Forall2 (λ p c, pairCall subsystemLoggers p = Some c) done r.2 ∧
     ((r.1 = None ∧ splitOn "," debugLevel = done) ∨
      (∃ e p rest, r.1 = Some e ∧
                   splitOn "," debugLevel = done ++ p :: rest ∧
                   pairCall subsystemLoggers p = None))).
Proof.
  unfold parseAndSetDebugLevels.
  destruct (parseAndSetDebugLevels_loop_spec (splitOn "," debugLevel) [])
    as (done & new & Hcalls & Hall & Hidx & Hout). simpl in *.
  destruct (contains "," debugLevel) eqn:Hc1; simpl.
  - split; [done|]. split; [done|]. intros _. exists done.
    by rewrite Hcalls.
  - destruct (contains "=" debugLevel) eqn:Hc2; simpl.
    + split; [done|]. split; [done|]. intros _. exists done.
      by rewrite Hcalls.
    + split; [by destruct (validLogLevel debugLevel)|].
      split; [by destruct (validLogLevel debugLevel)|].
      intros [?|?]; done.
Qed.

End DebugLevelFacts.

Lemma parseAndSetDebugLevels_calls_witness :
  Config.parseAndSetDebugLevels {["tstore"; "pi"]} "tstore=debug,pi=loud" =
    (Some (Config.ErrInvalidLevel "loud"),
     [Config.CallSetLogLevel "tstore" "debug"]) ∧
  ∃ done,
    Forall2 (λ p c, Config.pairCall {["tstore"; "pi"]} p = Some c) done
      [Config.CallSetLogLevel "tstore" "debug"].
Proof.
  assert (Hrun :
    Config.parseAndSetDebugLevels {["tstore"; "pi"]} "tstore=debug,pi=loud" =
      (Some (Config.ErrInvalidLevel "loud"),
       [Config.CallSetLogLevel "tstore" "debug"]))
    by (vm_compute; reflexivity).
  split; [exact Hrun|].
  destruct (parseAndSetDebugLevels_calls {["tstore"; "pi"]}
              "tstore=debug,pi=loud") as (_ & _ & Hpairs).
  destruct Hpairs as (done & Hall & _); [left; vm_compute; reflexivity|].
  rewrite Hrun in Hall. exists done. exact Hall.
Defined.

(** ** The anchor engine: lookups *)
Section AnchorLookupFacts.
Import Backend Anchor AnchorLeaf.
Context `{AnchorEnv}.

Lemma anchorLatest_scan_spec (leavesRev : list LogLeaf) (key : string) :
  anchorLatest_scan leavesRev = Ok key →
  (∃ pre l post, leavesRev = pre ++ l :: post ∧
                 Forall recordLeaf pre ∧ anchorLeaf l key) ∨
  (Forall recordLeaf leavesRev ∧ key = "").
Proof.
  induction leavesRev as [|l rest IH]; simpl.
  - intros [= <-]. right. split; [constructor|done].
  - destruct (extraDataDecode (ExtraData l)) as [ed|e] eqn:Hdec; [|done].
    destruct (decide (Desc ed = dataDescriptorAnchor)) as [Hd|Hd].
    + intros [= <-]. left. exists [], l, rest.
      split; [done|]. split; [constructor|]. by exists ed.
    + intros Hrest. assert (recordLeaf l) as Hl by (by exists ed).
      destruct (IH Hrest) as [(pre & l' & post & -> & Hpre & Hl')|[Hall ->]].
      * left. exists (l :: pre), l', post.
        split; [done|]. split; [by constructor|done].
      * right. split; [by constructor|done].
Qed.

Lemma anchorLatest_scan_none (leavesRev : list LogLeaf) :
  Forall recordLeaf leavesRev → anchorLatest_scan leavesRev = Ok "".
Proof.
  induction 1 as [|l rest (ed & Hdec & Hd) _ IH]; simpl; [done|].
  rewrite Hdec. by rewrite decide_False.
Qed.

(** X17: the anchor anchorLatest returns is the one stored under the key
    of the last anchor leaf of the tree: no leaf after that leaf is an
    anchor leaf.  A tree whose leaves are all record leaves gives
    errAnchorNotFound. *)
Theorem anchorLatest_last (treeID : Z) :
  (∀ a, anchorLatest treeID = Ok a →
     ∃ older l newer key blobs b,
       tlog_LeavesAll treeID = Ok (older ++ l :: newer) ∧
       anchorLeaf l key ∧ Forall recordLeaf newer ∧
       store_Get [key] = Ok blobs ∧ blobs !! key = Some b ∧
       anchorFromBlob b = Ok a) ∧
  (∀ leavesAll, tlog_LeavesAll treeID = Ok leavesAll →
     Forall recordLeaf leavesAll →
     anchorLatest treeID = Err errAnchorNotFound).
Proof.
  unfold anchorLatest. split.
  - intros a Hrun.
    destruct (tlog_LeavesAll treeID) as [leavesAll|] eqn:Hleaves; [|done].
    destruct (anchorLatest_scan (reverse leavesAll)) as [key|] eqn:Hscan;
      [|done].
    destruct (decide (key = "")) as [|Hkey]; [done|].
    destruct (store_Get [key]) as [blobs|] eqn:Hget; [|done].
    destruct (decide _); [done|].
    destruct (blobs !! key) as [b|] eqn:Hb; [|done].
    apply anchorLatest_scan_spec in Hscan
      as [(pre & l & post & Hrev & Hpre & Hl)|[_ ?]]; [|done].
    exists (reverse post), l, (reverse pre), key, blobs, b.
    split.
    { f_equal. apply (inj reverse).
      rewrite Hrev, reverse_app, reverse_cons, !reverse_involutive.
      by rewrite <- app_assoc. }
    split; [done|]. split; [|done].
    apply Forall_reverse. done.
  - intros leavesAll -> Hall.
    rewrite anchorLatest_scan_none by (by apply Forall_reverse).
    by rewrite decide_True.
Qed.

Lemma anchorForLeaf_find_spec (h : bytes) (i : nat) (leaves : list LogLeaf)
  (l : LogLeaf) :
  anchorForLeaf_find h i leaves = Ok (Some l) →
  ∃ j, leaves !! j = Some l ∧ MerkleLeafHash l = h ∧
       LeafIndex l = Z.of_nat (i + j) ∧
       ∀ j' l', (j' < j)%nat → leaves !! j' = Some l' →
                MerkleLeafHash l' ≠ h.
Proof.
  revert i. induction leaves as [|v rest IH]; intros i; simpl; [done|].
  destruct (decide (MerkleLeafHash v = h)) as [Hh|Hh].
  - destruct (decide (LeafIndex v ≠ Z.of_nat i)) as [|Hi]; [done|].
    intros [= <-]. exists 0%nat. apply dec_stable in Hi.
    split; [done|]. split; [done|]. split; [by rewrite Nat.add_0_r|].
    intros j' l' Hlt. lia.
  - intros Hrest. destruct (IH _ Hrest) as (j & Hj & Hl & Hidx & Hfirst).
    exists (S j). split; [done|]. split; [done|].
    split; [rewrite Hidx; f_equal; lia|].
    intros [|j'] l' Hlt; simpl.
    + by intros [= <-].
    + apply Hfirst. lia.
Qed.

Lemma anchorForLeaf_find_first (h : bytes) (i : nat)
  (leaves : list LogLeaf) (j : nat) (l : LogLeaf) :
  leaves !! j = Some l → MerkleLeafHash l = h →
  LeafIndex l = Z.of_nat (i + j) →
  (∀ j' l', (j' < j)%nat → leaves !! j' = Some l' →
            MerkleLeafHash l' ≠ h) →
  anchorForLeaf_find h i leaves = Ok (Some l).
Proof.
  revert i j. induction leaves as [|v rest IH]; intros i j; [done|].
  intros Hj Hl Hidx Hfirst. simpl. destruct j as [|j]; simpl in Hj.
  - injection Hj as ->. rewrite decide_True by done.
    rewrite decide_False; [done|]. intros Hne. apply Hne.
    rewrite Hidx. f_equal. lia.
  - rewrite decide_False by (apply (Hfirst 0%nat); [lia|done]).
    apply (IH (S i) j); [done|done| |].
    + rewrite Hidx. f_equal. lia.
    + intros j' l' Hlt Hj'. apply (Hfirst (S j')); [lia|done].
Qed.

Lemma anchorForLeaf_keys_spec (leaves : list LogLeaf) (keys0 keys : list string) :
  (length keys0 < 2)%nat →
  anchorForLeaf_keys leaves keys0 = Ok keys →
  keys = keys0 ++ take (2 - length keys0) (anchorKeys leaves).
Proof.
  revert keys0. induction leaves as [|l rest IH]; intros keys0 Hlen; simpl.
  - intros [= <-]. unfold anchorKeys. simpl. rewrite take_nil.
    by rewrite app_nil_r.
  - unfold anchorKeys. simpl.
    destruct (extraDataDecode (ExtraData l)) as [ed|e]; [|done].
    destruct (decide (Desc ed = dataDescriptorAnchor)) as [Hd|Hd]; simpl.
    + rewrite length_app. simpl.
      destruct (decide (length keys0 + 1 = 2)%nat) as [H2|H2].
      * intros [= <-]. replace (2 - length keys0)%nat with 1%nat by lia.
        simpl. by rewrite take_0.
      * intros Hrest. apply IH in Hrest; [|rewrite length_app; simpl; lia].
        rewrite Hrest, length_app. simpl.
        replace (2 - length keys0)%nat with (S (2 - (length keys0 + 1)))
          by lia.
        simpl. by rewrite <- app_assoc.
    + apply IH. done.
Qed.

Lemma anchorForLeaf_keys_none (leaves : list LogLeaf) (keys0 : list string) :
  Forall recordLeaf leaves → anchorForLeaf_keys leaves keys0 = Ok keys0.
Proof.
  induction 1 as [|l rest (ed & Hdec & Hd) _ IH]; simpl; [done|].
  rewrite Hdec. by rewrite decide_False.
Qed.

Lemma anchorForLeaf_pick_spec (l : LogLeaf) (blobs : gmap string bytes)
  (keys : list string) (a : anchor) :
  anchorForLeaf_pick l blobs keys = Ok (Some a) →
  ∃ key b lr, key ∈ keys ∧ blobs !! key = Some b ∧
              anchorFromBlob b = Ok a ∧ LogRoot a = Some lr ∧
              u64 (LeafIndex l) < TreeSize lr.
Proof.
  induction keys as [|v rest IH]; simpl; [done|].
  destruct (blobs !! v) as [b|] eqn:Hb; [|done].
  destruct (anchorFromBlob b) as [a'|] eqn:Ha; [|done].
  destruct (LogRoot a') as [lr|] eqn:Hlr; [|done].
  destruct (decide (u64 (LeafIndex l) < TreeSize lr)) as [Hlt|Hlt].
  - intros [= <-]. exists v, b, lr. split; [left|done].
  - intros Hrest. destruct (IH Hrest) as (key & b' & lr' & Hin & Hrest').
    exists key, b', lr'. split; [by right|done].
Qed.

(** X18: the anchor anchorForLeaf returns includes the leaf: the leaf is
    the first one with the merkle leaf hash, it sits at its own leaf index,
    the anchor is stored under the key of the first or the second anchor
    leaf at or after it, and the leaf index is below the tree size of the
    anchor's log root. *)
Theorem anchorForLeaf_includes_leaf (treeID : Z) (merkleLeafHash : bytes)
  (leaves : list LogLeaf) (a : anchor) :
  anchorForLeaf treeID merkleLeafHash leaves = Ok a →
  ∃ i l key blobs b lr,
    leaves !! i = Some l ∧ MerkleLeafHash l = merkleLeafHash ∧
    LeafIndex l = Z.of_nat i ∧
    (∀ j l', (j < i)%nat → leaves !! j = Some l' →
             MerkleLeafHash l' ≠ merkleLeafHash) ∧
    key ∈ take 2 (anchorKeys (drop i leaves)) ∧
    store_Get (take 2 (anchorKeys (drop i leaves))) = Ok blobs ∧
    blobs !! key = Some b ∧ anchorFromBlob b = Ok a ∧
    LogRoot a = Some lr ∧ u64 (LeafIndex l) < TreeSize lr.
Proof.
  unfold anchorForLeaf. intros Hrun.
  destruct (anchorForLeaf_find merkleLeafHash 0 leaves) as [[l|]|] eqn:Hfind;
    [|done|done].
  apply anchorForLeaf_find_spec in Hfind as (i & Hi & Hl & Hidx & Hfirst).
  simpl in Hidx. rewrite Hidx, Nat2Z.id in Hrun.
  destruct (anchorForLeaf_keys (drop i leaves) []) as [keys|] eqn:Hkeys;
    [|done].
  apply anchorForLeaf_keys_spec in Hkeys; [|simpl; lia]. simpl in Hkeys.
  destruct (decide (length keys = 0%nat)); [done|].
  destruct (store_Get keys) as [blobs|] eqn:Hget; [|done].
  destruct (decide _); [done|].
  destruct (anchorForLeaf_pick l blobs keys) as [[a'|]|] eqn:Hpick;
    [|done|done].
  injection Hrun as ->.
  apply anchorForLeaf_pick_spec in Hpick
    as (key & b & lr & Hin & Hb & Ha & Hlr & Hlt).
  subst keys. exists i, l, key, blobs, b, lr. done.
Qed.

(** X19: a leaf with no anchor leaf at or after it has not been anchored:
    anchorForLeaf returns errAnchorNotFound for it, whatever the store
    holds. *)
Theorem anchorForLeaf_not_anchored (treeID : Z) (leaves : list LogLeaf)
  (i : nat) (l : LogLeaf) :
  leaves !! i = Some l →
  LeafIndex l = Z.of_nat i →
  (∀ j l', (j < i)%nat → leaves !! j = Some l' →
           MerkleLeafHash l' ≠ MerkleLeafHash l) →
  Forall recordLeaf (drop i leaves) →
  anchorForLeaf treeID (MerkleLeafHash l) leaves = Err errAnchorNotFound.
Proof.
  intros Hi Hidx Hfirst Hall. unfold anchorForLeaf.
  rewrite (anchorForLeaf_find_first _ 0 leaves i l) by done.
  rewrite Hidx, Nat2Z.id.
  rewrite anchorForLeaf_keys_none by done. done.
Qed.

End AnchorLookupFacts.

(** ** The anchor engine: the batch and what is saved of it *)
Section AnchorBatchFacts.
Import Backend Anchor AnchorLeaf.
Context `{AnchorEnv}.

Lemma anchorTrees_collect_spec (trees : list Tree) (anchors0 : list anchor)
  (digests0 : list string) (anchors : list anchor) (digests : list string) :
  anchorTrees_collect trees anchors0 digests0 = Ok (anchors, digests) →
  ∃ anchors1 digests1,
    anchors = anchors0 ++ anchors1 ∧ digests = digests0 ++ digests1 ∧
    Forall2 batchEntry anchors1 digests1 ∧
    TreeID <$> anchors1 = TreeId <$> filter (λ v, unanchoredLeaves v) trees.
Proof.
  revert anchors0 digests0.
  induction trees as [|v rest IH]; intros anchors0 digests0; simpl.
  - intros [= <- <-]. exists [], []. rewrite !app_nil_r.
    split; [done|]. split; [done|]. split; [constructor|done].
  - assert (Hadd : ∀ lr,
      tlog_SignedLogRoot v = Ok lr →
      unanchoredLeaves v = true →
      anchorTrees_collect rest
        (anchors0 ++ [mkAnchor (TreeId v) (Some lr) None])
        (digests0 ++ [hex_EncodeToString (RootHash lr)]) =
        Ok (anchors, digests) →
      ∃ anchors1 digests1,
        anchors = anchors0 ++ anchors1 ∧ digests = digests0 ++ digests1 ∧
        Forall2 batchEntry anchors1 digests1 ∧
        TreeID <$> anchors1 =
          TreeId <$> filter (λ v, unanchoredLeaves v) (v :: rest)).
    { intros lr Hlr Hun Hrest.
      destruct (IH _ _ Hrest) as (a1 & d1 & -> & -> & Hall & Hids).
      exists (mkAnchor (TreeId v) (Some lr) None :: a1),
             (hex_EncodeToString (RootHash lr) :: d1).
      rewrite <- !app_assoc. split; [done|]. split; [done|]. split.
      - constructor; [|done]. exists lr. simpl. by destruct v.
      - rewrite filter_cons_True by (rewrite Hun; simpl; tauto).
        rewrite !fmap_cons. simpl. by rewrite Hids. }
    assert (Hskip :
      unanchoredLeaves v = false →
      anchorTrees_collect rest anchors0 digests0 = Ok (anchors, digests) →
      ∃ anchors1 digests1,
        anchors = anchors0 ++ anchors1 ∧ digests = digests0 ++ digests1 ∧
        Forall2 batchEntry anchors1 digests1 ∧
        TreeID <$> anchors1 =
          TreeId <$> filter (λ v, unanchoredLeaves v) (v :: rest)).
    { intros Hun Hrest.
      destruct (IH _ _ Hrest) as (a1 & d1 & -> & -> & Hall & Hids).
      exists a1, d1. split; [done|]. split; [done|]. split; [done|].
      rewrite filter_cons_False by (rewrite Hun; simpl; tauto). done. }
    unfold unanchoredLeaves in Hadd, Hskip.
    destruct (anchorLatest (TreeId v)) as [a|e].
    + destruct (tlog_SignedLogRoot v) as [lr|]; [|done].
      destruct (LogRoot a) as [alr|]; [|done].
      destruct (decide (TreeSize alr = u64 (TreeSize lr - 1))) as [Hs|Hs].
      * apply Hskip. by rewrite bool_decide_false by (intros Hn; done).
      * apply (Hadd lr); [done|]. by rewrite bool_decide_true.
    + destruct (decide (e = errAnchorNotFound)) as [->|He]; [|done].
      rewrite bool_decide_true in Hadd, Hskip by done.
      destruct (tlog_LeavesAll (TreeId v)) as [[|l ls]|]; [| |done]; simpl.
      * by apply Hskip.
      * destruct (tlog_SignedLogRoot v) as [lr|]; [|done].
        by apply (Hadd lr).
Qed.

(** X20: when anchorTrees starts the wait for a batch, that batch holds
    exactly the trees with unanchored leaves, in the order of the tree
    list; each anchor carries its tree's signed log root and no verify
    digest yet, and the digest at the same position is the hex of that
    root hash; the batch was submitted to dcrtime once, just before, and
    dcrtime answered every digest with OK or with "exists". *)
Theorem anchorTrees_batch (t t' : Tstore) (err : option error)
  (new : list AnchorEvent) (anchors : list anchor) (digests : list string) :
  anchorTrees t = (err, t') →
  events t' = events t ++ new →
  EvGoAnchorWait anchors digests ∈ new →
  ∃ trees results,
    tlog_TreesAll = Ok trees ∧
    TreeID <$> anchors = TreeId <$> filter (λ v, unanchoredLeaves v) trees ∧
    Forall2 batchEntry anchors digests ∧
    anchors ≠ [] ∧
    new = [EvTimestampBatch anchorID digests;
           EvGoAnchorWait anchors digests] ∧
    dcrtime_timestampBatch anchorID digests = Ok results ∧
    Forall (λ r, r = ResultOK ∨ r = ResultExistsError) results ∧
    err = None ∧ droppingAnchor t = false.
Proof.
  unfold anchorTrees, droppingAnchorGet. intros Hrun Hev Hin.
  assert (Hnil : ∀ P : Prop, events t = events t ++ new → P).
  { intros P Heq. rewrite <- (app_nil_r (events t)) in Heq at 1.
    apply app_inv_head in Heq. subst new. by apply elem_of_nil in Hin. }
  destruct (droppingAnchor t) eqn:Hguard.
  { injection Hrun as <- <-. by apply Hnil. }
  destruct tlog_TreesAll as [trees|] eqn:Htrees;
    [|injection Hrun as <- <-; by apply Hnil].
  destruct (anchorTrees_collect trees [] []) as [[anchors' digests']|]
    eqn:Hcollect; [|injection Hrun as <- <-; by apply Hnil].
  apply anchorTrees_collect_spec in Hcollect
    as (a1 & d1 & -> & -> & Hall & Hids). simpl in Hrun.
  destruct (decide (length a1 = 0%nat)) as [|Hlen];
    [injection Hrun as <- <-; by apply Hnil|].
  destruct (dcrtime_timestampBatch anchorID d1) as [results|] eqn:Hts.
  - destruct (existsb _ results) eqn:Hfailed.
    + injection Hrun as <- <-. simpl in Hev. apply app_inv_head in Hev.
      subst new. apply list_elem_of_singleton in Hin. done.
    + injection Hrun as <- <-. simpl in Hev.
      rewrite <- app_assoc in Hev. apply app_inv_head in Hev. subst new.
      apply elem_of_cons in Hin as [Hin|Hin]; [done|].
      apply list_elem_of_singleton in Hin. injection Hin as -> ->.
      exists trees, results. split; [done|]. split; [done|].
      split; [done|]. split; [by destruct a1|]. split; [done|].
      split; [done|]. split; [|done].
      apply Forall_forall. intros r Hr.
      destruct r as [| |code]; [by left|by right|].
      apply not_true_iff_false in Hfailed. destruct Hfailed.
      apply existsb_exists. exists (ResultOther code).
      split; [|done]. by apply list_elem_of_In.
  - injection Hrun as <- <-. simpl in Hev. apply app_inv_head in Hev.
    subst new. apply list_elem_of_singleton in Hin. done.
Qed.

End AnchorBatchFacts.

(** ** The anchor engine: what anchorWait saves, and its unsuccessful
    runs *)
Section AnchorWaitFacts.
Import Backend Anchor AnchorLeaf.
Context `{AnchorEnv}.

Lemma saveOne_saves (vbr : list VerifyDigest_) (t : Tstore) (k : nat)
  (v : anchor) :
  ∃ new,
    events (saveOne vbr (t, k) v).1 = events t ++ new ∧
    (saveOne vbr (t, k) v).2 = S k ∧
    ∀ ev, ev ∈ new → savedFrom [v] vbr k ev.
Proof.
  unfold saveOne.
  destruct (vbr !! k) as [vd|] eqn:Hvd;
    [|exists []; rewrite app_nil_r; split; [done|]; split; [done|];
      by intros ev ?%elem_of_nil].
  destruct (LogRoot v) as [lr|] eqn:Hlr;
    [|exists []; rewrite app_nil_r; split; [done|]; split; [done|];
      by intros ev ?%elem_of_nil].
  destruct (decide (VDigest vd ≠ _)) as [Hd|Hd];
    [exists []; rewrite app_nil_r; split; [done|]; split; [done|];
      by intros ev ?%elem_of_nil|].
  destruct (merkle_VerifyAuthPath _) as [mk|] eqn:Hmk;
    [|exists []; rewrite app_nil_r; split; [done|]; split; [done|];
      by intros ev ?%elem_of_nil].
  destruct (decide (hex_EncodeToString mk ≠ _)) as [Hm|Hm];
    [exists []; rewrite app_nil_r; split; [done|]; split; [done|];
      by intros ev ?%elem_of_nil|].
  destruct (existsb _ _) eqn:Hfound; simpl;
    [|exists []; rewrite app_nil_r; split; [done|]; split; [done|];
      by intros ev ?%elem_of_nil].
  unfold anchorSave. simpl.
  destruct (decide (TreeID v = 0)) as [Hid|Hid]; simpl;
    [exists []; rewrite app_nil_r; split; [done|]; split; [done|];
      by intros ev ?%elem_of_nil|].
  exists [EvAnchorSave (mkAnchor (TreeID v) (Some lr) (Some vd))].
  split; [done|]. split; [done|].
  intros ev ->%list_elem_of_singleton.
  exists 0%nat, v, vd. rewrite Nat.add_0_r.
  split; [done|]. split; [done|]. split; [|by rewrite Hlr].
  apply dec_stable in Hd. apply dec_stable in Hm.
  apply existsb_exists in Hfound as (h & Hh%list_elem_of_In & Heq).
  apply bool_decide_eq_true in Heq.
  exists lr, mk. split; [done|]. split; [done|]. split; [done|].
  split; [done|]. split; [done|]. by exists h.
Qed.

Lemma saveLoop_saves (vbr : list VerifyDigest_) (anchors : list anchor)
  (t : Tstore) (k : nat) :
  ∃ new,
    events (foldl (saveOne vbr) (t, k) anchors).1 = events t ++ new ∧
    ∀ ev, ev ∈ new → savedFrom anchors vbr k ev.
Proof.
  revert t k. induction anchors as [|v anchors IH]; intros t k;
    cbn [foldl].
  - exists []. rewrite app_nil_r. split; [done|].
    by intros ev ?%elem_of_nil.
  - destruct (saveOne_saves vbr t k v) as (n1 & He1 & Hk & Hs1).
    destruct (saveOne vbr (t, k) v) as [t1 k1]. simpl in *. subst k1.
    destruct (IH t1 (S k)) as (n2 & He2 & Hs2).
    exists (n1 ++ n2). rewrite He2, He1, <- app_assoc. split; [done|].
    intros ev [Hin|Hin]%elem_of_app.
    + destruct (Hs1 ev Hin) as (j & v' & vd & Hj & Hvd & Hver & ->).
      apply list_lookup_singleton_Some in Hj as [-> <-].
      rewrite Nat.add_0_r in Hvd. exists 0%nat, v, vd.
      rewrite Nat.add_0_r. done.
    + destruct (Hs2 ev Hin) as (j & v' & vd & Hj & Hvd & Hver & ->).
      exists (S j), v', vd. split; [done|].
      split; [by rewrite <- Nat.add_succ_comm|done].
Qed.

Lemma anchorWait_try_saves (anchors : list anchor) (digests : list string)
  (t : Tstore) :
  ∃ saves,
    events (anchorWait_try anchors digests t).2 =
      events t ++ EvTick :: EvVerifyBatch anchorID digests :: saves ∧
    ∀ ev, ev ∈ saves →
      ∃ vbr, (anchorWait_try anchors digests t).1 = TryDropped vbr ∧
             size (anchoredSet vbr ∅) = length digests ∧
             savedFrom anchors vbr 0 ev.
Proof.
  unfold anchorWait_try.
  destruct (dcrtime_verifyBatch _ _ _) as [vbr|e]; simpl.
  - destruct (decide _) as [Hne|Heq]; simpl.
    + exists []. rewrite <- app_assoc. split; [done|].
      by intros ev ?%elem_of_nil.
    + match goal with
      | |- context [foldl (saveOne vbr) (?t1, _) anchors] =>
          destruct (saveLoop_saves vbr anchors t1 0%nat) as (new & He & Hs)
      end.
      exists new. rewrite He. simpl. rewrite <- !app_assoc.
      split; [done|]. intros ev Hin. exists vbr. split; [done|].
      split; [by apply dec_stable in Heq|by apply Hs].
  - exists []. rewrite <- app_assoc. split; [done|].
    by intros ev ?%elem_of_nil.
Qed.

Lemma anchorWait_loop_saves (todo try : nat) (anchors : list anchor)
  (digests : list string) (t : Tstore) :
  ∃ new,
    events (anchorWait_loop todo try anchors digests t).2 =
      events t ++ new ∧
    ∀ a, EvAnchorSave a ∈ new →
      ∃ k vbr,
        (anchorWait_loop todo try anchors digests t).1 = WaitDropped k vbr ∧
        size (anchoredSet vbr ∅) = length digests ∧
        savedFrom anchors vbr 0 (EvAnchorSave a).
Proof.
  revert try t. induction todo as [|todo IH]; intros try t;
    cbn [anchorWait_loop].
  - exists []. rewrite app_nil_r. split; [done|].
    by intros a ?%elem_of_nil.
  - destruct (anchorWait_try_saves anchors digests t) as (saves & He & Hs).
    destruct (anchorWait_try anchors digests t) as [[| e | vbr] t1];
      simpl in *.
    + destruct (IH (S try) t1) as (new & He' & Hs').
      exists (EvTick :: EvVerifyBatch anchorID digests :: saves ++ new).
      rewrite He', He, <- app_assoc. split; [done|].
      intros a Hin.
      apply elem_of_cons in Hin as [|Hin]; [done|].
      apply elem_of_cons in Hin as [|Hin]; [done|].
      apply elem_of_app in Hin as [Hin|Hin]; [|by apply Hs'].
      by destruct (Hs _ Hin) as (? & ? & _).
    + exists (EvTick :: EvVerifyBatch anchorID digests :: saves).
      split; [done|]. intros a Hin.
      apply elem_of_cons in Hin as [|Hin]; [done|].
      apply elem_of_cons in Hin as [|Hin]; [done|].
      by destruct (Hs _ Hin) as (? & ? & _).
    + exists (EvTick :: EvVerifyBatch anchorID digests :: saves).
      split; [done|]. intros a Hin.
      apply elem_of_cons in Hin as [|Hin]; [done|].
      apply elem_of_cons in Hin as [|Hin]; [done|].
      destruct (Hs _ Hin) as (vbr' & [= <-] & Hsz & Hsaved).
      by exists try, vbr.
Qed.

(** X21: anchorWait saves only verified anchors: an anchor it saves is an
    anchor of the batch completed with the reply entry at the same
    position, of a reply that has the whole batch anchored; the entry's
    digest is the hex of the anchor's root hash, the entry's merkle path
    verifies to the entry's merkle root and contains the digest, and the
    tree id is not 0. *)
Theorem anchorWait_saves_verified (anchors : list anchor)
  (digests : list string) (t : Tstore) (new : list AnchorEvent)
  (a : anchor) :
  events (anchorWait anchors digests t).2 = events t ++ new →
  EvAnchorSave a ∈ new →
  ∃ try vbr k v vd,
    (anchorWait anchors digests t).1 = WaitDropped try vbr ∧
    size (anchoredSet vbr ∅) = length digests ∧
    anchors !! k = Some v ∧ vbr !! k = Some vd ∧
    verifiedAnchor v vd ∧
    a = mkAnchor (TreeID v) (LogRoot v) (Some vd).
Proof.
  unfold anchorWait, droppingAnchorGet. intros Hev Hin.
  destruct (droppingAnchor t) eqn:Hguard.
  { simpl in Hev. rewrite <- (app_nil_r (events t)) in Hev at 1.
    apply app_inv_head in Hev. subst new. by apply elem_of_nil in Hin. }
  destruct (anchorWait_loop_saves (Z.to_nat retries) 0 anchors digests
              (droppingAnchorSet true t)) as (mid & He & Hs).
  destruct (anchorWait_loop _ _ _ _ _) as [out t1]. simpl in *.
  rewrite He, <- !app_assoc in Hev. apply app_inv_head in Hev. subst new.
  apply elem_of_cons in Hin as [|Hin]; [done|].
  apply elem_of_app in Hin as [Hin|Hin];
    [|by apply list_elem_of_singleton in Hin].
  destruct (Hs a Hin) as (k & vbr & -> & Hsz & j & v & vd & Hj & Hvd & Hver & Heq).
  injection Heq as ->.
  exists k, vbr, j, v, vd. done.
Qed.

Lemma anchorWait_try_error (anchors : list anchor) (digests : list string)
  (t : Tstore) (e : error) :
  (anchorWait_try anchors digests t).1 = TryError e →
  ∃ e0, dcrtime_verifyBatch (verifyCalls t) anchorID digests = Err e0 ∧
        e = ErrWrap "verifyBatch" e0.
Proof.
  unfold anchorWait_try. simpl.
  destruct (dcrtime_verifyBatch _ _ _) as [vbr|e0]; simpl.
  - by destruct (decide _).
  - intros [= <-]. by exists e0.
Qed.

Lemma polls_S (digests : list string) (n : nat) :
  polls digests (S n) =
    EvTick :: EvVerifyBatch anchorID digests :: polls digests n.
Proof. reflexivity. Qed.

Lemma anchorWait_loop_unsuccessful (todo try : nat) (anchors : list anchor)
  (digests : list string) (t : Tstore) :
  let r := anchorWait_loop todo try anchors digests t in
  (r.1 = WaitTimeout →
   extends t r.2 todo (polls digests todo)) ∧
  (∀ k e, r.1 = WaitError k e →
     (try ≤ k < try + todo)%nat ∧
     extends t r.2 (S (k - try)) (polls digests (S (k - try))) ∧
     ∃ e0, dcrtime_verifyBatch (verifyCalls t + (k - try)) anchorID digests
             = Err e0 ∧
           e = ErrWrap "verifyBatch" e0).
Proof.
  revert try t. induction todo as [|todo IH]; intros try t;
    cbn [anchorWait_loop]; simpl.
  - split; [intros _; apply extends_refl|done].
  - destruct (anchorWait_try_extends anchors digests t)
      as (saves & Hext & _ & Hsaves).
    pose proof (anchorWait_try_error anchors digests t) as Herr.
    destruct (anchorWait_try anchors digests t) as [[| e | vbr] t1];
      simpl in *.
    + rewrite Hsaves in Hext by done.
      destruct (IH (S try) t1) as [IHt IHe]. split.
      * intros Hout. specialize (IHt Hout).
        apply (extends_trans _ _ _ 1 todo _ _ Hext IHt).
      * intros k e Hout. destruct (IHe k e Hout) as (Hr & Hx & e0 & Hvb & ->).
        split; [lia|].
        replace (k - try)%nat with (S (k - S try)) by lia.
        split.
        { apply (extends_trans _ _ _ 1 (S (k - S try)) _ _ Hext Hx). }
        exists e0. split; [|done]. destruct Hext as [_ Hc _ _].
        rewrite Hc in Hvb.
        replace (verifyCalls t + S (k - S try))%nat
          with (verifyCalls t + 1 + (k - S try))%nat by lia. done.
    + rewrite Hsaves in Hext by done. split; [done|].
      intros k e' [= <- <-]. rewrite Nat.sub_diag, Nat.add_0_r.
      split; [lia|]. split; [done|]. by apply Herr.
    + split; done.
Qed.

(** X22: the unsuccessful runs of anchorWait, event by event.  On a
    timeout it has set the guard, made exactly 36 polls of one tick and
    one verifyBatch call each, 180 minutes in all, and cleared the guard,
    and nothing else.  When verifyBatch fails on attempt [try] it has made
    try + 1 such polls between setting and clearing the guard, and the
    error is that of the failed call. *)
Theorem anchorWait_unsuccessful (anchors : list anchor)
  (digests : list string) (t t' : Tstore) (out : waitOutcome) :
  anchorWait anchors digests t = (out, t') →
  (out = WaitTimeout →
   events t' = events t ++ EvDroppingAnchorSet true ::
                 polls digests 36 ++ [EvDroppingAnchorSet false] ∧
   verifyCalls t' = (verifyCalls t + 36)%nat ∧
   waited t' = waited t + 180) ∧
  (∀ try e, out = WaitError try e →
   (try < 36)%nat ∧
   events t' = events t ++ EvDroppingAnchorSet true ::
                 polls digests (S try) ++ [EvDroppingAnchorSet false] ∧
   ∃ e0, dcrtime_verifyBatch (verifyCalls t + try) anchorID digests
           = Err e0 ∧
         e = ErrWrap "verifyBatch" e0).
Proof.
  unfold anchorWait, droppingAnchorGet. intros Hrun.
  destruct (droppingAnchor t) eqn:Hguard.
  { injection Hrun as <- <-. split; done. }
  rewrite retries_36 in Hrun.
  destruct (anchorWait_loop_unsuccessful 36 0 anchors digests
              (droppingAnchorSet true t)) as [Ht He].
  destruct (anchorWait_loop 36 0 anchors digests (droppingAnchorSet true t))
    as [out' t1].
  injection Hrun as <- <-. simpl in *. split.
  - intros Hout. destruct (Ht Hout) as [_ Hc Hw Hev]. simpl in *.
    rewrite Hev, <- !app_assoc. split; [done|]. split; [done|].
    unfold period_Minutes in Hw. lia.
  - intros try e Hout.
    destruct (He try e Hout) as (Hr & [_ Hc Hw Hev] & e0 & Hvb & ->).
    rewrite Nat.sub_0_r in *. simpl in *. split; [lia|].
    rewrite Hev, <- !app_assoc. split; [done|]. by exists e0.
Qed.

End AnchorWaitFacts.

Lemma anchorLatest_last_witness :
  Anchor.anchorLatest (H:=SampleMore.anchorEnv2) 1 = Ok SampleMore.anchor2 ∧
  ∃ older l newer key,
    SampleMore.leaves2 = older ++ l :: newer ∧
    AnchorLeaf.anchorLeaf (H:=SampleMore.anchorEnv2) l key ∧
    Forall (AnchorLeaf.recordLeaf (H:=SampleMore.anchorEnv2)) newer.
Proof.
  assert (Hrun : Anchor.anchorLatest (H:=SampleMore.anchorEnv2) 1 =
                 Ok SampleMore.anchor2) by (vm_compute; reflexivity).
  split; [exact Hrun|].
  destruct (@anchorLatest_last SampleMore.anchorEnv2 1) as [Hlast _].
  destruct (Hlast _ Hrun)
    as (older & l & newer & key & blobs & b & Hl & Hk & Hn & _).
  injection Hl as Hl.
  exists older, l, newer, key. split; [exact Hl|]. split; [exact Hk|exact Hn].
Defined.

Lemma anchorForLeaf_includes_leaf_witness :
  AnchorLeaf.anchorForLeaf (H:=SampleMore.anchorEnv2) 1 "h2"
    SampleMore.leaves2 = Ok SampleMore.anchor2 ∧
  ∃ l lr,
    Anchor.MerkleLeafHash l = "h2" ∧
    Anchor.LogRoot SampleMore.anchor2 = Some lr ∧
    Anchor.u64 (Anchor.LeafIndex l) < Anchor.TreeSize lr.
Proof.
  assert (Hrun : AnchorLeaf.anchorForLeaf (H:=SampleMore.anchorEnv2) 1 "h2"
                   SampleMore.leaves2 = Ok SampleMore.anchor2)
    by (vm_compute; reflexivity).
  split; [exact Hrun|].
  destruct (@anchorForLeaf_includes_leaf SampleMore.anchorEnv2 _ _ _ _ Hrun)
    as (i & l & key & blobs & b & lr & _ & Hh & _ & _ & _ & _ & _ & _ &
        Hlr & Hlt).
  exists l, lr. split; [exact Hh|]. split; [exact Hlr|exact Hlt].
Defined.

Lemma anchorForLeaf_not_anchored_witness :
  AnchorLeaf.anchorForLeaf 1 "h1"
    [Anchor.mkLogLeaf "h0" 0 "e0"; Anchor.mkLogLeaf "h1" 1 "e1";
     Anchor.mkLogLeaf "h2" 2 "e2"] = Err Anchor.errAnchorNotFound.
Proof.
  apply (anchorForLeaf_not_anchored 1
           [Anchor.mkLogLeaf "h0" 0 "e0"; Anchor.mkLogLeaf "h1" 1 "e1";
            Anchor.mkLogLeaf "h2" 2 "e2"] 1 (Anchor.mkLogLeaf "h1" 1 "e1")).
  - reflexivity.
  - reflexivity.
  - intros [|j] l' Hlt Hj; [|lia]. injection Hj as <-. simpl. done.
  - simpl. repeat constructor;
      (exists (Anchor.mkExtraData "file" "key"); split; [reflexivity|done]).
Defined.

Lemma anchorTrees_batch_witness :
  ∃ trees,
    Anchor.tlog_TreesAll = Ok trees ∧
    Anchor.TreeID <$> Sample.anchors0 =
      Anchor.TreeId <$> filter (λ v, AnchorLeaf.unanchoredLeaves v) trees ∧
    Forall2 AnchorLeaf.batchEntry Sample.anchors0 Sample.digests0.
Proof.
  destruct (Anchor.anchorTrees Sample.tstore0) as [err t'] eqn:Hrun.
  assert (Hev : Anchor.events t' = Anchor.events Sample.tstore0 ++
                  [Anchor.EvTimestampBatch Anchor.anchorID Sample.digests0;
                   Anchor.EvGoAnchorWait Sample.anchors0 Sample.digests0]).
  { vm_compute in Hrun. injection Hrun as _ <-. reflexivity. }
  destruct (anchorTrees_batch _ _ _ _ Sample.anchors0 Sample.digests0
              Hrun Hev)
    as (trees & results & Htrees & Hids & Hall & _).
  - right. left.
  - exists trees. split; [exact Htrees|]. split; [exact Hids|exact Hall].
Defined.

Lemma anchorWait_saves_verified_witness :
  ∃ v vd,
    Sample.anchors0 !! 0%nat = Some v ∧ AnchorLeaf.verifiedAnchor v vd.
Proof.
  destruct (anchorWait_saves_verified Sample.anchors0 Sample.digests0
              Sample.tstore0
              [Anchor.EvDroppingAnchorSet true;
               Anchor.EvTick; Anchor.EvVerifyBatch "tstorebe" ["roothash"];
               Anchor.EvTick; Anchor.EvVerifyBatch "tstorebe" ["roothash"];
               Anchor.EvTick; Anchor.EvVerifyBatch "tstorebe" ["roothash"];
               Anchor.EvAnchorSave
                 (Anchor.mkAnchor 1 (Some (Anchor.mkLogRoot 3 "roothash"))
                    (Some (Sample.verifyReply 2 "roothash")));
               Anchor.EvDroppingAnchorSet false]
              (Anchor.mkAnchor 1 (Some (Anchor.mkLogRoot 3 "roothash"))
                 (Some (Sample.verifyReply 2 "roothash"))))
    as (try & vbr & k & v & vd & _ & _ & Hk & _ & Hver & Ha).
  - vm_compute; reflexivity.
  - do 7 right. left.
  - destruct k as [|k]; [|destruct k; discriminate Hk].
    exists v, vd. split; [exact Hk|exact Hver].
Defined.

Lemma anchorWait_unsuccessful_witness :
  ∃ t',
    Anchor.anchorWait (H:=SampleMore.anchorEnvNever) Sample.anchors0
      Sample.digests0 Sample.tstore0 = (Anchor.WaitTimeout, t') ∧
    Anchor.verifyCalls t' = 36%nat ∧ Anchor.waited t' = 180.
Proof.
  destruct (Anchor.anchorWait (H:=SampleMore.anchorEnvNever) Sample.anchors0
              Sample.digests0 Sample.tstore0) as [out t'] eqn:Hrun.
  assert (Hout : out = Anchor.WaitTimeout).
  { vm_compute in Hrun. injection Hrun as <- _. reflexivity. }
  subst out.
  destruct (@anchorWait_unsuccessful SampleMore.anchorEnvNever _ _ _ _ _ Hrun)
    as [Htimeout _].
  destruct (Htimeout eq_refl) as (_ & Hc & Hw).
  exists t'. split; [reflexivity|]. split; [exact Hc|exact Hw].
Defined.

(** ** From the batch to the saved anchors *)
Section AnchorEndToEndFacts.
Import Backend Anchor AnchorLeaf.
Context `{AnchorEnv}.

(** X23: end to end, for the batch anchorTrees collects: every anchor
    that anchorWait saves belongs to a tree of the tree list that had
    unanchored leaves, carries the signed log root read for that tree
    when the batch was built, and is completed with a verifyBatch reply
    entry for the very digest submitted for that tree, the hex of that
    root hash. *)
Theorem saved_anchor_of_batch (trees : list Tree) (anchors : list anchor)
  (digests : list string) (t : Tstore) (new : list AnchorEvent)
  (a : anchor) :
  anchorTrees_collect trees [] [] = Ok (anchors, digests) →
  events (anchorWait anchors digests t).2 = events t ++ new →
  EvAnchorSave a ∈ new →
  ∃ k tree lr vd,
    tree ∈ trees ∧ unanchoredLeaves tree = true ∧
    TreeID a = TreeId tree ∧
    tlog_SignedLogRoot tree = Ok lr ∧
    LogRoot a = Some lr ∧ VerifyDigest a = Some vd ∧
    digests !! k = Some (VDigest vd) ∧
    VDigest vd = hex_EncodeToString (RootHash lr).
Proof.
  intros Hcollect Hev Hin.
  apply anchorTrees_collect_spec in Hcollect
    as (a1 & d1 & -> & -> & Hall & Hids). simpl in *.
  unfold anchorWait, droppingAnchorGet in Hev.
  destruct (droppingAnchor t) eqn:Hguard.
  { simpl in Hev. rewrite <- (app_nil_r (events t)) in Hev at 1.
    apply app_inv_head in Hev. subst new. by apply elem_of_nil in Hin. }
  destruct (anchorWait_loop_saves (Z.to_nat retries) 0 a1 d1
              (droppingAnchorSet true t)) as (mid & He & Hs).
  destruct (anchorWait_loop _ _ _ _ _) as [out t1]. simpl in *.
  rewrite He, <- !app_assoc in Hev. apply app_inv_head in Hev. subst new.
  apply elem_of_cons in Hin as [|Hin]; [done|].
  apply elem_of_app in Hin as [Hin|Hin];
    [|by apply list_elem_of_singleton in Hin].
  destruct (Hs a Hin)
    as (try & vbr & _ & _ & k & v & vd & Hk & Hvd & Hver & Heq).
  injection Heq as ->.
  destruct (Forall2_lookup_l _ _ _ _ _ Hall Hk) as (d & Hd & Hentry).
  destruct Hentry as (lr & Hroot & Hlr & _ & ->).
  destruct Hver as (lr' & mk & Hlr' & _ & Hdig & _).
  rewrite Hlr in Hlr'. injection Hlr' as <-.
  assert (TreeID v ∈ TreeId <$> filter (λ v, unanchoredLeaves v) trees)
    as Hid.
  { rewrite <- Hids. apply list_elem_of_fmap. exists v.
    split; [done|]. by apply list_elem_of_lookup_2 in Hk. }
  apply list_elem_of_fmap in Hid as (tree & Htree & Hf).
  apply list_elem_of_filter in Hf as [Hun Hf].
  exists k, tree, lr, vd. simpl.
  split; [done|]. split; [by apply Is_true_true|]. split; [done|].
  split; [destruct tree; simpl in *; by subst|].
  split; [done|]. split; [done|]. split; [by rewrite Hdig|done].
Qed.

End AnchorEndToEndFacts.

Lemma saved_anchor_of_batch_witness :
  ∃ tree lr,
    tree ∈ [Anchor.mkTree 1] ∧
    AnchorLeaf.unanchoredLeaves tree = true ∧
    Anchor.tlog_SignedLogRoot tree = Ok lr ∧
    Anchor.LogRoot
      (Anchor.mkAnchor 1 (Some (Anchor.mkLogRoot 3 "roothash"))
         (Some (Sample.verifyReply 2 "roothash"))) = Some lr.
Proof.
  destruct (saved_anchor_of_batch [Anchor.mkTree 1] Sample.anchors0
              Sample.digests0 Sample.tstore0
              [Anchor.EvDroppingAnchorSet true;
               Anchor.EvTick; Anchor.EvVerifyBatch "tstorebe" ["roothash"];
               Anchor.EvTick; Anchor.EvVerifyBatch "tstorebe" ["roothash"];
               Anchor.EvTick; Anchor.EvVerifyBatch "tstorebe" ["roothash"];
               Anchor.EvAnchorSave
                 (Anchor.mkAnchor 1 (Some (Anchor.mkLogRoot 3 "roothash"))
                    (Some (Sample.verifyReply 2 "roothash")));
               Anchor.EvDroppingAnchorSet false]
              (Anchor.mkAnchor 1 (Some (Anchor.mkLogRoot 3 "roothash"))
                 (Some (Sample.verifyReply 2 "roothash"))))
    as (k & tree & lr & vd & Htree & Hun & _ & Hroot & Hlr & _).
  - vm_compute; reflexivity.
  - vm_compute; reflexivity.
  - do 7 right. left.
  - exists tree, lr. split; [exact Htree|]. split; [exact Hun|].
    split; [exact Hroot|exact Hlr].
Defined.

(** ** The billing status changes and the accepted command *)
Section PiMoreFacts.
Import Pi PiOrder.
Context `{PiEnv}.

Lemma insertByTimestamp_perm (x : BillingStatusChange)
  (l : list BillingStatusChange) :
  insertByTimestamp x l ≡ₚ x :: l.
Proof.
  induction l as [|y l IH]; simpl; [done|].
  destruct (Z.ltb _ _); [|done].
  rewrite IH. apply Permutation_swap.
Qed.

Lemma insertByTimestamp_sorted (x : BillingStatusChange)
  (l : list BillingStatusChange) :
  StronglySorted byTimestamp l →
  StronglySorted byTimestamp (insertByTimestamp x l).
Proof.
  induction 1 as [|y l Hs IH Hy]; simpl.
  - repeat constructor.
  - destruct (Z.ltb_spec (Timestamp y) (Timestamp x)) as [Hlt|Hge].
    + constructor; [done|].
      rewrite insertByTimestamp_perm.
      constructor; [unfold byTimestamp; lia|done].
    + constructor; [by constructor|].
      constructor; [done|].
      eapply Forall_impl; [exact Hy|]. unfold byTimestamp.
      intros z Hz. lia.
Qed.

Lemma insertByTimestamp_filter (ts : Z) (x : BillingStatusChange)
  (l : list BillingStatusChange) :
  filter (λ c, Timestamp c = ts) (insertByTimestamp x l) =
  filter (λ c, Timestamp c = ts) (x :: l).
Proof.
  induction l as [|y l IH]; simpl; [done|].
  destruct (Z.ltb_spec (Timestamp y) (Timestamp x)) as [Hlt|Hge]; [|done].
  rewrite (filter_cons _ y), IH, !filter_cons.
  destruct (decide (Timestamp y = ts)) as [Hy|Hy]; [|done].
  destruct (decide (Timestamp x = ts)) as [Hx|Hx]; [lia|done].
Qed.

Lemma insertByTimestamp_head (x : BillingStatusChange)
  (l : list BillingStatusChange) :
  Forall (byTimestamp x) l →
  insertByTimestamp x l = x :: l.
Proof.
  destruct 1 as [|y l Hy _]; simpl; [done|]. unfold byTimestamp in Hy.
  destruct (Z.ltb_spec (Timestamp y) (Timestamp x)); [lia|done].
Qed.

Lemma sortByTimestamp_spec (l : list BillingStatusChange) :
  sortByTimestamp l ≡ₚ l ∧
  StronglySorted byTimestamp (sortByTimestamp l) ∧
  (∀ ts, filter (λ c, Timestamp c = ts) (sortByTimestamp l) =
         filter (λ c, Timestamp c = ts) l) ∧
  (StronglySorted byTimestamp l → sortByTimestamp l = l).
Proof.
  unfold sortByTimestamp. induction l as [|x l (IHp & IHs & IHf & IHi)];
    simpl.
  - split; [done|]. split; [constructor|]. done.
  - split; [by rewrite insertByTimestamp_perm, IHp|].
    split; [by apply insertByTimestamp_sorted|].
    split.
    + intros ts. rewrite insertByTimestamp_filter, !filter_cons.
      by rewrite IHf.
    + intros Hs. apply StronglySorted_inv in Hs as [Hs Hx].
      rewrite IHi by done. by apply insertByTimestamp_head.
Qed.

Lemma decodeBlobs_spec (blobs : list BlobEntry)
  (decoded : list BillingStatusChange) :
  decodeBlobs blobs = Ok decoded ↔
  Forall2 (λ b c, billingStatusDecode b = Ok c) blobs decoded.
Proof.
  revert decoded. induction blobs as [|b blobs IH]; intros decoded; simpl.
  - split; [intros [= <-]; constructor|by intros ->%Forall2_nil_inv_l].
  - split.
    + destruct (billingStatusDecode b) as [c|] eqn:Hb; [|done].
      destruct (decodeBlobs blobs) as [l|] eqn:Hl; [|done].
      intros [= <-]. constructor; [done|]. by apply IH.
    + intros (c & l & Hb & Hl & ->)%Forall2_cons_inv_l.
      apply IH in Hl. by rewrite Hb, Hl.
Qed.

(** X24: the billing status changes the plugin works with are the decoded
    blobs of the record ordered by timestamp: the same changes, none lost
    or added, in non-decreasing timestamp order, changes of equal
    timestamp in the order the store returned them; blobs that arrive
    ordered are returned as they are. *)
Theorem billingStatusChanges_sorted (token : bytes)
  (bscs : list BillingStatusChange) :
  p_billingStatusChanges token = Ok bscs →
  ∃ blobs decoded,
    tstore_BlobsByDataDesc token [dataDescriptorBillingStatus] = Ok blobs ∧
    Forall2 (λ b c, billingStatusDecode b = Ok c) blobs decoded ∧
    bscs ≡ₚ decoded ∧
    StronglySorted byTimestamp bscs ∧
    (∀ ts, filter (λ c, Timestamp c = ts) bscs =
           filter (λ c, Timestamp c = ts) decoded) ∧
    (StronglySorted byTimestamp decoded → bscs = decoded).
Proof.
  unfold p_billingStatusChanges. intros Hrun.
  destruct (tstore_BlobsByDataDesc _ _) as [blobs|]; [|done].
  destruct (decodeBlobs blobs) as [decoded|] eqn:Hdec; [|done].
  injection Hrun as <-. apply decodeBlobs_spec in Hdec.
  exists blobs, decoded. split; [done|]. split; [done|].
  apply sortByTimestamp_spec.
Qed.

Lemma last_sorted_max (l : list BillingStatusChange)
  (c : BillingStatusChange) :
  StronglySorted byTimestamp l → last l = Some c →
  Forall (λ d, Timestamp d ≤ Timestamp c) l.
Proof.
  induction 1 as [|x l Hs IH Hx]; [done|].
  destruct l as [|y l].
  - intros [= <-]. repeat constructor. lia.
  - rewrite last_cons_cons. intros Hlast. constructor; [|by apply IH].
    assert (c ∈ y :: l) as Hin by (by apply last_Some_elem_of).
    by apply (proj1 (Forall_forall _ _) Hx).
Qed.

Lemma last_filter_max (l : list BillingStatusChange)
  (c : BillingStatusChange) :
  StronglySorted byTimestamp l → last l = Some c →
  last (filter (λ d, Timestamp d = Timestamp c) l) = Some c.
Proof.
  intros Hs Hlast.
  apply last_Some in Hlast as [l' ->].
  rewrite filter_app, filter_cons_True by done.
  rewrite filter_nil. by rewrite last_snoc.
Qed.

(** X25: the current billing status of an approved proposal is the status
    of its latest billing status change: of a change whose timestamp no
    other change exceeds, and, when several changes share that timestamp,
    of the one the store returned last; a proposal with no change is
    active, and one whose vote was not approved has the invalid status. *)
Theorem proposalBillingStatus_latest (vs : Z)
  (decoded : list BillingStatusChange) :
  (vs ≠ VoteStatusApproved →
   proposalBillingStatus vs (sortByTimestamp decoded) =
     BillingStatusInvalid) ∧
  (vs = VoteStatusApproved → decoded = [] →
   proposalBillingStatus vs (sortByTimestamp decoded) =
     BillingStatusActive) ∧
  (vs = VoteStatusApproved → decoded ≠ [] →
   ∃ c, proposalBillingStatus vs (sortByTimestamp decoded) = Status c ∧
        Forall (λ d, Timestamp d ≤ Timestamp c) decoded ∧
        last (filter (λ d, Timestamp d = Timestamp c) decoded) = Some c).
Proof.
  unfold proposalBillingStatus. split; [|split].
  - intros Hvs. by rewrite decide_True.
  - intros Hvs ->. by rewrite decide_False by (intros Hn; done).
  - intros Hvs Hne. rewrite decide_False by (intros Hn; done).
    destruct (sortByTimestamp_spec decoded) as (Hp & Hs & Hf & _).
    destruct (last (sortByTimestamp decoded)) as [c|] eqn:Hlast.
    + exists c. split; [done|]. split.
      * rewrite <- Hp. by apply last_sorted_max.
      * rewrite <- Hf. by apply last_filter_max.
    + apply last_None in Hlast. rewrite Hlast in Hp.
      apply Permutation_nil_l in Hp. done.
Qed.

Ltac prun :=
  unfold notAllowed, billingStatusSave, Pi.try, Pi.pcheck, Pi.pfail,
    mbind, P_bind, mret, P_ret in *;
  repeat (simpl in *; case_match; simplify_eq).

(** X26: what cmdSetBillingStatus has checked and done when it succeeds:
    the payload decodes and carries the token of the command, the status
    is active, closed or completed, the signature verifies, a change to
    closed has a reason, the vote was approved, the proposal is not an
    RFP, the number of changes made so far plus one is within the
    maximum, and the transition from the current status is allowed.  It
    has saved exactly one blob, the change with the request's fields, the
    clock's time and the receipt, and replies with that time and
    receipt. *)
Theorem cmdSetBillingStatus_accepts (token : bytes) (payload : string)
  (l l' : list PiEvent) (reply : SetBillingStatusReply) :
  cmdSetBillingStatus token payload l = (Ok reply, l') →
  ∃ sbs files vm bscs be,
    json_Unmarshal payload = Ok sbs ∧
    tokenMatches token (sbsToken sbs) = None ∧
    (sbsStatus sbs = BillingStatusActive ∨
     sbsStatus sbs = BillingStatusClosed ∨
     sbsStatus sbs = BillingStatusCompleted) ∧
    util_VerifySignature (sbsSignature sbs) (sbsPublicKey sbs)
      (sbsToken sbs +:+ FormatUint (sbsStatus sbs) +:+ sbsReason sbs)
      = None ∧
    (sbsStatus sbs = BillingStatusClosed → sbsReason sbs ≠ "") ∧
    voteSummary token = Ok VoteStatusApproved ∧
    record token [FileNameVoteMetadata] = Ok files ∧
    voteMetadataDecode files = Ok vm ∧ isRFP vm = false ∧
    p_billingStatusChanges token = Ok bscs ∧
    u32 (Z.of_nat (length bscs) + 1) ≤ billingStatusChangesMax ∧
    billingStatusChangeAllowed
      (proposalBillingStatus VoteStatusApproved bscs) (sbsStatus sbs)
      = true ∧
    let bsc := mkBillingStatusChange (sbsToken sbs) (sbsStatus sbs)
                 (sbsReason sbs) (sbsPublicKey sbs) (sbsSignature sbs)
                 time_Now_Unix (SignMessage (sbsSignature sbs)) in
    billingStatusEncode bsc = Ok be ∧
    tstore_BlobSave token be = None ∧
    l' = l ++ [EvBlobSave token bsc] ∧
    reply = mkSetBillingStatusReply time_Now_Unix
              (SignMessage (sbsSignature sbs)).
Proof.
  unfold cmdSetBillingStatus. intros Hrun. prun.
  repeat match goal with
         | Hx : decide _ = _ |- _ => clear Hx
         | Hx : negb _ = false |- _ => apply negb_false_iff in Hx
         | Hx : bool_decide _ = true |- _ => apply bool_decide_eq_true in Hx
         | Hx : ¬ _ ≠ _ |- _ => apply dec_stable in Hx
         | Hx : (_ >? _) = false |- _ =>
             rewrite Z.gtb_ltb in Hx; apply Z.ltb_ge in Hx
         end.
  subst.
  match goal with
  | Hx : ¬ (sbsStatus ?a = BillingStatusClosed ∧ sbsReason ?a = "") |- _ =>
      assert (sbsStatus a = BillingStatusClosed → sbsReason a ≠ "")
        by (intros ? ?; apply Hx; done)
  end.
  eexists _, _, _, _, _.
  repeat match goal with
         | |- _ ∧ _ => split
         end; try eassumption; try reflexivity.
Qed.

(** X27: a cmdSetBillingStatus that returns an error has saved nothing:
    either the store's BlobSave was not called at all, or it was called
    once, as the last step, and the error is the one it returned. *)
Theorem cmdSetBillingStatus_error_saves_nothing (token : bytes)
  (payload : string) (l l' : list PiEvent) (e : perror) :
  cmdSetBillingStatus token payload l = (Err e, l') →
  l' = l ∨
  ∃ bsc be, l' = l ++ [EvBlobSave token bsc] ∧
            billingStatusEncode bsc = Ok be ∧
            tstore_BlobSave token be = Some e.
Proof.
  unfold cmdSetBillingStatus. intros Hrun.
  prun; first [by left | right; eexists _, _; split; [reflexivity|done]].
Qed.

End PiMoreFacts.

Lemma billingStatusChanges_sorted_witness :
  Pi.p_billingStatusChanges "abcd" =
    Ok [Sample.change 2 10; Sample.change 1 20; Sample.change 3 30] ∧
  StronglySorted PiOrder.byTimestamp
    [Sample.change 2 10; Sample.change 1 20; Sample.change 3 30].
Proof.
  assert (Hrun : Pi.p_billingStatusChanges "abcd" =
            Ok [Sample.change 2 10; Sample.change 1 20; Sample.change 3 30])
    by (vm_compute; reflexivity).
  split; [exact Hrun|].
  destruct (billingStatusChanges_sorted "abcd" _ Hrun)
    as (blobs & decoded & _ & _ & _ & Hs & _).
  exact Hs.
Defined.

Lemma proposalBillingStatus_latest_witness :
  ∃ c,
    Pi.proposalBillingStatus 5
      (Pi.sortByTimestamp
         [Sample.change 2 10; Sample.change 3 30; Sample.change 1 20]) =
      Pi.Status c ∧
    Forall (λ d, Pi.Timestamp d ≤ Pi.Timestamp c)
      [Sample.change 2 10; Sample.change 3 30; Sample.change 1 20].
Proof.
  destruct (proposalBillingStatus_latest 5
              [Sample.change 2 10; Sample.change 3 30; Sample.change 1 20])
    as (_ & _ & Hlatest).
  destruct Hlatest as (c & Hc & Hmax & _); [reflexivity|done|].
  exists c. split; [exact Hc|exact Hmax].
Defined.

Lemma cmdSetBillingStatus_accepts_witness :
  ∃ reply sbs,
    (Pi.cmdSetBillingStatus (H:=SampleMore.piEnv10) "abcd" "1:" []).1 =
      Ok reply ∧
    Pi.json_Unmarshal (PiEnv:=SampleMore.piEnv10) "1:" = Ok sbs ∧
    Pi.sbsStatus sbs = Pi.BillingStatusActive.
Proof.
  destruct (Pi.cmdSetBillingStatus (H:=SampleMore.piEnv10) "abcd" "1:" [])
    as [res l'] eqn:Hrun.
  assert (Hres : ∃ reply, res = Ok reply).
  { vm_compute in Hrun. injection Hrun as <- _. eauto. }
  destruct Hres as [reply ->].
  destruct (@cmdSetBillingStatus_accepts SampleMore.piEnv10 _ _ _ _ _ Hrun)
    as (sbs & files & vm & bscs & be & Hdec & _).
  exists reply, sbs. split; [reflexivity|]. split; [exact Hdec|].
  injection Hdec as <-. reflexivity.
Defined.

Lemma cmdSetBillingStatus_error_saves_nothing_witness :
  (Pi.cmdSetBillingStatus "abcd" "2:" []).2 = [].
Proof.
  destruct (Pi.cmdSetBillingStatus "abcd" "2:" []) as [res l'] eqn:Hrun.
  assert (Hres : ∃ e, res = Err e).
  { vm_compute in Hrun. injection Hrun as <- _. eauto. }
  destruct Hres as (e & ->).
  destruct (cmdSetBillingStatus_error_saves_nothing _ _ _ _ _ Hrun)
    as [->|(bsc & be & -> & _)]; [reflexivity|].
  vm_compute in Hrun. discriminate Hrun.
Defined.
